(** * xgboost-go, package [mat]: numeric containers, format readers, metrics

    A shallow embedding of [mat/mat.go].  Go values are represented as follows.

    - [float64] is Rocq's primitive binary64 [float]; comparisons, arithmetic
      and square root are the IEEE-754 operations of [PrimFloat].
    - [string] is a sequence of bytes: Rocq's [string] of [ascii].
    - [Vector] ([[]float64]) is [list float]; a slice is a list, a nil slice
      and an empty slice are both [[]].
    - [SparseVector] ([map[int]float64]) is [gmap Z float].
    - Go's [(value, error)] results are pairs whose second component is an
      [option error] ([None] is Go's [nil]).
    - [int] is [Z]; every [int] of this package is a length, a row counter or
      an index below [2^32], so no wrap-around can occur on a 64-bit target.

    The functions of Go's standard library that the package calls
    ([strings.TrimSpace], [strings.Split], [strconv.ParseUint],
    [bufio.Reader.ReadString]) are modelled from their documented behaviour;
    [strconv.ParseFloat] and [math.Pow] are parameters of the embedding. *)

From Stdlib Require Import ZArith NArith Floats Bool Lia List.
From Stdlib Require Import Strings.Ascii Strings.String.
From stdpp Require Import gmap list.
From Equations Require Import Equations.
From Equations.Prop Require Import Logic.

Local Open Scope string_scope.
Local Open Scope list_scope.
Local Open Scope Z_scope.

(** ** Bytes and strings *)

Definition byte_of (c : ascii) : N := N_of_ascii c.

Definition newline : ascii := ascii_of_N 10.

Fixpoint srev_append (s acc : string) : string :=
  match s with
  | EmptyString => acc
  | String c s' => srev_append s' (String c acc)
  end.

Definition srev (s : string) : string := srev_append s EmptyString.

Definition slen (s : string) : nat := String.length s.

Definition is_empty (s : string) : bool :=
  match s with EmptyString => true | String _ _ => false end.

Fixpoint has_prefix (p s : string) : bool :=
  match p, s with
  | EmptyString, _ => true
  | String a p', String b s' => Ascii.eqb a b && has_prefix p' s'
  | String _ _, EmptyString => false
  end.

(** ** Package [unicode/utf8] and [unicode] *)

Module utf8.

Definition in_range (lo hi : N) (c : ascii) : bool :=
  ((lo <=? byte_of c) && (byte_of c <=? hi))%N.

Definition continuation (c : ascii) : bool := in_range 0x80 0xBF c.

(** [(size, lo, hi)] for a leading byte: the length of the encoding it
    announces and the accepted range of its second byte; size 1 covers
    ASCII and every byte that cannot start an encoding. *)
Definition first (c : ascii) : nat * N * N :=
  let b := byte_of c in
  if (b <? 0xC2)%N then (1%nat, 0, 0)%N
  else if (b <=? 0xDF)%N then (2%nat, 0x80, 0xBF)%N
  else if (b =? 0xE0)%N then (3%nat, 0xA0, 0xBF)%N
  else if (b =? 0xED)%N then (3%nat, 0x80, 0x9F)%N
  else if (b <=? 0xEF)%N then (3%nat, 0x80, 0xBF)%N
  else if (b =? 0xF0)%N then (4%nat, 0x90, 0xBF)%N
  else if (b <=? 0xF3)%N then (4%nat, 0x80, 0xBF)%N
  else if (b =? 0xF4)%N then (4%nat, 0x80, 0x8F)%N
  else (1%nat, 0, 0)%N.

(** The [size] result of [utf8.DecodeRuneInString]: the number of bytes
    of the rune at the head of [s]; [1] for an invalid encoding, [0] for
    the empty string. *)
Definition rune_size (s : string) : nat :=
  match s with
  | EmptyString => 0%nat
  | String c0 t =>
    match first c0 with
    | (2%nat, lo, hi) =>
      match t with
      | String c1 _ => if in_range lo hi c1 then 2%nat else 1%nat
      | _ => 1%nat
      end
    | (3%nat, lo, hi) =>
      match t with
      | String c1 (String c2 _) =>
        if in_range lo hi c1 && continuation c2 then 3%nat else 1%nat
      | _ => 1%nat
      end
    | (4%nat, lo, hi) =>
      match t with
      | String c1 (String c2 (String c3 _)) =>
        if in_range lo hi c1 && continuation c2 && continuation c3
        then 4%nat else 1%nat
      | _ => 1%nat
      end
    | _ => 1%nat
    end
  end.

End utf8.

Module unicode.

(** [unicode.IsSpace] on the ASCII range: tab, line feed, vertical tab,
    form feed, carriage return and space. *)
Definition ascii_space (c : ascii) : bool :=
  let b := byte_of c in
  ((9 <=? b) && (b <=? 13) || (b =? 32))%N.

(** The two-byte encodings of the white-space runes U+0085 and U+00A0. *)
Definition space2 (c0 c1 : ascii) : bool :=
  ((byte_of c0 =? 0xC2) && ((byte_of c1 =? 0x85) || (byte_of c1 =? 0xA0)))%N.

(** The three-byte encodings of the white-space runes U+1680,
    U+2000..U+200A, U+2028, U+2029, U+202F, U+205F and U+3000. *)
Definition space3 (c0 c1 c2 : ascii) : bool :=
  let b0 := byte_of c0 in
  let b1 := byte_of c1 in
  let b2 := byte_of c2 in
  ((b0 =? 0xE1) && (b1 =? 0x9A) && (b2 =? 0x80)
   || (b0 =? 0xE2) && (b1 =? 0x80)
      && ((0x80 <=? b2) && (b2 <=? 0x8A) || (b2 =? 0xA8) || (b2 =? 0xA9)
          || (b2 =? 0xAF))
   || (b0 =? 0xE2) && (b1 =? 0x81) && (b2 =? 0x9F)
   || (b0 =? 0xE3) && (b1 =? 0x80) && (b2 =? 0x80))%N.

End unicode.

(** ** Package [strings] *)

Module strings.

(** [strings.TrimLeftFunc(s, unicode.IsSpace)]: drops white-space runes
    from the front of [s]. *)
Fixpoint TrimLeftSpace (s : string) : string :=
  match s with
  | EmptyString => EmptyString
  | String c0 t1 =>
    if unicode.ascii_space c0 then TrimLeftSpace t1 else
    match t1 with
    | EmptyString => s
    | String c1 t2 =>
      if unicode.space2 c0 c1 then TrimLeftSpace t2 else
      match t2 with
      | EmptyString => s
      | String c2 t3 =>
        if unicode.space3 c0 c1 c2 then TrimLeftSpace t3 else s
      end
    end
  end.

(** Dropping white-space runes from the end of a string, on the reversed
    string: the bytes of each encoding are met last byte first. *)
Fixpoint TrimLeftSpaceRev (s : string) : string :=
  match s with
  | EmptyString => EmptyString
  | String c0 t1 =>
    if unicode.ascii_space c0 then TrimLeftSpaceRev t1 else
    match t1 with
    | EmptyString => s
    | String c1 t2 =>
      if unicode.space2 c1 c0 then TrimLeftSpaceRev t2 else
      match t2 with
      | EmptyString => s
      | String c2 t3 =>
        if unicode.space3 c2 c1 c0 then TrimLeftSpaceRev t3 else s
      end
    end
  end.

Definition TrimRightSpace (s : string) : string :=
  srev (TrimLeftSpaceRev (srev s)).

(** [strings.TrimSpace]: all leading and trailing white space removed, as
    defined by Unicode. *)
Definition TrimSpace (s : string) : string :=
  TrimRightSpace (TrimLeftSpace s).

(** [explode]: [s] cut into its UTF-8 sequences, one string per rune;
    [need] counts the bytes still owed to the rune collected in [cur]. *)
Fixpoint explode_from (s : string) (need : nat) (cur : string) : list string :=
  match s with
  | EmptyString => if is_empty cur then [] else [srev cur]
  | String c s' =>
    match need with
    | O =>
      match utf8.rune_size s with
      | S (S k) => explode_from s' (S k) (String c EmptyString)
      | _ => String c EmptyString :: explode_from s' 0 EmptyString
      end
    | S O => srev (String c cur) :: explode_from s' 0 EmptyString
    | S k => explode_from s' k (String c cur)
    end
  end.

Definition explode (s : string) : list string := explode_from s 0 EmptyString.

(** The scan of [genSplit] for a non-empty separator: [skip] counts the
    bytes of the separator found last that are still to be passed over,
    [cur] holds, reversed, the bytes of the piece being collected. *)
Fixpoint split_from (sep s : string) (skip : nat) (cur : string) : list string :=
  match s with
  | EmptyString => [srev cur]
  | String c s' =>
    match skip with
    | S k => split_from sep s' k cur
    | O =>
      if has_prefix sep s
      then srev cur :: split_from sep s' (Nat.pred (slen sep)) EmptyString
      else split_from sep s' 0 (String c cur)
    end
  end.

(** [strings.Split(s, sep)]: the substrings of [s] between the
    occurrences of [sep], found left to right; an empty [sep] splits after
    each UTF-8 sequence. *)
Definition Split (s sep : string) : list string :=
  if is_empty sep then explode s else split_from sep s 0 EmptyString.

End strings.

(** ** Package [strconv] *)

Module strconv.

(** The [Err] field of a [*strconv.NumError]. *)
Inductive NumError : Type :=
| ErrSyntax
| ErrRange.

Definition is_digit (c : ascii) : bool :=
  ((48 <=? byte_of c) && (byte_of c <=? 57))%N.

Definition digit_value (c : ascii) : Z := Z.of_N (byte_of c) - 48.

Definition maxUint64 : Z := 2 ^ 64 - 1.

(** The digit loop of [ParseUint] in base 10: [n] is the unsigned 64-bit
    accumulator, [maxVal] the largest value of the requested bit size. *)
Fixpoint parse_uint_loop (s : string) (n maxVal : Z) : Z * option NumError :=
  match s with
  | EmptyString => (n, None)
  | String c s' =>
    if negb (is_digit c) then (0, Some ErrSyntax)
    else if maxUint64 / 10 + 1 <=? n then (maxVal, Some ErrRange)
    else
      let n10 := n * 10 in
      let n1 := (n10 + digit_value c) mod 2 ^ 64 in
      if (n1 <? n10) || (maxVal <? n1) then (maxVal, Some ErrRange)
      else parse_uint_loop s' n1 maxVal
  end.

(** [strconv.ParseUint(s, 10, bitSize)]. *)
Definition ParseUint (s : string) (bitSize : Z) : Z * option NumError :=
  if is_empty s then (0, Some ErrSyntax)
  else parse_uint_loop s 0 (2 ^ bitSize - 1).

(** *** A decimal instance of [strconv.ParseFloat]

    The readers below take [strconv.ParseFloat(s, 64)] as a parameter.
    [ParseFloatDecimal] is the instance used in the worked examples: it
    accepts an optional sign, decimal digits with an optional point and an
    optional decimal exponent, and rounds the exact value to the nearest
    binary64 (ties to even); a value too large for a binary64 is a range
    error.  Hexadecimal literals, underscores and the spellings of
    infinity and NaN, which the Go function also accepts, are rejected by
    this instance. *)

Fixpoint take_digits (s : string) (m : Z) (n : nat) : Z * nat * string :=
  match s with
  | String c s' =>
    if is_digit c then take_digits s' (m * 10 + digit_value c) (S n)
    else (m, n, s)
  | EmptyString => (m, n, s)
  end.

Definition take_sign (s : string) : bool * string :=
  match s with
  | String c s' =>
    if (byte_of c =? 45)%N then (true, s')
    else if (byte_of c =? 43)%N then (false, s')
    else (false, s)
  | EmptyString => (false, s)
  end.

(** The binary64 nearest to [(-1)^neg * m * 10^e], for [0 <= m]. *)
Definition round_decimal (neg : bool) (m e : Z) : spec_float :=
  match m with
  | Z0 => S754_zero neg
  | _ =>
    if 0 <=? e then
      binary_normalize prec emax ((if neg then - m else m) * 10 ^ e) 0 false
    else
      let '(q, e', l) := SFdiv_core_binary prec emax m 0 (10 ^ (- e)) 0 in
      binary_round_aux prec emax neg q e' l
  end.

Definition finish_decimal (neg : bool) (m e : Z) : float * option NumError :=
  match round_decimal neg m e with
  | S754_infinity s => (SF2Prim (S754_infinity s), Some ErrRange)
  | x => (SF2Prim x, None)
  end.

Definition syntax_error : float * option NumError := (0%float, Some ErrSyntax).

Definition is_exp_char (c : ascii) : bool :=
  ((byte_of c =? 101) || (byte_of c =? 69))%N.

Definition ParseFloatDecimal (s : string) : float * option NumError :=
  let '(neg, s1) := take_sign s in
  let '(mi, ni, s2) := take_digits s1 0 0 in
  let '(m, nf, s3) :=
    match s2 with
    | String c s2' =>
      if (byte_of c =? 46)%N then take_digits s2' mi 0 else (mi, O, s2)
    | EmptyString => (mi, O, s2)
    end in
  if (ni + nf =? 0)%nat then syntax_error
  else
    match s3 with
    | EmptyString => finish_decimal neg m (- Z.of_nat nf)
    | String c s4 =>
      if is_exp_char c then
        let '(eneg, s5) := take_sign s4 in
        let '(e, ne, s6) := take_digits s5 0 0 in
        if (ne =? 0)%nat || negb (is_empty s6) then syntax_error
        else finish_decimal neg m ((if eneg then - e else e) - Z.of_nat nf)
      else syntax_error
    end.

End strconv.

(** ** Errors

    One constructor per error value the package builds or passes on; the
    arguments are the values formatted into the message. *)

Inductive error : Type :=
| io_EOF
    (* io.EOF *)
| io_failure (msg : string)
    (* any other error of the operating system *)
| ErrOpen (fileName : string) (cause : error)
    (* "unable to open %s: %s" *)
| ErrTooFewColumns
    (* "too few columns" *)
| ErrEmptyToken
    (* "corrupted data format please check for empty spaces" *)
| ErrWrongFormat (token : string)
    (* "wrong data format %s" *)
| ErrParseInt (field : string) (cause : strconv.NumError)
    (* "cannot parse to int %s: %s" *)
| ErrParseFloat (field : string) (cause : strconv.NumError)
    (* "cannot parse to float %s: %s" *)
| ErrConvertFloat (field : string) (cause : strconv.NumError)
    (* "cannot convert to float %s: %s" *)
| ErrRowDimension (row dim : Z)
    (* "row %d has different dimension: %d, please check your file" *)
| ErrVectorLength (len1 len2 : Z)
    (* "different vector length v1=%d, v2=%d" *)
| ErrElementMismatch (i : Z) (x1 x2 : float)
    (* "%d element mismatch: v1[%d]=%f, v2[%d]=%f" *)
| ErrEmptyVector
    (* "empty vector" *)
| ErrRowCount (rows1 rows2 : Z)
    (* "row  matrix mismatch: m1 got %d rows, m2 got %d rows" *)
| ErrAtIndex (i : Z) (cause : error).
    (* errors.Wrap(err, "matrix comparison at index %d") *)

Definition is_EOF (e : error) : bool :=
  match e with io_EOF => true | _ => false end.

(** ** Packages [os] and [bufio] *)

Module os.

(** An open file, as the readers see it: the bytes it delivers, and the
    error that ends the delivery ([None]: end of file). *)
Record File : Type := { contents : string; read_error : option error }.

(** What [os.Open] answers for each path. *)
Definition FileSystem : Type := string -> File + error.

Definition Open (fs : FileSystem) (name : string) : File + error := fs name.

End os.

Module bufio.

Record Reader : Type := { unread : string; final : error }.

Definition NewReader (f : os.File) : Reader :=
  {| unread := os.contents f;
     final := match os.read_error f with None => io_EOF | Some e => e end |}.

(** [s] cut after the first [delim], if there is one. *)
Fixpoint cut (delim : ascii) (s : string) : option (string * string) :=
  match s with
  | EmptyString => None
  | String c s' =>
    if Ascii.eqb c delim then Some (String c EmptyString, s')
    else
      match cut delim s' with
      | Some (line, rest) => Some (String c line, rest)
      | None => None
      end
  end.

(** [Reader.ReadString]: reads until the first [delim] and returns
    the bytes up to and including it; when the input ends first, returns
    the bytes read so far and the error that ended it. *)
Definition ReadString (r : Reader) (delim : ascii)
  : string * option error * Reader :=
  match cut delim (unread r) with
  | Some (line, rest) => (line, None, {| unread := rest; final := final r |})
  | None =>
    (unread r, Some (final r), {| unread := EmptyString; final := final r |})
  end.

End bufio.

(** ** Package [math] *)

Module math.

(** [float64(n)] for an [int] [n]: the nearest binary64. *)
Definition float64_of_int (n : Z) : float :=
  SF2Prim (binary_normalize prec emax n 0 false).

Definition Abs (x : float) : float := PrimFloat.abs x.

Definition Sqrt (x : float) : float := PrimFloat.sqrt x.

(** [math.Inf(-1)]. *)
Definition NegInf : float := neg_infinity.

Definition IsNaN (x : float) : bool := negb (x =? x)%float.

End math.

(** ** Data model *)

(** [Vector] is a list of float numbers. *)
Abbreviation Vector := (list float).

(** [SparseVector] is a map from an index to the value at that index. *)
Abbreviation SparseVector := (gmap Z float).

(** [SparseMatrix] is a list of sparse vectors (its field is [Vectors] in
    the source). *)
Record SparseMatrix : Type := { SVectors : list SparseVector }.

(** [Matrix] is a list of vectors.  The source stores pointers to vectors
    that it allocates one per row and never shares. *)
Record Matrix : Type := { Vectors : list Vector }.

Definition len {A : Type} (l : list A) : Z := Z.of_nat (length l).

(** The ways an iteration of a [for] loop ends. *)
Inductive flow (S R : Type) : Type :=
| Continue (s : S)
| Break (s : S)
| Return (r : R).
Arguments Continue {S R} s.
Arguments Break {S R} s.
Arguments Return {S R} r.

(** ** Conversions *)

Section Conversions.

(** The order in which a [range] statement visits the entries of a map.
    Go leaves it unspecified; the embedding takes it as a parameter. *)
Variable range : SparseVector -> list (Z * float).

(** [func (m SparseMatrix) ToFloat64() [][]float64] *)
Definition SparseMatrix_ToFloat64 (m : SparseMatrix) : list (list float) :=
  map (fun v => fold_left (fun result_i kv => result_i ++ [snd kv]) (range v) [])
      (SVectors m).

(** [func (m SparseMatrix) Flatten() []float64] *)
Definition SparseMatrix_Flatten (m : SparseMatrix) : list float :=
  fold_left
    (fun result v => fold_left (fun result kv => result ++ [snd kv]) (range v) result)
    (SVectors m) [].

End Conversions.

(** [func (m Matrix) ToFloat64() [][]float64] *)
Definition Matrix_ToFloat64 (m : Matrix) : list (list float) :=
  map (fun v => map (fun val => val) v) (Vectors m).

(** [func (m Matrix) Flatten() []float64] *)
Definition Matrix_Flatten (m : Matrix) : list float :=
  fold_left (fun result v => result ++ v) (Vectors m) [].

(** The inner loop of [GetSparseMatrixFromSlice] over [data[i][j:]]. *)
Fixpoint sparse_of_row (row : list float) (j : Z) (vec : SparseVector)
  : SparseVector :=
  match row with
  | [] => vec
  | x :: row' =>
    sparse_of_row row' (j + 1)
      (if negb (x =? 0)%float then <[j := x]> vec else vec)
  end.

(** The outer loop of [GetSparseMatrixFromSlice] over [data[i:]]. *)
Fixpoint sparse_of_rows (data : list (list float)) (sparseMatrix : SparseMatrix)
  : SparseMatrix :=
  match data with
  | [] => sparseMatrix
  | row :: data' =>
    sparse_of_rows data'
      {| SVectors := SVectors sparseMatrix ++ [sparse_of_row row 0 ∅] |}
  end.

(** [func GetSparseMatrixFromSlice(data [][]float64) (SparseMatrix, error)] *)
Definition GetSparseMatrixFromSlice (data : list (list float))
  : SparseMatrix * option error :=
  (sparse_of_rows data {| SVectors := [] |}, None).

(** ** Format readers *)

Section Readers.

(** [strconv.ParseFloat(s, 64)]. *)
Variable ParseFloat : string -> float * option strconv.NumError.

(** The loop [for c := 1; c < len(tokens); c++] of the sparse reader, over
    [tokens[c:]]. *)
Fixpoint libsvm_pairs (tokens : list string) (vec : SparseVector)
  : SparseVector + error :=
  match tokens with
  | [] => inl vec
  | token :: tokens' =>
    if (slen token =? 0)%nat then inr ErrEmptyToken
    else
      match strings.Split token ":" with
      | [index; value] =>
        match strconv.ParseUint index 32 with
        | (_, Some err) => inr (ErrParseInt index err)
        | (colIdx, None) =>
          match ParseFloat value with
          | (_, Some err) => inr (ErrParseFloat value err)
          | (val, None) => libsvm_pairs tokens' (<[colIdx := val]> vec)
          end
        end
      | _ => inr (ErrWrongFormat token)
      end
  end.

(** The part of an iteration that turns a trimmed, non-empty line into a
    row: the split on single spaces, the column check, and the loop over
    the tokens after the label. *)
Definition libsvm_line (line : string) : SparseVector + error :=
  let tokens := strings.Split line " " in
  if len tokens <? 2 then inr ErrTooFewColumns
  else
    (* first column is label so skip it. *)
    libsvm_pairs (tail tokens) ∅.

(** One iteration of the [for] loop of [ReadLibsvmFileToSparseMatrix]. *)
Definition libsvm_step (reader : bufio.Reader) (sparseMatrix : SparseMatrix)
  : flow (bufio.Reader * SparseMatrix) (SparseMatrix * option error) :=
  let '(line, err, reader') := bufio.ReadString reader newline in
  match err with
  | Some e =>
    if negb (is_EOF e) then Return ({| SVectors := [] |}, Some e)
    else Break (reader', sparseMatrix)
  | None =>
    let line := strings.TrimSpace line in
    if is_empty line then Break (reader', sparseMatrix)
    else
      match libsvm_line line with
      | inr e => Return ({| SVectors := [] |}, Some e)
      | inl vec =>
        Continue (reader', {| SVectors := SVectors sparseMatrix ++ [vec] |})
      end
  end.

(** The loop [for i := 0; i < len(tokens); i++] of the dense reader, over
    [tokens[i:]]. *)
Fixpoint csv_fields (defaultVal : float) (tokens : list string) (vec : Vector)
  : Vector + error :=
  match tokens with
  | [] => inl vec
  | token :: tokens' =>
    if (slen token =? 0)%nat then csv_fields defaultVal tokens' (vec ++ [defaultVal])
    else
      match ParseFloat token with
      | (_, Some err) => inr (ErrConvertFloat token err)
      | (v, None) => csv_fields defaultVal tokens' (vec ++ [v])
      end
  end.

(** The variables the loop of [ReadCSVFileToDenseMatrix] updates. *)
Record csv_state : Type :=
  { st_reader : bufio.Reader; st_matrix : Matrix; st_colDim : Z; st_row : Z }.

(** The part of an iteration that turns a trimmed, non-empty line into a
    row and checks its dimension: from the split on the delimiter to the
    increment of [row]; [reader'] is the reader after the line. *)
Definition csv_row (delimiter : string) (defaultVal : float) (line : string)
  (reader' : bufio.Reader) (st : csv_state)
  : flow csv_state (Matrix * option error) :=
  let tokens := strings.Split line delimiter in
  match csv_fields defaultVal tokens [] with
  | inr e => Return ({| Vectors := [] |}, Some e)
  | inl vec =>
    let next colDim' :=
      Continue {| st_reader := reader';
                  st_matrix := {| Vectors := Vectors (st_matrix st) ++ [vec] |};
                  st_colDim := colDim';
                  st_row := st_row st + 1 |} in
    if st_colDim st =? -1 then next (len vec)
    else if negb (st_colDim st =? len vec)
         then Return ({| Vectors := [] |}, Some (ErrRowDimension (st_row st) (len vec)))
         else next (st_colDim st)
  end.

(** One iteration of the [for] loop of [ReadCSVFileToDenseMatrix]. *)
Definition csv_step (delimiter : string) (defaultVal : float) (st : csv_state)
  : flow csv_state (Matrix * option error) :=
  let '(line, err, reader') := bufio.ReadString (st_reader st) newline in
  if match err with Some e => negb (is_EOF e) | None => false end
  then Return ({| Vectors := [] |}, err)
  else
    let line := strings.TrimSpace line in
    if is_empty line then Break st
    else csv_row delimiter defaultVal line reader' st.

End Readers.

Section ReaderLoops.

(** [strconv.ParseFloat(s, 64)]. *)
Variable ParseFloat : string -> float * option strconv.NumError.

(** The [for] loop of [ReadLibsvmFileToSparseMatrix] and the [return] that
    follows it.  An iteration is followed by another one only after
    [ReadString] has found a line break, so the unread input shrinks. *)
Equations? libsvm_loop (reader : bufio.Reader) (sparseMatrix : SparseMatrix)
  : SparseMatrix * option error
  by wf (slen (bufio.unread reader)) lt :=
libsvm_loop reader sparseMatrix
  with inspect (libsvm_step ParseFloat reader sparseMatrix) := {
  | exist _ (Return r) _ => r
  | exist _ (Break (_, sparseMatrix')) _ => (sparseMatrix', None)
  | exist _ (Continue (reader', sparseMatrix')) Hstep =>
    libsvm_loop reader' sparseMatrix' }.
Proof.
  assert (Hcut : forall s line rest,
             bufio.cut newline s = Some (line, rest) -> (slen rest < slen s)%nat).
  { induction s as [|c s IH]; simpl; intros line rest Hs; [discriminate|].
    destruct (Ascii.eqb c newline).
    - inversion Hs; subst. unfold slen. simpl. lia.
    - destruct (bufio.cut newline s) as [[l r]|] eqn:E; [|discriminate].
      inversion Hs; subst. specialize (IH _ _ eq_refl). unfold slen in *. simpl. lia. }
  unfold libsvm_step, bufio.ReadString in Hstep.
  destruct (bufio.cut newline (bufio.unread reader)) as [[l r]|] eqn:E.
  - apply Hcut in E.
    destruct (is_empty (strings.TrimSpace l)); [discriminate|].
    destruct (libsvm_line _ _); [|discriminate].
    inversion Hstep; subst. exact E.
  - destruct (negb (is_EOF (bufio.final reader))); discriminate.
Qed.

(** [func ReadLibsvmFileToSparseMatrix(fileName string) (SparseMatrix, error)] *)
Definition ReadLibsvmFileToSparseMatrix (fs : os.FileSystem) (fileName : string)
  : SparseMatrix * option error :=
  match os.Open fs fileName with
  | inr err => ({| SVectors := [] |}, Some (ErrOpen fileName err))
  | inl file =>
    let reader := bufio.NewReader file in
    libsvm_loop reader {| SVectors := [] |}
  end.

(** The [for] loop of [ReadCSVFileToDenseMatrix] and the [return] that
    follows it.  An iteration is followed by another one only after
    [ReadString] has returned a non-empty line, so the unread input shrinks. *)
Equations? csv_loop (delimiter : string) (defaultVal : float) (st : csv_state)
  : Matrix * option error
  by wf (slen (bufio.unread (st_reader st))) lt :=
csv_loop delimiter defaultVal st
  with inspect (csv_step ParseFloat delimiter defaultVal st) := {
  | exist _ (Return r) _ => r
  | exist _ (Break st') _ => (st_matrix st', None)
  | exist _ (Continue st') Hstep => csv_loop delimiter defaultVal st' }.
Proof.
  assert (Hcut : forall s line rest,
             bufio.cut newline s = Some (line, rest) -> (slen rest < slen s)%nat).
  { induction s as [|c s IH]; simpl; intros line rest Hs; [discriminate|].
    destruct (Ascii.eqb c newline).
    - inversion Hs; subst. unfold slen. simpl. lia.
    - destruct (bufio.cut newline s) as [[l r]|] eqn:E; [|discriminate].
      inversion Hs; subst. specialize (IH _ _ eq_refl). unfold slen in *. simpl. lia. }
  unfold csv_step, csv_row, bufio.ReadString in Hstep.
  destruct (bufio.cut newline (bufio.unread (st_reader st))) as [[l r]|] eqn:E.
  - apply Hcut in E. simpl in Hstep.
    destruct (is_empty (strings.TrimSpace l)); [discriminate|].
    destruct (csv_fields _ _ _ _); [|discriminate].
    destruct (st_colDim st =? -1); [injection Hstep as <-; exact E|].
    destruct (negb _); [discriminate|]. injection Hstep as <-; exact E.
  - destruct (negb (is_EOF (bufio.final (st_reader st)))); [discriminate|].
    destruct (bufio.unread (st_reader st)) as [|c s] eqn:Eu; [discriminate|].
    destruct (is_empty _); [discriminate|].
    destruct (csv_fields _ _ _ _); [|discriminate].
    destruct (st_colDim st =? -1); [injection Hstep as <-; simpl; unfold slen; simpl; lia|].
    destruct (negb _); [discriminate|].
    injection Hstep as <-; simpl; unfold slen; simpl; lia.
Qed.

(** [func ReadCSVFileToDenseMatrix(fileName string, delimiter string,
    defaultVal float64) (Matrix, error)] *)
Definition ReadCSVFileToDenseMatrix
  (fs : os.FileSystem) (fileName delimiter : string) (defaultVal : float)
  : Matrix * option error :=
  match os.Open fs fileName with
  | inr err => ({| Vectors := [] |}, Some (ErrOpen fileName err))
  | inl file =>
    csv_loop delimiter defaultVal
      {| st_reader := bufio.NewReader file;
         st_matrix := {| Vectors := [] |};
         st_colDim := -1;
         st_row := 0 |}
  end.

End ReaderLoops.

(** ** Comparison and metrics *)

(** The loop [for i := range v1] of [IsEqualVectors], over [v1[i:]] and
    [v2[i:]]; the caller has checked that the lengths agree. *)
Fixpoint equal_from (v1 v2 : Vector) (i : Z) (threshold : float) : option error :=
  match v1, v2 with
  | x1 :: v1', x2 :: v2' =>
    if (threshold <? math.Abs (x1 - x2))%float
    then Some (ErrElementMismatch i x1 x2)
    else equal_from v1' v2' (i + 1) threshold
  | _, _ => None
  end.

(** [func IsEqualVectors(v1, v2 *Vector, threshold float64) error] *)
Definition IsEqualVectors (v1 v2 : Vector) (threshold : float) : option error :=
  if negb (len v1 =? len v2) then Some (ErrVectorLength (len v1) (len v2))
  else equal_from v1 v2 0 threshold.

(** The loop [for idx, i := range v] of [GetVectorMaxIdx], over [v[idx:]]. *)
Fixpoint max_from (v : Vector) (idx : Z) (maxVal : float) (r : Z) : Z :=
  match v with
  | [] => r
  | i :: v' =>
    if (maxVal <? i)%float then max_from v' (idx + 1) i idx
    else max_from v' (idx + 1) maxVal r
  end.

(** [func GetVectorMaxIdx(v *Vector) (int, error)] *)
Definition GetVectorMaxIdx (v : Vector) : Z * option error :=
  if len v =? 0 then (-1, Some ErrEmptyVector)
  else (max_from v 0 math.NegInf 0, None).

(** The loop of [IsEqualMatrices] over the rows from index [i] on. *)
Fixpoint equal_rows_from (rows1 rows2 : list Vector) (i : Z) (threshold : float)
  : option error :=
  match rows1, rows2 with
  | v1 :: rows1', v2 :: rows2' =>
    match IsEqualVectors v1 v2 threshold with
    | Some err => Some (ErrAtIndex i err)
    | None => equal_rows_from rows1' rows2' (i + 1) threshold
    end
  | _, _ => None
  end.

(** [func IsEqualMatrices(m1, m2 *Matrix, threshold float64) error] *)
Definition IsEqualMatrices (m1 m2 : Matrix) (threshold : float) : option error :=
  if negb (len (Vectors m1) =? len (Vectors m2))
  then Some (ErrRowCount (len (Vectors m1)) (len (Vectors m2)))
  else equal_rows_from (Vectors m1) (Vectors m2) 0 threshold.

Section RMSE.

(** [math.Pow]. *)
Variable Pow : float -> float -> float.

(** The loop [for i := range v1] of [GetVectorRMSE]. *)
Fixpoint square_sum_from (v1 v2 : Vector) (sum : float) : float :=
  match v1, v2 with
  | x1 :: v1', x2 :: v2' => square_sum_from v1' v2' (sum + Pow (x1 - x2) 2)%float
  | _, _ => sum
  end.

(** [func GetVectorRMSE(v1, v2 *Vector) (float64, error)] *)
Definition GetVectorRMSE (v1 v2 : Vector) : float * option error :=
  if negb (len v1 =? len v2) then (0%float, Some (ErrVectorLength (len v1) (len v2)))
  else
    let sum := square_sum_from v1 v2 0%float in
    (math.Sqrt (sum / math.float64_of_int (len v1)), None).

(** The loop [for i := range m1.Vectors] of [GetMatrixRMSE]: the sum of the
    rows' errors, or the first failure. *)
Fixpoint rmse_sum_from (rows1 rows2 : list Vector) (i : Z) (sum : float)
  : float + error :=
  match rows1, rows2 with
  | v1 :: rows1', v2 :: rows2' =>
    match GetVectorRMSE v1 v2 with
    | (_, Some err) => inr (ErrAtIndex i err)
    | (rmse, None) => rmse_sum_from rows1' rows2' (i + 1) (sum + rmse)%float
    end
  | _, _ => inl sum
  end.

(** [func GetMatrixRMSE(m1, m2 *Matrix) (float64, error)] *)
Definition GetMatrixRMSE (m1 m2 : Matrix) : float * option error :=
  if negb (len (Vectors m1) =? len (Vectors m2))
  then (0%float, Some (ErrRowCount (len (Vectors m1)) (len (Vectors m2))))
  else
    match rmse_sum_from (Vectors m1) (Vectors m2) 0 0%float with
    | inr err => (0%float, Some err)
    | inl sum => ((sum / math.float64_of_int (len (Vectors m1)))%float, None)
    end.

End RMSE.

(** ** Instances used in the worked examples *)

(** A file system that holds one file, readable to its end. *)
Definition single_file (name contents : string) : os.FileSystem :=
  fun path =>
    if String.eqb path name
    then inl {| os.contents := contents; os.read_error := None |}
    else inr (io_failure "no such file or directory").

(** A stand-in for [math.Pow] in examples where every exponent is [2]. *)
Definition square_pow (x y : float) : float := (x * x)%float.

(** A line break, as a string. *)
Definition nl : string := String newline EmptyString.

(** ** Vocabulary of the statements *)

(** [s] contains a line break. *)
Fixpoint has_newline (s : string) : bool :=
  match s with
  | EmptyString => false
  | String c s' => Ascii.eqb c newline || has_newline s'
  end.

(** The text made of the given lines, each followed by a line break. *)
Fixpoint join_lines (lines : list string) : string :=
  match lines with
  | [] => EmptyString
  | l :: lines' => (l ++ nl ++ join_lines lines')%string
  end.

(** [x != 0] on [float64]: IEEE-754 inequality, so that both zeros are
    equal to [0] and a NaN is different from it. *)
Definition nonzero (x : float) : bool := negb (x =? 0)%float.

(** The entry of a row's sparse vector at index [j]: the value at that
    position of the dense row when there is one and it is not zero. *)
Definition sparse_entry (row : list float) (j : Z) : option float :=
  if j <? 0 then None
  else
    match row !! Z.to_nat j with
    | Some x => if nonzero x then Some x else None
    | None => None
    end.

(** The element at index [r] of [v] is greater than or equal to every
    element of [v]: index [r] holds the maximum of [v]. *)
Definition holds_maximum (v : Vector) (r : Z) : Prop :=
  0 <= r /\
  exists m, v !! Z.to_nat r = Some m /\ forall x, x ∈ v -> (x <=? m)%float = true.

(** [r] is the smallest index that holds the maximum of [v]. *)
Definition first_maximum (v : Vector) (r : Z) : Prop :=
  holds_maximum v r /\ forall j, 0 <= j < r -> ~ holds_maximum v j.

(** Some element of [v] is a NaN. *)
Definition has_NaN (v : Vector) : bool := existsb math.IsNaN v.

(** The sum of [xs], added up from left to right, divided by their number. *)
Definition arithmetic_mean (xs : list float) : float :=
  (fold_left (fun sum x => sum + x) xs 0 / math.float64_of_int (len xs))%float.

(** Two matrices have as many rows, and rows of the same index have the
    same length. *)
Definition same_shape (m1 m2 : Matrix) : Prop :=
  Forall2 (fun v1 v2 : Vector => length v1 = length v2) (Vectors m1) (Vectors m2).

(** The width of the row that the dense reader makes of the line [l]: the
    number of values its fields convert to, when [l] is a line (it holds no
    line break), is not blank, and every field of it converts. *)
Definition row_width (ParseFloat : string -> float * option strconv.NumError)
  (delimiter : string) (defaultVal : float) (l : string) : option nat :=
  if has_newline l || is_empty (strings.TrimSpace l) then None
  else
    match csv_fields ParseFloat defaultVal
                     (strings.Split (strings.TrimSpace l) delimiter) [] with
    | inl vec => Some (length vec)
    | inr _ => None
    end.

(** The number that the decimal digits of [s] denote after the digits that
    gave [acc]; [None] when [s] holds another character. *)
Fixpoint digits_value (s : string) (acc : Z) : option Z :=
  match s with
  | EmptyString => Some acc
  | String c s' =>
    if strconv.is_digit c then digits_value s' (acc * 10 + strconv.digit_value c)
    else None
  end.

(** The value of [s] when [s] is a non-empty string of decimal digits. *)
Definition decimal_value (s : string) : option Z :=
  if is_empty s then None else digits_value s 0.

(** [s] contains a colon. *)
Fixpoint has_colon (s : string) : bool :=
  match s with
  | EmptyString => false
  | String c s' => Ascii.eqb ":" c || has_colon s'
  end.

(** The entry that a token [<index>:<value>] of a sparse line denotes. *)
Definition sparse_pair (ParseFloat : string -> float * option strconv.NumError)
  (token : string) : option (Z * float) :=
  if is_empty token then None
  else
    match strings.Split token ":" with
    | [index; value] =>
      match strconv.ParseUint index 32, ParseFloat value with
      | (i, None), (v, None) => Some (i, v)
      | _, _ => None
      end
    | _ => None
    end.

(** The map that stores the entries, a later one over an earlier one of
    the same index. *)
Definition sparse_of_entries (entries : list (Z * float)) : SparseVector :=
  fold_left (fun vec e => <[fst e := snd e]> vec) entries ∅.

(** The row that the line [l] of a sparse file denotes: [l] is a line, is
    not blank, and splits on single spaces into a label and at least one
    token; the row holds one entry per token, and nothing of the label. *)
Definition sparse_row (ParseFloat : string -> float * option strconv.NumError)
  (l : string) : option SparseVector :=
  if has_newline l || is_empty (strings.TrimSpace l) then None
  else
    match strings.Split (strings.TrimSpace l) " " with
    | label :: token :: tokens =>
      match mapM (sparse_pair ParseFloat) (token :: tokens) with
      | Some entries => Some (sparse_of_entries entries)
      | None => None
      end
    | _ => None
    end.

(** A file system whose every file delivers a first line ["1"] and the
    text ["2"], and then fails. *)
Definition failing_file : os.FileSystem :=
  fun _ =>
    inl {| os.contents := "1" ++ nl ++ "2";
           os.read_error := Some (io_failure "input/output error") |}.

(** ** Invariants of the loops *)

(** What the loop of [GetVectorMaxIdx] has established after the elements
    [p]: either nothing exceeded negative infinity yet and [r] is still [0],
    or [maxVal] is the element at [r], every element seen is at most
    [maxVal], and every element before [r] is smaller. *)
Definition max_invariant (p : Vector) (maxVal : float) (r : Z) : Prop :=
  math.IsNaN maxVal = false /\
  (forall x, x ∈ p -> (x <=? maxVal)%float = true) /\
  ((r = 0 /\ maxVal = math.NegInf) \/
   (0 <= r /\ p !! Z.to_nat r = Some maxVal /\
    forall j y, 0 <= j < r -> p !! Z.to_nat j = Some y -> (y <? maxVal)%float = true)).

(** What the loop of [ReadCSVFileToDenseMatrix] maintains: [colDim] is [-1]
    only while no row is stored, and every stored row has [colDim] values. *)
Definition csv_width_invariant (st : csv_state) : Prop :=
  (st_colDim st = -1 -> Vectors (st_matrix st) = []) /\
  (forall v : Vector, v ∈ Vectors (st_matrix st) -> len v = st_colDim st).

(** ** Proof automation

    Case analysis on the order of [spec_float], the specification of
    binary64 that [PrimFloat] is axiomatised against. *)

Ltac sf_compare_cases :=
  repeat match goal with
         | |- context [Z.compare ?a ?b] => destruct (Z.compare_spec a b)
         | H : context [Z.compare ?a ?b] |- _ => destruct (Z.compare_spec a b)
         end;
  change PosDef.Pos.compare_cont with Pos.compare_cont in *;
  repeat match goal with
         | |- context [Pos.compare_cont Eq ?a ?b] =>
           change (Pos.compare_cont Eq a b) with (Pos.compare a b)
         | H : context [Pos.compare_cont Eq ?a ?b] |- _ =>
           change (Pos.compare_cont Eq a b) with (Pos.compare a b) in H
         end;
  repeat match goal with
         | |- context [Pos.compare ?a ?b] => destruct (Pos.compare_spec a b)
         | H : context [Pos.compare ?a ?b] |- _ => destruct (Pos.compare_spec a b)
         end;
  simpl in *; subst; try reflexivity; try discriminate; try lia.

Ltac sf_order :=
  unfold SFleb, SFltb, SFeqb, SFcompare;
  repeat match goal with
         | x : spec_float |- _ => destruct x as [[]|[]| |[] ? ?]
         end;
  intros; simpl in *; try reflexivity; try discriminate; try congruence;
  sf_compare_cases.


(** ** The writer *)

Section Writing.

(** The state of a file open for writing. *)
Variable File : Type.

(** [os.Create(fileName)]: the file, created or truncated, or the error. *)
Variable Create : string -> File + error.

(** [fmt.Fprintln(f, i)] for a [float64] [i]: the file after the call and
    the error of the write. *)
Variable Fprintln : File -> float -> File * option error.

(** The loop [for _, i := range *v] of [WriteMatrixToFile]: the file after
    the writes and the error that made the function return. *)
Fixpoint write_elements (f : File) (v : Vector) : File * option error :=
  match v with
  | [] => (f, None)
  | i :: v' =>
    match Fprintln f i with
    | (f', Some err) => (f', Some err)
    | (f', None) => write_elements f' v'
    end
  end.

(** The loop [for _, v := range m.Vectors] of [WriteMatrixToFile]. *)
Fixpoint write_rows (f : File) (rows : list Vector) : File * option error :=
  match rows with
  | [] => (f, None)
  | v :: rows' =>
    match write_elements f v with
    | (f', Some err) => (f', Some err)
    | (f', None) => write_rows f' rows'
    end
  end.

(** [func WriteMatrixToFile(m *Matrix, fileName string) error], with the
    file as the call leaves it when it could be created.  The deferred
    [f.Close()] has no part in the result: its error is dropped. *)
Definition WriteMatrixToFile (m : Matrix) (fileName : string)
  : option File * option error :=
  match Create fileName with
  | inr err => (None, Some err)
  | inl f =>
    let '(f', err) := write_rows f (Vectors m) in
    (Some f', err)
  end.

End Writing.

(** A file of text open for writing is the text written so far;
    [os.Create] starts with none, and [fmt.Fprintln] adds the operand in
    its default format, which [FormatFloat] stands for, and a line break. *)
Definition text_Create (fileName : string) : string + error := inl EmptyString.

Definition text_Fprintln (FormatFloat : float -> string) (f : string) (i : float)
  : string * option error :=
  ((f ++ FormatFloat i ++ nl)%string, None).

(** ** Instances used in the further examples *)

(** A stand-in for the default format of [float64] in examples: the text
    that a table gives the number. *)
Definition format_table (table : list (float * string)) (x : float) : string :=
  match List.find (fun entry => (fst entry =? x)%float) table with
  | Some entry => snd entry
  | None => "NaN"
  end.

(** A file that has room for [n] more lines and fails to take another
    one; a line is the number written. *)
Definition bounded_Fprintln (f : nat * list float) (i : float)
  : (nat * list float) * option error :=
  match fst f with
  | O => (f, Some (io_failure "no space left on device"))
  | S n => ((n, snd f ++ [i]), None)
  end.

(** ** Vocabulary of the further properties *)

(** The test of [IsEqualVectors] on a pair of elements: the distance of
    [x1] and [x2] is greater than the threshold. *)
Definition exceeds (threshold x1 x2 : float) : bool :=
  (threshold <? math.Abs (x1 - x2))%float.

(** What the loop of [GetVectorMaxIdx] has established after the elements
    [p] when some of them may be NaN: [maxVal] is no NaN and is at least
    every element seen that is no NaN; and either nothing exceeded negative
    infinity yet and [r] is still [0], or [maxVal] exceeds negative infinity
    and is the element at [r], and every element before [r] is a NaN or is
    smaller. *)
Definition max_invariant_NaN (p : Vector) (maxVal : float) (r : Z) : Prop :=
  math.IsNaN maxVal = false /\
  (forall x, x ∈ p -> math.IsNaN x = false -> (x <=? maxVal)%float = true) /\
  ((r = 0 /\ maxVal = math.NegInf) \/
   (0 <= r /\ p !! Z.to_nat r = Some maxVal /\
    (math.NegInf <? maxVal)%float = true /\
    forall j y, 0 <= j < r -> p !! Z.to_nat j = Some y ->
                math.IsNaN y = true \/ (y <? maxVal)%float = true)).

(** The value that a list of entries gives the index [k]: that of the last
    entry of index [k]. *)
Definition entry_at (entries : list (Z * float)) (k : Z) : option float :=
  snd <$> last (List.filter (fun e => fst e =? k) entries).

(** A carriage return, the byte before the line break in a file with the
    line ends of DOS. *)
Definition carriage_return : ascii := ascii_of_N 13.

(** A file system that holds one file whose reading fails with [e] once
    its contents are delivered. *)
Definition broken_file (name contents : string) (e : error) : os.FileSystem :=
  fun path =>
    if String.eqb path name
    then inl {| os.contents := contents; os.read_error := Some e |}
    else inr (io_failure "no such file or directory").

(** The number of bytes of [s] equal to [c]. *)
Fixpoint count_byte (c : ascii) (s : string) : nat :=
  match s with
  | EmptyString => 0%nat
  | String x s' => ((if Ascii.eqb c x then 1 else 0) + count_byte c s')%nat
  end.

(** The value that the dense reader gives a field: the default value for
    an empty field, and for any other the number it converts to. *)
Definition field_value (ParseFloat : string -> float * option strconv.NumError)
  (defaultVal : float) (token : string) : option float :=
  if is_empty token then Some defaultVal
  else
    match ParseFloat token with
    | (v, None) => Some v
    | (_, Some _) => None
    end.

(** The row that the line [l] of a dense file denotes: [l] is a line, is
    not blank, and every field of it has a value. *)
Definition dense_row (ParseFloat : string -> float * option strconv.NumError)
  (delimiter : string) (defaultVal : float) (l : string) : option Vector :=
  if has_newline l || is_empty (strings.TrimSpace l) then None
  else mapM (field_value ParseFloat defaultVal)
            (strings.Split (strings.TrimSpace l) delimiter).

(** ** Errors of the readers *)

(** The errors that the sparse reader makes of a line. *)
Definition sparse_format_error (e : error) : bool :=
  match e with
  | ErrTooFewColumns | ErrEmptyToken | ErrWrongFormat _
  | ErrParseInt _ _ | ErrParseFloat _ _ => true
  | _ => false
  end.

(** The errors that the dense reader makes of a line. *)
Definition dense_format_error (e : error) : bool :=
  match e with
  | ErrConvertFloat _ _ | ErrRowDimension _ _ => true
  | _ => false
  end.

(** The error of a failed read of the file [file]: the error that ended
    the delivery of the file, which is not the end of the file, or an error
    of the format. *)
Definition read_failure (format_error : error -> bool) (file : os.File) (e : error)
  : Prop :=
  (os.read_error file = Some e /\ is_EOF e = false) \/ format_error e = true.

(** ** Signs of [float64] *)

(** [x] is a NaN, a zero, or has the sign of the positive numbers. *)
Definition SF_not_negative (x : spec_float) : Prop :=
  match x with
  | S754_infinity true | S754_finite true _ _ => False
  | _ => True
  end.

(** [x] is a NaN or has the sign of the positive numbers, zero included. *)
Definition SF_plus_sign (x : spec_float) : Prop :=
  match x with
  | S754_zero true | S754_infinity true | S754_finite true _ _ => False
  | _ => True
  end.


(** * Properties *)

(** ** Strings and lines *)

Arguments unicode.ascii_space : simpl never.
Arguments unicode.space2 : simpl never.
Arguments unicode.space3 : simpl never.

Lemma srev_append_app (a b acc : string) :
  srev_append (a ++ b)%string acc = srev_append b (srev_append a acc).
Proof.
  revert acc; induction a as [|c a IH]; intros acc; simpl; [reflexivity|].
  apply IH.
Qed.

Lemma space2_newline c : unicode.space2 c newline = false.
Proof.
  unfold unicode.space2. change (byte_of newline) with 10%N.
  cbn. apply andb_false_r.
Qed.

Lemma space3_newline c0 c1 : unicode.space3 c0 c1 newline = false.
Proof.
  unfold unicode.space3. change (byte_of newline) with 10%N. cbn.
  rewrite !andb_false_r. reflexivity.
Qed.

Lemma TrimLeftSpace_cons (c0 : ascii) (t1 : string) :
  strings.TrimLeftSpace (String c0 t1) =
  if unicode.ascii_space c0 then strings.TrimLeftSpace t1 else
  match t1 with
  | EmptyString => String c0 t1
  | String c1 t2 =>
    if unicode.space2 c0 c1 then strings.TrimLeftSpace t2 else
    match t2 with
    | EmptyString => String c0 t1
    | String c2 t3 =>
      if unicode.space3 c0 c1 c2 then strings.TrimLeftSpace t3 else String c0 t1
    end
  end.
Proof. destruct t1 as [|c1 [|c2 t3]]; reflexivity. Qed.

Lemma TrimLeftSpace_app_nl (s : string) :
  strings.TrimLeftSpace (s ++ nl) =
  if is_empty (strings.TrimLeftSpace s) then EmptyString
  else (strings.TrimLeftSpace s ++ nl)%string.
Proof.
  remember (slen s) as n eqn:Hn.
  revert s Hn.
  induction n as [n IH] using lt_wf_ind; intros s Hn.
  assert (IH' : forall s' : string, (slen s' < n)%nat ->
            strings.TrimLeftSpace (s' ++ nl) =
            if is_empty (strings.TrimLeftSpace s') then EmptyString
            else (strings.TrimLeftSpace s' ++ nl)%string)
    by (intros s' Hs'; exact (IH _ Hs' s' eq_refl)).
  clear IH.
  destruct s as [|c0 t1]; [reflexivity|].
  change (String c0 t1 ++ nl)%string with (String c0 (t1 ++ nl)).
  rewrite (TrimLeftSpace_cons c0 t1), (TrimLeftSpace_cons c0 (t1 ++ nl)).
  destruct (unicode.ascii_space c0) eqn:E0;
    [apply IH'; subst n; unfold slen; simpl; lia|].
  destruct t1 as [|c1 t2].
  { change (EmptyString ++ nl)%string with (String newline EmptyString); cbv beta iota.
    rewrite space2_newline. reflexivity. }
  change (String c1 t2 ++ nl)%string with (String c1 (t2 ++ nl)); cbv beta iota.
  destruct (unicode.space2 c0 c1) eqn:E1;
    [apply IH'; subst n; unfold slen; simpl; lia|].
  destruct t2 as [|c2 t3].
  { change (EmptyString ++ nl)%string with (String newline EmptyString); cbv beta iota.
    rewrite space3_newline. reflexivity. }
  change (String c2 t3 ++ nl)%string with (String c2 (t3 ++ nl)); cbv beta iota.
  destruct (unicode.space3 c0 c1 c2) eqn:E2; [|reflexivity].
  apply IH'; subst n; unfold slen; simpl; lia.
Qed.

Lemma TrimRightSpace_app_nl (s : string) :
  strings.TrimRightSpace (s ++ nl) = strings.TrimRightSpace s.
Proof.
  unfold strings.TrimRightSpace, srev. rewrite srev_append_app. reflexivity.
Qed.

Lemma TrimSpace_app_nl (s : string) :
  strings.TrimSpace (s ++ nl) = strings.TrimSpace s.
Proof.
  unfold strings.TrimSpace. rewrite TrimLeftSpace_app_nl.
  destruct (strings.TrimLeftSpace s) eqn:E; [reflexivity|].
  simpl is_empty. cbv iota. apply TrimRightSpace_app_nl.
Qed.

Lemma sapp_nil_l (b : string) : (EmptyString ++ b)%string = b.
Proof. reflexivity. Qed.

Lemma sapp_cons (x : ascii) (a b : string) :
  (String x a ++ b)%string = String x (a ++ b).
Proof. reflexivity. Qed.

Lemma sapp_assoc (a b c : string) : ((a ++ b) ++ c = a ++ (b ++ c))%string.
Proof.
  induction a as [|x a IH]; [reflexivity|]. rewrite !sapp_cons. now rewrite IH.
Qed.

Lemma sapp_nil_r (a : string) : (a ++ EmptyString)%string = a.
Proof.
  induction a as [|x a IH]; [reflexivity|]. rewrite sapp_cons. now rewrite IH.
Qed.

Lemma slen_app (a b : string) : slen (a ++ b) = (slen a + slen b)%nat.
Proof.
  unfold slen. induction a as [|x a IH]; [reflexivity|].
  rewrite sapp_cons. simpl. now rewrite IH.
Qed.

Lemma cut_shorter (s line rest : string) :
  bufio.cut newline s = Some (line, rest) -> (slen rest < slen s)%nat.
Proof.
  revert line rest; induction s as [|c s IH]; simpl; intros line rest Hs; [discriminate|].
  destruct (Ascii.eqb c newline).
  - inversion Hs; subst. unfold slen; simpl; lia.
  - destruct (bufio.cut newline s) as [[l r]|] eqn:E; [|discriminate].
    inversion Hs; subst. specialize (IH _ _ eq_refl). unfold slen in *; simpl; lia.
Qed.

Lemma cut_app_newline (l rest : string) :
  has_newline l = false ->
  bufio.cut newline (l ++ String newline rest) = Some ((l ++ nl)%string, rest).
Proof.
  induction l as [|c l IH]; intros Hl.
  - rewrite sapp_nil_l. simpl. change (Ascii.eqb newline newline) with true. reflexivity.
  - simpl in Hl. apply orb_false_iff in Hl as [Hc Hl].
    rewrite !sapp_cons. simpl. rewrite Hc, (IH Hl). reflexivity.
Qed.

Lemma cut_no_newline (s : string) :
  has_newline s = false -> bufio.cut newline s = None.
Proof.
  induction s as [|c s IH]; simpl; intros Hs; [reflexivity|].
  apply orb_false_iff in Hs as [Hc Hs]. rewrite Hc, (IH Hs). reflexivity.
Qed.

Lemma cut_some_app (s x line rest : string) :
  bufio.cut newline s = Some (line, rest) ->
  bufio.cut newline (s ++ x) = Some (line, (rest ++ x)%string).
Proof.
  revert line rest; induction s as [|c s IH]; simpl; intros line rest Hs; [discriminate|].
  destruct (Ascii.eqb c newline).
  - inversion Hs; subst. reflexivity.
  - destruct (bufio.cut newline s) as [[l r]|] eqn:E; [|discriminate].
    inversion Hs; subst. rewrite (IH _ _ eq_refl). reflexivity.
Qed.

Lemma cut_none_no_newline (s : string) :
  bufio.cut newline s = None -> has_newline s = false.
Proof.
  induction s as [|c s IH]; simpl; intros Hs; [reflexivity|].
  destruct (Ascii.eqb c newline); [discriminate|].
  destruct (bufio.cut newline s) as [[l r]|]; [discriminate|]. now apply IH.
Qed.

Lemma has_newline_app (a b : string) :
  has_newline (a ++ b) = has_newline a || has_newline b.
Proof.
  induction a as [|c a IH]; [reflexivity|].
  rewrite sapp_cons. simpl. rewrite IH. apply orb_assoc.
Qed.

(** ** The reader loops, one iteration at a time *)

Lemma libsvm_loop_step ParseFloat reader sparseMatrix :
  libsvm_loop ParseFloat reader sparseMatrix =
  match libsvm_step ParseFloat reader sparseMatrix with
  | Return r => r
  | Break (_, sparseMatrix') => (sparseMatrix', None)
  | Continue (reader', sparseMatrix') => libsvm_loop ParseFloat reader' sparseMatrix'
  end.
Proof.
  funelim (libsvm_loop ParseFloat reader sparseMatrix);
    match goal with
    | H : libsvm_step _ _ _ = _ |- _ => rewrite H; reflexivity
    end.
Qed.

Lemma csv_loop_step ParseFloat delimiter defaultVal st :
  csv_loop ParseFloat delimiter defaultVal st =
  match csv_step ParseFloat delimiter defaultVal st with
  | Return r => r
  | Break st' => (st_matrix st', None)
  | Continue st' => csv_loop ParseFloat delimiter defaultVal st'
  end.
Proof.
  funelim (csv_loop ParseFloat delimiter defaultVal st);
    match goal with
    | H : csv_step _ _ _ _ = _ |- _ => rewrite H; reflexivity
    end.
Qed.

(** Invariant reasoning for the two loops: a property [P] of the loop
    variables that every iteration preserves yields [Q] of the result as
    soon as every exit from a [P]-state establishes [Q]. *)
Lemma libsvm_loop_invariant ParseFloat
  (P : bufio.Reader -> SparseMatrix -> Prop) (Q : SparseMatrix * option error -> Prop) :
  (forall reader sparseMatrix, P reader sparseMatrix ->
     match libsvm_step ParseFloat reader sparseMatrix with
     | Return r => Q r
     | Break (_, sparseMatrix') => Q (sparseMatrix', None)
     | Continue (reader', sparseMatrix') => P reader' sparseMatrix'
     end) ->
  forall reader sparseMatrix,
    P reader sparseMatrix -> Q (libsvm_loop ParseFloat reader sparseMatrix).
Proof.
  intros Hinv reader sparseMatrix.
  funelim (libsvm_loop ParseFloat reader sparseMatrix); intros HP;
    match goal with
    | Hs : libsvm_step _ _ _ = _, Hi : forall r m, ?P r m -> _ |- _ =>
      let H' := fresh in pose proof (Hi _ _ HP) as H'; rewrite Hs in H';
      first [ exact H'
            | match goal with
              | IH : forall P Q, _ |- _ => eapply IH; [exact Hi | exact H']
              end ]
    end.
Qed.

Lemma csv_loop_invariant ParseFloat delimiter defaultVal
  (P : csv_state -> Prop) (Q : Matrix * option error -> Prop) :
  (forall st, P st ->
     match csv_step ParseFloat delimiter defaultVal st with
     | Return r => Q r
     | Break st' => Q (st_matrix st', None)
     | Continue st' => P st'
     end) ->
  forall st, P st -> Q (csv_loop ParseFloat delimiter defaultVal st).
Proof.
  intros Hinv st.
  funelim (csv_loop ParseFloat delimiter defaultVal st); intros HP;
    match goal with
    | Hs : csv_step _ _ _ _ = _, Hi : forall s, ?P s -> _ |- _ =>
      let H' := fresh in pose proof (Hi _ HP) as H'; rewrite Hs in H';
      first [ exact H'
            | match goal with
              | IH : forall P Q, _ |- _ => eapply IH; [exact Hi | exact H']
              end ]
    end.
Qed.

(** ** Failed reads return no rows *)

Lemma libsvm_step_return ParseFloat reader sparseMatrix r :
  libsvm_step ParseFloat reader sparseMatrix = Return r ->
  exists e, r = ({| SVectors := [] |}, Some e).
Proof.
  unfold libsvm_step. destruct (bufio.ReadString reader newline) as [[line err] reader'].
  destruct err as [e|].
  - destruct (negb (is_EOF e)); [|discriminate]. intros [= <-]. eauto.
  - destruct (is_empty _); [discriminate|].
    destruct (libsvm_line _ _) as [vec|e]; [discriminate|]. intros [= <-]. eauto.
Qed.

Lemma csv_step_return ParseFloat delimiter defaultVal st r :
  csv_step ParseFloat delimiter defaultVal st = Return r ->
  exists e, r = ({| Vectors := [] |}, Some e).
Proof.
  unfold csv_step, csv_row.
  destruct (bufio.ReadString (st_reader st) newline) as [[line err] reader'].
  destruct (match err with Some e => negb (is_EOF e) | None => false end) eqn:Eerr.
  - destruct err as [e|]; [|discriminate]. intros [= <-]. eauto.
  - destruct (is_empty _); [discriminate|].
    destruct (csv_fields _ _ _ _) as [vec|e]; [|intros [= <-]; eauto].
    destruct (st_colDim st =? -1); [discriminate|].
    destruct (negb _); [|discriminate]. intros [= <-]. eauto.
Qed.

Lemma libsvm_loop_failure ParseFloat reader sparseMatrix m e :
  libsvm_loop ParseFloat reader sparseMatrix = (m, Some e) -> m = {| SVectors := [] |}.
Proof.
  revert m e.
  apply (libsvm_loop_invariant ParseFloat (fun _ _ => True)
           (fun r => forall m e, r = (m, Some e) -> m = {| SVectors := [] |}));
    [|exact I].
  intros rd sm _.
  destruct (libsvm_step ParseFloat rd sm) as [[rd' sm']|[rd' sm']|r] eqn:E; [exact I|..].
  - intros m e [=].
  - apply libsvm_step_return in E as [e' ->]. intros m e [= <- _]. reflexivity.
Qed.

Lemma csv_loop_failure ParseFloat delimiter defaultVal st m e :
  csv_loop ParseFloat delimiter defaultVal st = (m, Some e) -> m = {| Vectors := [] |}.
Proof.
  revert m e.
  apply (csv_loop_invariant ParseFloat delimiter defaultVal (fun _ => True)
           (fun r => forall m e, r = (m, Some e) -> m = {| Vectors := [] |}));
    [|exact I].
  intros st' _.
  destruct (csv_step ParseFloat delimiter defaultVal st') as [st''|st''|r] eqn:E; [exact I|..].
  - intros m e [=].
  - apply csv_step_return in E as [e' ->]. intros m e [= <- _]. reflexivity.
Qed.

(** C7.  Whenever [ReadLibsvmFileToSparseMatrix] returns an error, the
    matrix it returns is the empty [SparseMatrix{}], and whenever
    [ReadCSVFileToDenseMatrix] returns an error, the matrix it returns is
    the empty [Matrix{}]: whatever the file system answers, whatever the
    file holds and however its reading ends, the rows parsed before a
    failure are never returned. *)
Theorem readers_return_no_rows_on_failure
  (ParseFloat : string -> float * option strconv.NumError)
  (fs : os.FileSystem) (fileName delimiter : string) (defaultVal : float) :
  (forall m e,
     ReadLibsvmFileToSparseMatrix ParseFloat fs fileName = (m, Some e) ->
     m = {| SVectors := [] |}) /\
  (forall m e,
     ReadCSVFileToDenseMatrix ParseFloat fs fileName delimiter defaultVal = (m, Some e) ->
     m = {| Vectors := [] |}).
Proof.
  split; intros m e.
  - unfold ReadLibsvmFileToSparseMatrix.
    destruct (os.Open fs fileName) as [file|err].
    + apply libsvm_loop_failure.
    + intros [= <- _]. reflexivity.
  - unfold ReadCSVFileToDenseMatrix.
    destruct (os.Open fs fileName) as [file|err].
    + apply csv_loop_failure.
    + intros [= <- _]. reflexivity.
Qed.

(** ** Dense rows to sparse vectors and back *)

Lemma sparse_of_row_lookup (row : list float) (j : Z) (vec : SparseVector) (k : Z) :
  sparse_of_row row j vec !! k =
  match (if k <? j then None else sparse_entry row (k - j)) with
  | Some x => Some x
  | None => vec !! k
  end.
Proof.
  revert j vec; induction row as [|x row IH]; intros j vec; simpl.
  - unfold sparse_entry. destruct (k <? j); [reflexivity|].
    destruct (k - j <? 0); [reflexivity|]. now rewrite lookup_nil.
  - rewrite IH. fold (nonzero x). unfold sparse_entry.
    destruct (Z.ltb_spec k j) as [Hlt|Hge].
    + destruct (Z.ltb_spec k (j + 1)); [|lia].
      destruct (nonzero x); [|reflexivity]. rewrite lookup_insert_ne by lia. reflexivity.
    + destruct (Z.ltb_spec (k - j) 0); [lia|].
      destruct (Z.ltb_spec k (j + 1)) as [Hk|Hk].
      * assert (k = j) as -> by lia. rewrite Z.sub_diag. simpl.
        destruct (nonzero x); [apply lookup_insert_eq|reflexivity].
      * destruct (Z.ltb_spec (k - (j + 1)) 0); [lia|].
        replace (Z.to_nat (k - j)) with (S (Z.to_nat (k - (j + 1)))) by lia. simpl.
        destruct (row !! Z.to_nat (k - (j + 1))) as [y|] eqn:Ey.
        -- destruct (nonzero y); [reflexivity|].
           destruct (nonzero x); [|reflexivity]. rewrite lookup_insert_ne by lia. reflexivity.
        -- destruct (nonzero x); [|reflexivity]. rewrite lookup_insert_ne by lia. reflexivity.
Qed.

Lemma sparse_of_row_values (row : list float) (j : Z) (vec : SparseVector) :
  (forall k, j <= k -> vec !! k = None) ->
  (map_to_list (sparse_of_row row j vec)).*2 ≡ₚ
  List.filter nonzero row ++ (map_to_list vec).*2.
Proof.
  revert j vec; induction row as [|x row IH]; intros j vec Hfresh; simpl.
  - reflexivity.
  - fold (nonzero x). destruct (nonzero x) eqn:Ex.
    + rewrite IH.
      * rewrite map_to_list_insert by (apply Hfresh; lia).
        simpl. rewrite <- Permutation_middle. reflexivity.
      * intros k Hk. rewrite lookup_insert_ne by lia. apply Hfresh; lia.
    + apply IH. intros k Hk. apply Hfresh; lia.
Qed.

Lemma sparse_of_rows_spec (data : list (list float)) (sm : SparseMatrix) :
  SVectors (sparse_of_rows data sm) =
  SVectors sm ++ map (fun row => sparse_of_row row 0 ∅) data.
Proof.
  revert sm; induction data as [|row data IH]; intros sm; simpl.
  - now rewrite app_nil_r.
  - rewrite IH. simpl. now rewrite <- app_assoc.
Qed.

Lemma range_values (kvs : list (Z * float)) (acc : list float) :
  fold_left (fun result_i kv => result_i ++ [snd kv]) kvs acc = acc ++ kvs.*2.
Proof.
  revert acc; induction kvs as [|kv kvs IH]; intros acc; simpl.
  - now rewrite app_nil_r.
  - rewrite IH. now rewrite <- app_assoc.
Qed.

(** C2.  [GetSparseMatrixFromSlice] builds one sparse vector per dense row;
    the vector of a row holds, at each index, the value of the row at that
    index when that value differs from zero, and nothing at any other
    index.  Whatever order [range] visits a map in, [ToFloat64] of the
    result has as many rows as the input, and each of its rows is a
    rearrangement of the non-zero values of the corresponding input row: no
    zero is materialised. *)
Theorem sparse_from_slice_ToFloat64
  (range : SparseVector -> list (Z * float)) (data : list (list float))
  (Hrange : forall v, range v ≡ₚ map_to_list v) :
  let sparseMatrix := fst (GetSparseMatrixFromSlice data) in
  length (SVectors sparseMatrix) = length data /\
  Forall2 (fun row vec => forall j, vec !! j = sparse_entry row j)
          data (SVectors sparseMatrix) /\
  length (SparseMatrix_ToFloat64 range sparseMatrix) = length data /\
  Forall2 (fun row values => values ≡ₚ List.filter nonzero row)
          data (SparseMatrix_ToFloat64 range sparseMatrix).
Proof.
  simpl. unfold SparseMatrix_ToFloat64. rewrite sparse_of_rows_spec. simpl.
  rewrite !length_map. repeat split.
  - induction data as [|row data IH]; simpl; constructor; [|exact IH].
    intros j. rewrite sparse_of_row_lookup, lookup_empty.
    destruct (Z.ltb_spec j 0) as [Hj|Hj].
    + unfold sparse_entry. destruct (Z.ltb_spec j 0); [reflexivity|lia].
    + rewrite Z.sub_0_r. destruct (sparse_entry row j); reflexivity.
  - induction data as [|row data IH]; simpl; constructor; [|exact IH].
    rewrite range_values. simpl. rewrite (Hrange _).
    rewrite sparse_of_row_values by (intros; apply lookup_empty).
    rewrite map_to_list_empty. simpl. now rewrite app_nil_r.
Qed.

(** The hypothesis of C2 holds of the order in which [map_to_list] lists a
    map; the dense slice mixes zeros of both signs, a NaN and ordinary
    values. *)
Lemma sparse_from_slice_ToFloat64_witness :
  let data := [[0; 1.5; -0; 2]; []; [0]; [nan; 0; 3]]%float in
  let sparseMatrix := fst (GetSparseMatrixFromSlice data) in
  length (SVectors sparseMatrix) = length data /\
  Forall2 (fun row vec => forall j, vec !! j = sparse_entry row j)
          data (SVectors sparseMatrix) /\
  length (SparseMatrix_ToFloat64 map_to_list sparseMatrix) = length data /\
  Forall2 (fun row values => values ≡ₚ List.filter nonzero row)
          data (SparseMatrix_ToFloat64 map_to_list sparseMatrix).
Proof.
  exact (sparse_from_slice_ToFloat64 map_to_list
           [[0; 1.5; -0; 2]; []; [0]; [nan; 0; 3]]%float
           (fun v => Permutation_refl (map_to_list v))).
Defined.

(** C10.  [GetSparseMatrixFromSlice] returns a nil error for every input,
    the empty slice and rows of unequal lengths included. *)
Theorem GetSparseMatrixFromSlice_never_fails (data : list (list float)) :
  snd (GetSparseMatrixFromSlice data) = None.
Proof.
  unfold GetSparseMatrixFromSlice. simpl. reflexivity.
Qed.

(** ** IEEE-754 facts about [float64] *)

Lemma SFsub_diag_abs (x : spec_float) :
  SFltb (S754_zero false) (SFabs (SF64sub x x)) = false.
Proof.
  destruct x as [s|s| |s m e]; unfold SF64sub, SFsub.
  - destruct s; reflexivity.
  - destruct s; reflexivity.
  - reflexivity.
  - rewrite Z.sub_diag. reflexivity.
Qed.

Lemma float_abs_sub_diag (x : float) :
  (0 <? math.Abs (x - x))%float = false.
Proof.
  unfold math.Abs. rewrite ltb_spec, abs_spec, sub_spec.
  change (Prim2SF 0) with (S754_zero false). apply SFsub_diag_abs.
Qed.

(** ** Threshold equality *)

Lemma equal_from_diag (v : Vector) (i : Z) : equal_from v v i 0%float = None.
Proof.
  revert i; induction v as [|x v IH]; intros i; simpl; [reflexivity|].
  rewrite float_abs_sub_diag. apply IH.
Qed.

(** C8.  Comparing a vector with itself under tolerance zero never reports
    a mismatch, whatever the vector holds: for an element that is a NaN or
    an infinity the difference is a NaN, and no NaN exceeds the tolerance. *)
Theorem IsEqualVectors_reflexive (v : Vector) :
  IsEqualVectors v v 0%float = None.
Proof.
  unfold IsEqualVectors. rewrite Z.eqb_refl. simpl. apply equal_from_diag.
Qed.

(** ** The order of [float64] *)

Lemma SFleb_trans (x y z : spec_float) :
  SFleb x y = true -> SFleb y z = true -> SFleb x z = true.
Proof. sf_order. Qed.

Lemma SFleb_ltb_trans (x y z : spec_float) :
  SFleb x y = true -> SFltb y z = true -> SFltb x z = true.
Proof. sf_order. Qed.

Lemma SFltb_leb (x y : spec_float) : SFltb x y = true -> SFleb x y = true.
Proof. sf_order. Qed.

Lemma SFltb_not_leb (x y : spec_float) : SFltb x y = true -> SFleb y x = false.
Proof. sf_order. Qed.

Lemma SFnot_ltb_leb (x y : spec_float) :
  x <> S754_nan -> y <> S754_nan -> SFltb x y = false -> SFleb y x = true.
Proof. sf_order. Qed.

Lemma SFleb_refl (x : spec_float) : x <> S754_nan -> SFleb x x = true.
Proof. sf_order. Qed.

Lemma SFeqb_refl (x : spec_float) : x <> S754_nan -> SFeqb x x = true.
Proof. sf_order. Qed.

Lemma SFneg_infinity_leb (x : spec_float) :
  x <> S754_nan -> SFleb (S754_infinity true) x = true.
Proof. sf_order. Qed.

Lemma IsNaN_false (x : float) : math.IsNaN x = false -> Prim2SF x <> S754_nan.
Proof.
  unfold math.IsNaN. rewrite FloatAxioms.eqb_spec. intros H E. rewrite E in H.
  discriminate.
Qed.

Lemma float_leb_trans (x y z : float) :
  (x <=? y)%float = true -> (y <=? z)%float = true -> (x <=? z)%float = true.
Proof. rewrite !leb_spec. apply SFleb_trans. Qed.

Lemma float_leb_ltb_trans (x y z : float) :
  (x <=? y)%float = true -> (y <? z)%float = true -> (x <? z)%float = true.
Proof. rewrite leb_spec, !ltb_spec. apply SFleb_ltb_trans. Qed.

Lemma float_ltb_leb (x y : float) :
  (x <? y)%float = true -> (x <=? y)%float = true.
Proof. rewrite leb_spec, ltb_spec. apply SFltb_leb. Qed.

Lemma float_ltb_not_leb (x y : float) :
  (x <? y)%float = true -> (y <=? x)%float = false.
Proof. rewrite leb_spec, ltb_spec. apply SFltb_not_leb. Qed.

Lemma float_not_ltb_leb (x y : float) :
  math.IsNaN x = false -> math.IsNaN y = false ->
  (x <? y)%float = false -> (y <=? x)%float = true.
Proof.
  intros Hx Hy. rewrite leb_spec, ltb_spec.
  apply SFnot_ltb_leb; now apply IsNaN_false.
Qed.

Lemma float_leb_refl (x : float) : math.IsNaN x = false -> (x <=? x)%float = true.
Proof. intros Hx. rewrite leb_spec. apply SFleb_refl. now apply IsNaN_false. Qed.

Lemma float_NegInf_leb (x : float) :
  math.IsNaN x = false -> (math.NegInf <=? x)%float = true.
Proof.
  intros Hx. rewrite leb_spec.
  change (Prim2SF math.NegInf) with (S754_infinity true).
  apply SFneg_infinity_leb. now apply IsNaN_false.
Qed.

(** ** Arg-max *)

(** No element of [v] is a NaN. *)
Lemma has_NaN_false (v : Vector) :
  has_NaN v = false -> forall x, x ∈ v -> math.IsNaN x = false.
Proof.
  unfold has_NaN. induction v as [|y v IH]; simpl; intros H x Hx.
  - inversion Hx.
  - apply orb_false_iff in H as [Hy Hv].
    apply elem_of_cons in Hx as [->|Hx]; [exact Hy|now apply IH].
Qed.

Lemma max_from_invariant (rest p : Vector) (maxVal : float) (r : Z) :
  (forall x, x ∈ rest -> math.IsNaN x = false) ->
  max_invariant p maxVal r ->
  exists maxVal',
    max_invariant (p ++ rest) maxVal' (max_from rest (len p) maxVal r).
Proof.
  revert p maxVal r; induction rest as [|x rest IH]; intros p maxVal r Hnan Hinv.
  - exists maxVal. rewrite app_nil_r. exact Hinv.
  - assert (Hx : math.IsNaN x = false) by (apply Hnan; left).
    assert (Hrest : forall y, y ∈ rest -> math.IsNaN y = false)
      by (intros y Hy; apply Hnan; now right).
    destruct Hinv as (Hm & Hle & Hr). simpl.
    replace (len p + 1) with (len (p ++ [x]))
      by (unfold len; rewrite length_app; simpl; lia).
    replace (p ++ x :: rest) with ((p ++ [x]) ++ rest)
      by (now rewrite <- app_assoc).
    destruct (maxVal <? x)%float eqn:Hlt.
    + apply IH; [exact Hrest|].
      split; [exact Hx|]. split.
      * intros y [Hy| ->%list_elem_of_singleton]%elem_of_app.
        -- apply float_ltb_leb. eapply float_leb_ltb_trans; [apply Hle, Hy|exact Hlt].
        -- now apply float_leb_refl.
      * right. split; [unfold len; lia|]. split.
        -- unfold len. rewrite Nat2Z.id. rewrite lookup_app_r by lia.
           now rewrite Nat.sub_diag.
        -- intros j y Hj Hy. unfold len in Hj.
           rewrite lookup_app_l in Hy by lia.
           eapply float_leb_ltb_trans; [|exact Hlt].
           apply Hle. eapply list_elem_of_lookup_2; exact Hy.
    + apply IH; [exact Hrest|].
      split; [exact Hm|]. split.
      * intros y [Hy| ->%list_elem_of_singleton]%elem_of_app.
        -- now apply Hle.
        -- now apply float_not_ltb_leb.
      * destruct Hr as [Hr|(Hr0 & Hr1 & Hr2)]; [left; exact Hr|right].
        assert (Z.to_nat r < length p)%nat by (eapply lookup_lt_Some; exact Hr1).
        split; [exact Hr0|]. split.
        -- rewrite lookup_app_l by lia. exact Hr1.
        -- intros j y Hj Hy. rewrite lookup_app_l in Hy by lia. eauto.
Qed.

Lemma max_invariant_first_maximum (v : Vector) (maxVal : float) (r : Z) :
  v <> [] -> (forall x, x ∈ v -> math.IsNaN x = false) ->
  max_invariant v maxVal r -> first_maximum v r.
Proof.
  intros Hne Hnan (Hm & Hle & Hr).
  assert (Hpost : 0 <= r /\ exists m, v !! Z.to_nat r = Some m /\
            (forall x, x ∈ v -> (x <=? m)%float = true) /\
            forall j y, 0 <= j < r -> v !! Z.to_nat j = Some y ->
                        (y <? m)%float = true).
  { destruct Hr as [[-> ->]|(Hr0 & Hr1 & Hr2)].
    - destruct v as [|m v]; [congruence|].
      split; [lia|]. exists m. split; [reflexivity|]. split; [|intros; lia].
      intros x Hx. eapply float_leb_trans; [apply Hle, Hx|].
      apply float_NegInf_leb, Hnan. left.
    - split; [exact Hr0|]. exists maxVal. auto. }
  destruct Hpost as (Hr0 & m & Hm1 & Hm2 & Hm3).
  split.
  - split; [exact Hr0|]. exists m. auto.
  - intros j Hj (_ & y & Hy1 & Hy2).
    specialize (Hm3 j y Hj Hy1). apply float_ltb_not_leb in Hm3.
    rewrite Hy2 in Hm3; [discriminate|].
    eapply list_elem_of_lookup_2; exact Hm1.
Qed.

(** C5, as amended.  For the empty vector [GetVectorMaxIdx] returns the
    "empty vector" error.  For every non-empty vector that holds no NaN it
    succeeds and returns the smallest index that holds the maximum element:
    the element there is greater than or equal to every element, and no
    smaller index has that property. *)
Theorem GetVectorMaxIdx_first_maximum (v : Vector) :
  v <> [] -> has_NaN v = false ->
  GetVectorMaxIdx [] = (-1, Some ErrEmptyVector) /\
  exists r, GetVectorMaxIdx v = (r, None) /\ first_maximum v r.
Proof.
  intros Hne Hnan0. pose proof (has_NaN_false v Hnan0) as Hnan.
  split; [reflexivity|].
  unfold GetVectorMaxIdx.
  destruct (Z.eqb_spec (len v) 0) as [H0|H0].
  { destruct v; [congruence|]. unfold len in H0. simpl in H0. lia. }
  eexists. split; [reflexivity|].
  destruct (max_from_invariant v [] math.NegInf 0 Hnan) as [maxVal' Hinv].
  { split; [reflexivity|]. split; [intros x Hx; inversion Hx|]. left. auto. }
  eapply max_invariant_first_maximum; [exact Hne|exact Hnan|exact Hinv].
Qed.

(** The hypotheses of C5 hold of the vector of the specification's example,
    and there the index is [1], the first of the two maxima. *)
Lemma GetVectorMaxIdx_first_maximum_witness :
  GetVectorMaxIdx [] = (-1, Some ErrEmptyVector) /\
  exists r, GetVectorMaxIdx [3; 5; 5; 1]%float = (r, None) /\
            first_maximum [3; 5; 5; 1]%float r.
Proof.
  apply (GetVectorMaxIdx_first_maximum [3; 5; 5; 1]%float).
  - discriminate.
  - reflexivity.
Defined.

Example GetVectorMaxIdx_ties : GetVectorMaxIdx [3; 5; 5; 1]%float = (1, None).
Proof. reflexivity. Qed.

(** C5, as stated, fails on a vector that holds a NaN: for [[NaN; -Inf]]
    no comparison of the loop succeeds, the index returned is [0], and the
    element there is the NaN, which is not greater than or equal to the
    other element. *)
Lemma GetVectorMaxIdx_NaN_counterexample :
  GetVectorMaxIdx [nan; neg_infinity]%float = (0, None) /\
  ~ holds_maximum [nan; neg_infinity]%float 0.
Proof.
  split; [reflexivity|].
  intros (_ & m & Hm & Hle). simpl in Hm. injection Hm as <-.
  specialize (Hle neg_infinity). rewrite leb_spec in Hle.
  assert (H : SFleb (Prim2SF neg_infinity) (Prim2SF nan) = false) by reflexivity.
  rewrite H in Hle. specialize (Hle ltac:(right; left)). discriminate.
Qed.

(** ** Root-mean-square error *)

Lemma GetVectorRMSE_same_length Pow (v1 v2 : Vector) :
  length v1 = length v2 -> snd (GetVectorRMSE Pow v1 v2) = None.
Proof.
  intros H. unfold GetVectorRMSE, len. rewrite H, Z.eqb_refl. reflexivity.
Qed.

Lemma GetVectorRMSE_error Pow (v1 v2 : Vector) (x : float) (e : error) :
  GetVectorRMSE Pow v1 v2 = (x, Some e) ->
  x = 0%float /\ length v1 <> length v2 /\ e = ErrVectorLength (len v1) (len v2).
Proof.
  unfold GetVectorRMSE.
  destruct (Z.eqb_spec (len v1) (len v2)) as [H|H]; simpl; [discriminate|].
  intros [= <- <-]. repeat split. unfold len in H. lia.
Qed.

Lemma rmse_sum_from_same_shape Pow (rows1 rows2 : list Vector) (i : Z) (sum : float) :
  Forall2 (fun v1 v2 : Vector => length v1 = length v2) rows1 rows2 ->
  rmse_sum_from Pow rows1 rows2 i sum =
  inl (fold_left (fun sum x => sum + x)%float
         (zip_with (fun v1 v2 => fst (GetVectorRMSE Pow v1 v2)) rows1 rows2) sum).
Proof.
  intros H; revert i sum; induction H as [|v1 v2 rows1 rows2 Hv Hrows IH];
    intros i sum; simpl; [reflexivity|].
  pose proof (GetVectorRMSE_same_length Pow v1 v2 Hv) as Hnil.
  destruct (GetVectorRMSE Pow v1 v2) as [rmse err]. simpl in Hnil. subst err.
  apply IH.
Qed.

Lemma GetMatrixRMSE_error Pow (m1 m2 : Matrix) (x : float) (e : error) :
  GetMatrixRMSE Pow m1 m2 = (x, Some e) -> x = 0%float.
Proof.
  unfold GetMatrixRMSE.
  destruct (negb _); [now intros [= <- _]|].
  destruct (rmse_sum_from _ _ _ _ _); [discriminate|now intros [= <- _]].
Qed.

(** C6, as amended.  For matrices of the same shape [GetMatrixRMSE]
    returns, with no error, the arithmetic mean of the values that
    [GetVectorRMSE] returns for the pairs of rows.  Neither function turns
    an error into a NaN: [GetVectorRMSE] reports an error only for vectors
    of different lengths, and the number either function returns beside an
    error is [0]. *)
Theorem GetMatrixRMSE_mean (Pow : float -> float -> float) (m1 m2 : Matrix) :
  same_shape m1 m2 ->
  GetMatrixRMSE Pow m1 m2 =
    (arithmetic_mean
       (zip_with (fun v1 v2 => fst (GetVectorRMSE Pow v1 v2)) (Vectors m1) (Vectors m2)),
     None) /\
  (forall v1 v2 x e,
     GetVectorRMSE Pow v1 v2 = (x, Some e) -> x = 0%float /\ length v1 <> length v2) /\
  (forall m1' m2' x e, GetMatrixRMSE Pow m1' m2' = (x, Some e) -> x = 0%float).
Proof.
  intros Hshape. split; [|split].
  - unfold GetMatrixRMSE, arithmetic_mean, len.
    rewrite (Forall2_length _ _ _ Hshape), Z.eqb_refl. simpl.
    rewrite (rmse_sum_from_same_shape Pow _ _ 0 0%float Hshape).
    rewrite length_zip_with, (Forall2_length _ _ _ Hshape), Nat.min_id.
    reflexivity.
  - intros v1 v2 x e H. apply GetVectorRMSE_error in H. tauto.
  - intros m1' m2' x e. apply GetMatrixRMSE_error.
Qed.

(** The hypothesis of C6 holds of two matrices of two rows each, whose
    first rows differ in one element. *)
Lemma GetMatrixRMSE_mean_witness :
  let m1 := {| Vectors := [[1; 2]; [3; 4]]%float |} in
  let m2 := {| Vectors := [[1; 4]; [3; 4]]%float |} in
  GetMatrixRMSE square_pow m1 m2 =
    (arithmetic_mean
       (zip_with (fun v1 v2 => fst (GetVectorRMSE square_pow v1 v2))
                 (Vectors m1) (Vectors m2)),
     None) /\
  (forall v1 v2 x e,
     GetVectorRMSE square_pow v1 v2 = (x, Some e) ->
     x = 0%float /\ length v1 <> length v2) /\
  (forall m1' m2' x e, GetMatrixRMSE square_pow m1' m2' = (x, Some e) -> x = 0%float).
Proof.
  apply (GetMatrixRMSE_mean square_pow
           {| Vectors := [[1; 2]; [3; 4]]%float |}
           {| Vectors := [[1; 4]; [3; 4]]%float |}).
  repeat constructor.
Defined.

(** C6, as stated, fails: a NaN is returned beside a nil error for two
    empty vectors and for two matrices without rows (the mean of nothing is
    [0/0]), and for two vectors that hold the same infinity (the difference
    of the elements is a NaN).  [math.Pow] is not called in the first two
    cases. *)
Lemma RMSE_NaN_counterexample :
  GetVectorRMSE square_pow [] [] = (nan, None) /\
  GetMatrixRMSE square_pow {| Vectors := [] |} {| Vectors := [] |} = (nan, None) /\
  GetVectorRMSE square_pow [infinity] [infinity] = (nan, None).
Proof. repeat split. Qed.

(** ** The readers, line by line *)

Lemma libsvm_loop_line ParseFloat (l rest : string) (fin : error) (sm : SparseMatrix) :
  has_newline l = false ->
  libsvm_loop ParseFloat {| bufio.unread := l ++ String newline rest; bufio.final := fin |} sm =
  if is_empty (strings.TrimSpace l) then (sm, None)
  else
    match libsvm_line ParseFloat (strings.TrimSpace l) with
    | inr e => ({| SVectors := [] |}, Some e)
    | inl vec =>
      libsvm_loop ParseFloat {| bufio.unread := rest; bufio.final := fin |}
                  {| SVectors := SVectors sm ++ [vec] |}
    end.
Proof.
  intros Hl. rewrite libsvm_loop_step. unfold libsvm_step, bufio.ReadString.
  cbn [bufio.unread bufio.final]. rewrite (cut_app_newline l rest Hl).
  rewrite TrimSpace_app_nl.
  destruct (is_empty (strings.TrimSpace l)); [reflexivity|].
  destruct (libsvm_line ParseFloat (strings.TrimSpace l)); reflexivity.
Qed.

Lemma libsvm_loop_end ParseFloat (s : string) (fin : error) (sm : SparseMatrix) :
  has_newline s = false ->
  libsvm_loop ParseFloat {| bufio.unread := s; bufio.final := fin |} sm =
  if is_EOF fin then (sm, None) else ({| SVectors := [] |}, Some fin).
Proof.
  intros Hs. rewrite libsvm_loop_step. unfold libsvm_step, bufio.ReadString.
  cbn [bufio.unread bufio.final]. rewrite (cut_no_newline s Hs).
  destruct (is_EOF fin); reflexivity.
Qed.

Lemma csv_loop_line ParseFloat delimiter defaultVal (l rest : string) (fin : error)
  (m : Matrix) (c r : Z) :
  has_newline l = false ->
  let st := {| st_reader := {| bufio.unread := l ++ String newline rest; bufio.final := fin |};
               st_matrix := m; st_colDim := c; st_row := r |} in
  csv_loop ParseFloat delimiter defaultVal st =
  if is_empty (strings.TrimSpace l) then (m, None)
  else
    match csv_row ParseFloat delimiter defaultVal (strings.TrimSpace l)
                  {| bufio.unread := rest; bufio.final := fin |} st with
    | Return res => res
    | Break st' => (st_matrix st', None)
    | Continue st' => csv_loop ParseFloat delimiter defaultVal st'
    end.
Proof.
  intros Hl st. rewrite csv_loop_step. unfold csv_step, bufio.ReadString.
  subst st. cbn [st_reader bufio.unread bufio.final].
  rewrite (cut_app_newline l rest Hl). rewrite TrimSpace_app_nl.
  destruct (is_empty (strings.TrimSpace l)); reflexivity.
Qed.

Lemma csv_loop_eof ParseFloat delimiter defaultVal (m : Matrix) (c r : Z) :
  csv_loop ParseFloat delimiter defaultVal
    {| st_reader := {| bufio.unread := EmptyString; bufio.final := io_EOF |};
       st_matrix := m; st_colDim := c; st_row := r |} = (m, None).
Proof. rewrite csv_loop_step. reflexivity. Qed.

Lemma csv_loop_last ParseFloat delimiter defaultVal (s : string) (m : Matrix) (c r : Z) :
  has_newline s = false ->
  let st := {| st_reader := {| bufio.unread := s; bufio.final := io_EOF |};
               st_matrix := m; st_colDim := c; st_row := r |} in
  csv_loop ParseFloat delimiter defaultVal st =
  if is_empty (strings.TrimSpace s) then (m, None)
  else
    match csv_row ParseFloat delimiter defaultVal (strings.TrimSpace s)
                  {| bufio.unread := EmptyString; bufio.final := io_EOF |} st with
    | Return res => res
    | Break st' => (st_matrix st', None)
    | Continue st' => csv_loop ParseFloat delimiter defaultVal st'
    end.
Proof.
  intros Hs st. rewrite csv_loop_step. unfold csv_step, bufio.ReadString.
  subst st. cbn [st_reader bufio.unread bufio.final].
  rewrite (cut_no_newline s Hs). cbn [is_EOF negb].
  destruct (is_empty (strings.TrimSpace s)); reflexivity.
Qed.

(** Every text is a first line, without a line break, followed either by
    nothing or by a line break and the rest of the text. *)
Lemma first_line (s : string) :
  (has_newline s = false) \/
  (exists l rest, s = (l ++ String newline rest)%string /\ has_newline l = false /\
                  (slen rest < slen s)%nat).
Proof.
  induction s as [|c s IH]; [left; reflexivity|].
  destruct (Ascii.eqb c newline) eqn:Ec.
  - right. exists EmptyString, s. apply Ascii.eqb_eq in Ec. subst c.
    repeat split. unfold slen; simpl; lia.
  - destruct IH as [IH|(l & rest & -> & Hl & Hlen)].
    + left. simpl. now rewrite Ec, IH.
    + right. exists (String c l), rest. repeat split.
      * simpl. now rewrite Ec, Hl.
      * unfold slen in *. simpl. lia.
Qed.

Lemma single_file_open (name contents : string) :
  os.Open (single_file name contents) name =
  inl {| os.contents := contents; os.read_error := None |}.
Proof. unfold os.Open, single_file. now rewrite String.eqb_refl. Qed.

(** ** Unterminated final lines *)

Lemma libsvm_loop_ignores_tail ParseFloat (last : string) (fin : error) :
  has_newline last = false ->
  forall (p : string) (sm : SparseMatrix),
    libsvm_loop ParseFloat {| bufio.unread := p ++ last; bufio.final := fin |} sm =
    libsvm_loop ParseFloat {| bufio.unread := p; bufio.final := fin |} sm.
Proof.
  intros Hlast p. remember (slen p) as n eqn:Hn. revert p Hn.
  induction n as [n IH] using lt_wf_ind; intros p Hn sm.
  destruct (first_line p) as [Hp|(l & rest & -> & Hl & Hlen)].
  - rewrite !libsvm_loop_end; [reflexivity|exact Hp|].
    rewrite has_newline_app, Hp, Hlast. reflexivity.
  - rewrite sapp_assoc, sapp_cons. rewrite !libsvm_loop_line by exact Hl.
    destruct (is_empty _); [reflexivity|].
    destruct (libsvm_line _ _); [|reflexivity].
    apply (IH (slen rest)); [subst n; exact Hlen|reflexivity].
Qed.

Lemma csv_loop_final_newline ParseFloat delimiter defaultVal :
  forall (s : string) (m : Matrix) (c r : Z),
    csv_loop ParseFloat delimiter defaultVal
      {| st_reader := {| bufio.unread := s; bufio.final := io_EOF |};
         st_matrix := m; st_colDim := c; st_row := r |} =
    csv_loop ParseFloat delimiter defaultVal
      {| st_reader := {| bufio.unread := s ++ nl; bufio.final := io_EOF |};
         st_matrix := m; st_colDim := c; st_row := r |}.
Proof.
  intros s. remember (slen s) as n eqn:Hn. revert s Hn.
  induction n as [n IH] using lt_wf_ind; intros s Hn m c r.
  destruct (first_line s) as [Hs|(l & rest & -> & Hl & Hlen)].
  - rewrite (csv_loop_last _ _ _ s) by exact Hs.
    unfold nl. rewrite (csv_loop_line _ _ _ s EmptyString) by exact Hs.
    reflexivity.
  - rewrite sapp_assoc, sapp_cons. rewrite !csv_loop_line by exact Hl.
    destruct (is_empty _); [reflexivity|].
    unfold csv_row. cbn [st_matrix st_colDim st_row].
    destruct (csv_fields _ _ _ _); [|reflexivity].
    destruct (c =? -1); [apply (IH (slen rest)); [subst n; exact Hlen|reflexivity]|].
    destruct (negb _); [reflexivity|].
    apply (IH (slen rest)); [subst n; exact Hlen|reflexivity].
Qed.

(** C9.  A final line that no line break ends is dropped by the sparse
    reader and read as a row by the dense reader.  For every text [p] and
    every line [last] without a line break: the sparse reader returns for
    the file [p ++ last] what it returns for [p], so that [last] adds no
    row and no error, and for the file [last] alone it returns no row and
    no error; the dense reader returns for [p ++ last] what it returns when
    a line break ends [last], and for the file [last] alone, when [last] is
    not blank and its fields convert, it returns the one row of [last]. *)
Theorem unterminated_final_line
  (ParseFloat : string -> float * option strconv.NumError)
  (fileName delimiter : string) (defaultVal : float) (p last : string) :
  has_newline last = false ->
  ReadLibsvmFileToSparseMatrix ParseFloat (single_file fileName (p ++ last)) fileName =
    ReadLibsvmFileToSparseMatrix ParseFloat (single_file fileName p) fileName /\
  ReadLibsvmFileToSparseMatrix ParseFloat (single_file fileName last) fileName =
    ({| SVectors := [] |}, None) /\
  ReadCSVFileToDenseMatrix ParseFloat (single_file fileName (p ++ last))
                           fileName delimiter defaultVal =
    ReadCSVFileToDenseMatrix ParseFloat (single_file fileName (p ++ last ++ nl))
                             fileName delimiter defaultVal /\
  (forall vec,
     is_empty (strings.TrimSpace last) = false ->
     csv_fields ParseFloat defaultVal
                (strings.Split (strings.TrimSpace last) delimiter) [] = inl vec ->
     ReadCSVFileToDenseMatrix ParseFloat (single_file fileName last)
                              fileName delimiter defaultVal =
       ({| Vectors := [vec] |}, None)).
Proof.
  intros Hlast.
  unfold ReadLibsvmFileToSparseMatrix, ReadCSVFileToDenseMatrix.
  rewrite !single_file_open. unfold bufio.NewReader. cbn [os.contents os.read_error].
  repeat split.
  - apply libsvm_loop_ignores_tail, Hlast.
  - now rewrite libsvm_loop_end.
  - rewrite <- sapp_assoc. apply csv_loop_final_newline.
  - intros vec Hblank Hvec. rewrite csv_loop_last by exact Hlast.
    rewrite Hblank. unfold csv_row. rewrite Hvec.
    cbn [st_colDim st_matrix st_row Vectors]. simpl (-1 =? -1).
    cbv iota. apply csv_loop_eof.
Qed.

(** The hypothesis of C9 holds of the second line of a file of two lines
    that both readers accept, the dense one with the delimiter [" 0:"]. *)
Lemma unterminated_final_line_witness :
  let p := ("1 0:2" ++ nl)%string in
  let last := "3 0:4" in
  ReadLibsvmFileToSparseMatrix strconv.ParseFloatDecimal (single_file "f" (p ++ last)) "f" =
    ReadLibsvmFileToSparseMatrix strconv.ParseFloatDecimal (single_file "f" p) "f" /\
  ReadLibsvmFileToSparseMatrix strconv.ParseFloatDecimal (single_file "f" last) "f" =
    ({| SVectors := [] |}, None) /\
  ReadCSVFileToDenseMatrix strconv.ParseFloatDecimal (single_file "f" (p ++ last))
                           "f" " 0:" 0%float =
    ReadCSVFileToDenseMatrix strconv.ParseFloatDecimal (single_file "f" (p ++ last ++ nl))
                             "f" " 0:" 0%float /\
  (forall vec,
     is_empty (strings.TrimSpace last) = false ->
     csv_fields strconv.ParseFloatDecimal 0%float
                (strings.Split (strings.TrimSpace last) " 0:") [] = inl vec ->
     ReadCSVFileToDenseMatrix strconv.ParseFloatDecimal (single_file "f" last)
                              "f" " 0:" 0%float =
       ({| Vectors := [vec] |}, None)).
Proof.
  apply (unterminated_final_line strconv.ParseFloatDecimal "f" " 0:" 0%float
           ("1 0:2" ++ nl)%string "3 0:4").
  reflexivity.
Defined.

(** The same file read by the two readers: the sparse reader returns the
    row of the first line only, the dense reader the rows of both lines. *)
Example readers_disagree_on_final_line :
  let file := single_file "f" ("1 0:2" ++ nl ++ "3 0:4") in
  ReadLibsvmFileToSparseMatrix strconv.ParseFloatDecimal file "f" =
    ({| SVectors := [{[0 := 2%float]}] |}, None) /\
  ReadCSVFileToDenseMatrix strconv.ParseFloatDecimal file "f" " 0:" 0%float =
    ({| Vectors := [[1; 2]; [3; 4]]%float |}, None).
Proof. split; vm_compute; reflexivity. Qed.

(** ** Row width of the dense reader *)

Lemma csv_fields_length ParseFloat defaultVal (tokens : list string) (acc vec : Vector) :
  csv_fields ParseFloat defaultVal tokens acc = inl vec ->
  length vec = (length acc + length tokens)%nat.
Proof.
  revert acc; induction tokens as [|token tokens IH]; intros acc; simpl.
  - intros [= <-]. lia.
  - destruct (slen token =? 0)%nat.
    + intros H. apply IH in H. rewrite length_app in H. simpl in H. lia.
    + destruct (ParseFloat token) as [v [e|]]; [discriminate|].
      intros H. apply IH in H. rewrite length_app in H. simpl in H. lia.
Qed.

Lemma csv_step_width_invariant ParseFloat delimiter defaultVal (st : csv_state) :
  csv_width_invariant st ->
  match csv_step ParseFloat delimiter defaultVal st with
  | Return r => forall m, r = (m, None) -> False
  | Break st' => st' = st
  | Continue st' => csv_width_invariant st'
  end.
Proof.
  intros [Hfirst Hall]. unfold csv_step, csv_row.
  destruct (bufio.ReadString (st_reader st) newline) as [[line err] reader'].
  destruct (match err with Some e => negb (is_EOF e) | None => false end) eqn:Eerr.
  { destruct err; [intros m [=]|discriminate]. }
  destruct (is_empty _); [reflexivity|].
  destruct (csv_fields _ _ _ _) as [vec|e]; [|intros m [=]].
  destruct (Z.eqb_spec (st_colDim st) (-1)) as [Hc|Hc].
  - split; cbn [st_colDim st_matrix Vectors].
    + unfold len. lia.
    + rewrite (Hfirst Hc). intros v ->%list_elem_of_singleton. reflexivity.
  - destruct (Z.eqb_spec (st_colDim st) (len vec)) as [Hw|Hw]; cbn [negb];
      [|intros m [=]].
    split; cbn [st_colDim st_matrix Vectors]; [tauto|].
    intros v [Hv| ->%list_elem_of_singleton]%elem_of_app; [now apply Hall|now symmetry].
Qed.

Lemma csv_loop_uniform ParseFloat delimiter defaultVal (st : csv_state) (m : Matrix) :
  csv_width_invariant st ->
  csv_loop ParseFloat delimiter defaultVal st = (m, None) ->
  forall v v' : Vector, v ∈ Vectors m -> v' ∈ Vectors m -> length v = length v'.
Proof.
  intros Hinv. revert m.
  apply (csv_loop_invariant ParseFloat delimiter defaultVal csv_width_invariant
           (fun r => forall m, r = (m, None) ->
              forall v v' : Vector, v ∈ Vectors m -> v' ∈ Vectors m ->
                                    length v = length v')); [|exact Hinv].
  clear st Hinv. intros st Hinv.
  pose proof (csv_step_width_invariant ParseFloat delimiter defaultVal st Hinv) as Hstep.
  destruct (csv_step ParseFloat delimiter defaultVal st) as [st'|st'|r].
  - exact Hstep.
  - subst st'. intros m [= <-] v v' Hv Hv'.
    destruct Hinv as [_ Hall]. apply Hall in Hv, Hv'. unfold len in *. lia.
  - intros m Hm. destruct (Hstep m Hm).
Qed.

Lemma row_width_Some ParseFloat delimiter defaultVal (l : string) (w : nat) :
  row_width ParseFloat delimiter defaultVal l = Some w ->
  has_newline l = false /\ is_empty (strings.TrimSpace l) = false /\
  exists vec, csv_fields ParseFloat defaultVal
                (strings.Split (strings.TrimSpace l) delimiter) [] = inl vec /\
              length vec = w.
Proof.
  unfold row_width. destruct (has_newline l); [discriminate|].
  destruct (is_empty _); [discriminate|]. simpl.
  destruct (csv_fields _ _ _ _) as [vec|e]; [|discriminate].
  intros [= <-]. eauto.
Qed.

(** The loop over a run of lines that all denote rows of width [w], from a
    state in which no row or only rows of width [w] have been read. *)
Lemma csv_loop_rows ParseFloat delimiter defaultVal (w : nat) (text : string) (fin : error) :
  forall (lines : list string) (m : Matrix) (c r : Z),
    Forall (fun l => row_width ParseFloat delimiter defaultVal l = Some w) lines ->
    c = -1 \/ c = Z.of_nat w ->
    exists vs : list Vector,
      length vs = length lines /\
      csv_loop ParseFloat delimiter defaultVal
        {| st_reader := {| bufio.unread := join_lines lines ++ text; bufio.final := fin |};
           st_matrix := m; st_colDim := c; st_row := r |} =
      csv_loop ParseFloat delimiter defaultVal
        {| st_reader := {| bufio.unread := text; bufio.final := fin |};
           st_matrix := {| Vectors := Vectors m ++ vs |};
           st_colDim := match lines with [] => c | _ => Z.of_nat w end;
           st_row := r + len lines |}.
Proof.
  induction lines as [|l lines IH]; intros m c r Hlines Hc.
  - exists []. split; [reflexivity|]. unfold len. simpl.
    rewrite app_nil_r, Z.add_0_r. destruct m; reflexivity.
  - inversion Hlines as [|? ? Hl Hrest]; subst.
    apply row_width_Some in Hl as (Hnl & Hblank & vec & Hvec & Hlen).
    cbn [join_lines]. unfold nl. rewrite !sapp_assoc, sapp_cons, sapp_nil_l.
    rewrite csv_loop_line by exact Hnl. rewrite Hblank.
    unfold csv_row. rewrite Hvec. cbn [st_colDim st_matrix st_row].
    assert (Hnext :
      (if c =? -1 then
         @Continue csv_state (Matrix * option error)
           {| st_reader := {| bufio.unread := join_lines lines ++ text; bufio.final := fin |};
              st_matrix := {| Vectors := Vectors m ++ [vec] |};
              st_colDim := len vec; st_row := r + 1 |}
       else if negb (c =? len vec)
            then Return ({| Vectors := [] |}, Some (ErrRowDimension r (len vec)))
            else Continue
                   {| st_reader := {| bufio.unread := join_lines lines ++ text; bufio.final := fin |};
                      st_matrix := {| Vectors := Vectors m ++ [vec] |};
                      st_colDim := c; st_row := r + 1 |}) =
      Continue
        {| st_reader := {| bufio.unread := join_lines lines ++ text; bufio.final := fin |};
           st_matrix := {| Vectors := Vectors m ++ [vec] |};
           st_colDim := Z.of_nat w; st_row := r + 1 |}).
    { unfold len. rewrite Hlen.
      destruct Hc as [-> | ->]; [reflexivity|].
      destruct (Z.eqb_spec (Z.of_nat w) (-1)); [lia|].
      rewrite Z.eqb_refl. reflexivity. }
    rewrite Hnext.
    destruct (IH {| Vectors := Vectors m ++ [vec] |} (Z.of_nat w) (r + 1) Hrest)
      as (vs & Hvs & Heq); [now right|].
    exists (vec :: vs). split; [simpl; now rewrite Hvs|].
    rewrite Heq. cbn [Vectors]. rewrite <- app_assoc. simpl.
    replace (r + 1 + len lines) with (r + len (l :: lines))
      by (unfold len; simpl length; lia).
    destruct lines; reflexivity.
Qed.

(** C1, as amended.  A matrix that [ReadCSVFileToDenseMatrix] returns with
    no error has rows of one length.  The row made of a line has as many
    values as the line has fields: nothing is cut off and nothing is filled
    in.  When the first lines of a file denote rows of width [w] and the
    line after them denotes a row of another width [w'], every field of it
    being empty or a number, the read fails with the error that names the
    index of that line and the width [w']. *)
Theorem csv_uniform_row_width
  (ParseFloat : string -> float * option strconv.NumError)
  (fs : os.FileSystem) (fileName delimiter : string) (defaultVal : float) :
  (forall m,
     ReadCSVFileToDenseMatrix ParseFloat fs fileName delimiter defaultVal = (m, None) ->
     forall v v' : Vector, v ∈ Vectors m -> v' ∈ Vectors m -> length v = length v') /\
  (forall tokens vec,
     csv_fields ParseFloat defaultVal tokens [] = inl vec ->
     length vec = length tokens) /\
  (forall (lines : list string) (bad rest : string) (w w' : nat),
     lines <> [] ->
     Forall (fun l => row_width ParseFloat delimiter defaultVal l = Some w) lines ->
     row_width ParseFloat delimiter defaultVal bad = Some w' ->
     w' <> w ->
     ReadCSVFileToDenseMatrix ParseFloat
       (single_file fileName (join_lines lines ++ bad ++ String newline rest))
       fileName delimiter defaultVal =
     ({| Vectors := [] |}, Some (ErrRowDimension (len lines) (Z.of_nat w')))).
Proof.
  split; [|split].
  - intros m. unfold ReadCSVFileToDenseMatrix.
    destruct (os.Open fs fileName) as [file|err]; [|discriminate].
    apply csv_loop_uniform. split; cbn [st_colDim st_matrix Vectors].
    + reflexivity.
    + intros v Hv. inversion Hv.
  - intros tokens vec H. apply csv_fields_length in H. simpl in H. exact H.
  - intros lines bad rest w w' Hne Hlines Hbad Hw.
    unfold ReadCSVFileToDenseMatrix. rewrite single_file_open.
    unfold bufio.NewReader. cbn [os.contents os.read_error].
    destruct (csv_loop_rows ParseFloat delimiter defaultVal w
                (bad ++ String newline rest) io_EOF lines {| Vectors := [] |} (-1) 0
                Hlines) as (vs & Hvs & Heq); [now left|].
    rewrite Heq. clear Heq.
    apply row_width_Some in Hbad as (Hnl & Hblank & vec & Hvec & Hlen).
    rewrite csv_loop_line by exact Hnl. rewrite Hblank.
    unfold csv_row. rewrite Hvec. cbn [st_colDim st_matrix st_row].
    destruct lines as [|l lines]; [congruence|].
    destruct (Z.eqb_spec (Z.of_nat w) (-1)); [lia|].
    replace (len vec) with (Z.of_nat w') by (unfold len; now rewrite Hlen).
    destruct (Z.eqb_spec (Z.of_nat w) (Z.of_nat w')); [lia|].
    cbn [negb]. rewrite Z.add_0_l. reflexivity.
Qed.

(** The third part of C1 at the example of the specification: the rows
    ["1,2,3"] and ["4,5"] make the read fail at row [1] with width [2]. *)
Lemma csv_uniform_row_width_witness :
  ReadCSVFileToDenseMatrix strconv.ParseFloatDecimal
    (single_file "f" (join_lines ["1,2,3"] ++ "4,5" ++ String newline ""))
    "f" "," 0%float =
  ({| Vectors := [] |}, Some (ErrRowDimension 1 2)).
Proof.
  apply (proj2 (proj2 (csv_uniform_row_width strconv.ParseFloatDecimal
                         (single_file "f" "") "f" "," 0%float))
           ["1,2,3"] "4,5" "" 3%nat 2%nat).
  - discriminate.
  - repeat constructor.
  - reflexivity.
  - lia.
Defined.

(** C1, as stated, fails on a later line that has another number of
    fields and a field that is no number: the fields are converted before
    the widths are compared, so the second line of the file below, of two
    fields after a first line of three, makes the read fail with the error
    of the conversion, which names neither the index of the line nor its
    width. *)
Lemma csv_row_width_counterexample :
  row_width strconv.ParseFloatDecimal "," 0%float "1,2,3" = Some 3%nat /\
  length (strings.Split (strings.TrimSpace "4,x") ",") = 2%nat /\
  ReadCSVFileToDenseMatrix strconv.ParseFloatDecimal
    (single_file "f" (join_lines ["1,2,3"; "4,x"])) "f" "," 0%float =
  ({| Vectors := [] |}, Some (ErrConvertFloat "x" strconv.ErrSyntax)).
Proof. repeat split; vm_compute; reflexivity. Qed.

Example csv_default_value :
  ReadCSVFileToDenseMatrix strconv.ParseFloatDecimal
    (single_file "f" (join_lines ["1,2,3"; "4,,6"])) "f" "," 0%float =
  ({| Vectors := [[1; 2; 3]; [4; 0; 6]]%float |}, None).
Proof. vm_compute. reflexivity. Qed.

(** ** Rows of the sparse reader *)

Lemma slen_zero (s : string) : (slen s =? 0)%nat = is_empty s.
Proof. destruct s; reflexivity. Qed.

Lemma libsvm_pairs_entries ParseFloat (tokens : list string) (entries : list (Z * float))
  (vec : SparseVector) :
  mapM (sparse_pair ParseFloat) tokens = Some entries ->
  libsvm_pairs ParseFloat tokens vec =
  inl (fold_left (fun vec e => <[fst e := snd e]> vec) entries vec).
Proof.
  revert entries vec; induction tokens as [|token tokens IH]; intros entries vec.
  - intros [= <-]. reflexivity.
  - rewrite mapM_Some. intros H. inversion H as [|? [i v] ? es Hpair Hrest]; subst.
    apply mapM_Some in Hrest.
    cbn [libsvm_pairs]. unfold sparse_pair in Hpair. rewrite slen_zero.
    destruct (is_empty token); [discriminate|].
    destruct (strings.Split token ":") as [|index [|value [|]]]; try discriminate.
    destruct (strconv.ParseUint index 32) as [i' [e|]]; [discriminate|].
    destruct (ParseFloat value) as [v' [e|]]; [discriminate|].
    injection Hpair as -> ->. simpl. apply IH, Hrest.
Qed.

Lemma sparse_row_Some ParseFloat (l : string) (row : SparseVector) :
  sparse_row ParseFloat l = Some row ->
  has_newline l = false /\ is_empty (strings.TrimSpace l) = false /\
  libsvm_line ParseFloat (strings.TrimSpace l) = inl row.
Proof.
  unfold sparse_row, libsvm_line.
  destruct (has_newline l); [discriminate|].
  destruct (is_empty _); [discriminate|]. cbn [orb].
  destruct (strings.Split _ " ") as [|label [|token tokens]]; try discriminate.
  destruct (mapM _ _) as [entries|] eqn:E; [|discriminate].
  intros [= <-]. repeat split.
  replace (len (label :: token :: tokens) <? 2) with false
    by (symmetry; apply Z.ltb_ge; unfold len; simpl length; lia).
  cbn [tail]. apply (libsvm_pairs_entries _ _ _ _ E).
Qed.

Lemma libsvm_loop_rows ParseFloat :
  forall (lines : list string) (rows : list SparseVector) (sm : SparseMatrix),
    Forall2 (fun l row => sparse_row ParseFloat l = Some row) lines rows ->
    libsvm_loop ParseFloat
      {| bufio.unread := join_lines lines; bufio.final := io_EOF |} sm =
    ({| SVectors := SVectors sm ++ rows |}, None).
Proof.
  intros lines rows sm H; revert sm;
    induction H as [|l row lines rows Hl Hrest IH]; intros sm.
  - cbn [join_lines]. rewrite libsvm_loop_end by reflexivity.
    rewrite app_nil_r. destruct sm; reflexivity.
  - apply sparse_row_Some in Hl as (Hnl & Hblank & Hline).
    cbn [join_lines]. unfold nl. rewrite sapp_cons, sapp_nil_l.
    rewrite libsvm_loop_line by exact Hnl. rewrite Hblank, Hline.
    rewrite IH. cbn [SVectors]. now rewrite <- app_assoc.
Qed.

(** C3.  A file whose lines each denote a row is read into the matrix of
    these rows, in order; the row of a line stores one entry per token after
    the first, and the first token, the label, leaves no trace.  In
    particular, when [strconv.ParseFloat] reads ["0.5"] as [0.5] and ["2.0"]
    as [2], the file of the one line ["1 3:0.5 7:2.0"] is read into one row
    that maps [3] to [0.5] and [7] to [2]. *)
Theorem libsvm_rows
  (ParseFloat : string -> float * option strconv.NumError) (fileName : string) :
  ParseFloat "0.5" = (0.5%float, None) ->
  ParseFloat "2.0" = (2%float, None) ->
  ReadLibsvmFileToSparseMatrix ParseFloat
    (single_file fileName ("1 3:0.5 7:2.0" ++ nl)) fileName =
    ({| SVectors := [ {[ 3 := 0.5%float; 7 := 2%float ]} ] |}, None) /\
  (forall (lines : list string) (rows : list SparseVector),
     Forall2 (fun l row => sparse_row ParseFloat l = Some row) lines rows ->
     ReadLibsvmFileToSparseMatrix ParseFloat
       (single_file fileName (join_lines lines)) fileName =
     ({| SVectors := rows |}, None)).
Proof.
  intros H05 H2.
  assert (Hgeneral : forall (lines : list string) (rows : list SparseVector),
     Forall2 (fun l row => sparse_row ParseFloat l = Some row) lines rows ->
     ReadLibsvmFileToSparseMatrix ParseFloat
       (single_file fileName (join_lines lines)) fileName =
     ({| SVectors := rows |}, None)).
  { intros lines rows Hrows. unfold ReadLibsvmFileToSparseMatrix.
    rewrite single_file_open. unfold bufio.NewReader. cbn [os.contents os.read_error].
    now rewrite (libsvm_loop_rows ParseFloat lines rows _ Hrows). }
  split; [|exact Hgeneral].
  change ("1 3:0.5 7:2.0" ++ nl)%string
    with (join_lines ["1 3:0.5 7:2.0"]).
  apply Hgeneral. constructor; [|constructor].
  unfold sparse_row.
  change (has_newline "1 3:0.5 7:2.0" || is_empty (strings.TrimSpace "1 3:0.5 7:2.0"))
    with false.
  change (strings.Split (strings.TrimSpace "1 3:0.5 7:2.0") " ")
    with ["1"; "3:0.5"; "7:2.0"].
  cbn [mapM]. unfold sparse_pair.
  change (strings.Split "3:0.5" ":") with ["3"; "0.5"].
  change (strings.Split "7:2.0" ":") with ["7"; "2.0"].
  change (strconv.ParseUint "3" 32) with (3, @None strconv.NumError).
  change (strconv.ParseUint "7" 32) with (7, @None strconv.NumError).
  cbn [is_empty]. rewrite H05, H2. reflexivity.
Qed.

(** The hypotheses of C3 hold of the decimal instance of
    [strconv.ParseFloat]. *)
Lemma libsvm_rows_witness :
  ReadLibsvmFileToSparseMatrix strconv.ParseFloatDecimal
    (single_file "f" ("1 3:0.5 7:2.0" ++ nl)) "f" =
    ({| SVectors := [ {[ 3 := 0.5%float; 7 := 2%float ]} ] |}, None) /\
  (forall (lines : list string) (rows : list SparseVector),
     Forall2 (fun l row => sparse_row strconv.ParseFloatDecimal l = Some row) lines rows ->
     ReadLibsvmFileToSparseMatrix strconv.ParseFloatDecimal
       (single_file "f" (join_lines lines)) "f" =
     ({| SVectors := rows |}, None)).
Proof.
  apply (libsvm_rows strconv.ParseFloatDecimal "f"); reflexivity.
Defined.

Example libsvm_empty_index :
  ReadLibsvmFileToSparseMatrix strconv.ParseFloatDecimal
    (single_file "f" ("1 3:0.5 :2.0" ++ nl)) "f" =
  ({| SVectors := [] |}, Some (ErrParseInt "" strconv.ErrSyntax)).
Proof. vm_compute. reflexivity. Qed.

(** ** Tokens of the sparse reader *)

Lemma srev_append_spec (s acc : string) :
  srev_append s acc = (srev s ++ acc)%string.
Proof.
  unfold srev. revert acc; induction s as [|c s IH]; intros acc; [reflexivity|].
  cbn [srev_append]. rewrite IH, (IH (String c EmptyString)), sapp_assoc.
  reflexivity.
Qed.

Lemma srev_cons (c : ascii) (s : string) :
  srev (String c s) = (srev s ++ String c EmptyString)%string.
Proof. unfold srev at 1. cbn [srev_append]. apply srev_append_spec. Qed.

Lemma split_colon_none (s cur : string) :
  has_colon s = false ->
  strings.split_from ":" s 0 cur = [(srev cur ++ s)%string].
Proof.
  revert cur; induction s as [|c s IH]; intros cur Hs.
  - cbn [strings.split_from]. now rewrite sapp_nil_r.
  - cbn [has_colon] in Hs. apply orb_false_iff in Hs as [Hc Hs].
    cbn [strings.split_from has_prefix]. rewrite Hc. cbn [andb].
    rewrite (IH _ Hs), srev_cons, sapp_assoc. reflexivity.
Qed.

Lemma split_colon_pair (index value cur : string) :
  has_colon index = false -> has_colon value = false ->
  strings.split_from ":" (index ++ String ":" value) 0 cur =
  [(srev cur ++ index)%string; value].
Proof.
  revert cur; induction index as [|c index IH]; intros cur Hi Hv.
  - rewrite sapp_nil_l, sapp_nil_r. cbn [strings.split_from has_prefix].
    change (Ascii.eqb ":" ":") with true. cbn [andb slen String.length Nat.pred].
    rewrite (split_colon_none value EmptyString Hv). reflexivity.
  - cbn [has_colon] in Hi. apply orb_false_iff in Hi as [Hc Hi].
    rewrite sapp_cons. cbn [strings.split_from has_prefix]. rewrite Hc. cbn [andb].
    rewrite (IH _ Hi Hv), srev_cons, sapp_assoc. reflexivity.
Qed.

Lemma Split_pair (index value : string) :
  has_colon index = false -> has_colon value = false ->
  strings.Split (index ++ String ":" value) ":" = [index; value].
Proof.
  intros Hi Hv. unfold strings.Split. cbn [is_empty].
  now rewrite split_colon_pair.
Qed.

Lemma digit_value_range (c : ascii) :
  strconv.is_digit c = true -> 0 <= strconv.digit_value c <= 9.
Proof.
  unfold strconv.is_digit, strconv.digit_value.
  intros [H1 H2]%andb_true_iff. apply N.leb_le in H1, H2. lia.
Qed.

Lemma digits_value_ge (s : string) (acc n : Z) :
  0 <= acc -> digits_value s acc = Some n -> acc <= n.
Proof.
  revert acc; induction s as [|c s IH]; intros acc Hacc; cbn [digits_value].
  - intros [= <-]. lia.
  - destruct (strconv.is_digit c) eqn:Hc; [|discriminate].
    apply digit_value_range in Hc. intros H. apply IH in H; lia.
Qed.

(** [strconv.ParseUint] in base 10 and 32 bits succeeds exactly on the
    strings of decimal digits whose value is at most [2^32 - 1]. *)
Lemma parse_uint_loop_spec (s : string) (acc : Z) :
  0 <= acc <= 4294967295 ->
  match digits_value s acc with
  | Some n =>
    strconv.parse_uint_loop s acc 4294967295 =
    if n <=? 4294967295 then (n, None) else (4294967295, Some strconv.ErrRange)
  | None => exists v e, strconv.parse_uint_loop s acc 4294967295 = (v, Some e)
  end.
Proof.
  revert acc; induction s as [|c s IH]; intros acc Hacc;
    cbn [digits_value strconv.parse_uint_loop].
  - destruct (Z.leb_spec acc 4294967295); [reflexivity|lia].
  - destruct (strconv.is_digit c) eqn:Hc; cbn [negb]; [|eauto].
    pose proof (digit_value_range c Hc) as Hd.
    change (strconv.maxUint64 / 10 + 1) with 1844674407370955162.
    destruct (Z.leb_spec 1844674407370955162 acc); [lia|].
    rewrite Z.mod_small by (change (2 ^ 64) with 18446744073709551616; lia).
    destruct (Z.ltb_spec (acc * 10 + strconv.digit_value c) (acc * 10)); [lia|].
    cbn [orb].
    destruct (Z.ltb_spec 4294967295 (acc * 10 + strconv.digit_value c)) as [Hbig|Hok].
    + destruct (digits_value s _) as [n|] eqn:En; [|eauto].
      apply digits_value_ge in En; [|lia].
      destruct (Z.leb_spec n 4294967295); [lia|reflexivity].
    + apply IH. lia.
Qed.

Lemma ParseUint_spec (s : string) :
  match decimal_value s with
  | Some n =>
    strconv.ParseUint s 32 =
    if n <=? 4294967295 then (n, None) else (4294967295, Some strconv.ErrRange)
  | None => exists v e, strconv.ParseUint s 32 = (v, Some e)
  end.
Proof.
  unfold decimal_value, strconv.ParseUint.
  destruct (is_empty s); [eauto|].
  change (2 ^ 32 - 1) with 4294967295. apply parse_uint_loop_spec. lia.
Qed.

(** C4, as amended.  A token [<index>:<value>] with one colon is accepted
    exactly when [<index>] is a non-empty string of decimal digits whose
    value is at most [2^32 - 1] and [<value>] parses as a floating-point
    number; the value is then stored at the index that the digits denote,
    with no offset.  An index of digits above [2^32 - 1] is a range error,
    any other index an error of [strconv.ParseUint], and a value that does
    not parse an error of [strconv.ParseFloat]. *)
Theorem libsvm_token
  (ParseFloat : string -> float * option strconv.NumError)
  (index value : string) (tokens : list string) (vec : SparseVector) :
  has_colon index = false -> has_colon value = false ->
  let token := (index ++ String ":" value)%string in
  match decimal_value index with
  | Some n =>
    if n <=? 4294967295 then
      match ParseFloat value with
      | (val, None) =>
        libsvm_pairs ParseFloat (token :: tokens) vec =
        libsvm_pairs ParseFloat tokens (<[n := val]> vec)
      | (_, Some err) =>
        libsvm_pairs ParseFloat (token :: tokens) vec = inr (ErrParseFloat value err)
      end
    else
      libsvm_pairs ParseFloat (token :: tokens) vec =
      inr (ErrParseInt index strconv.ErrRange)
  | None =>
    exists err,
      libsvm_pairs ParseFloat (token :: tokens) vec = inr (ErrParseInt index err)
  end.
Proof.
  intros Hi Hv token. subst token. cbn [libsvm_pairs].
  rewrite slen_zero, (Split_pair index value Hi Hv).
  replace (is_empty (index ++ String ":" value)) with false
    by (destruct index; reflexivity).
  pose proof (ParseUint_spec index) as Hparse.
  destruct (decimal_value index) as [n|].
  - rewrite Hparse. destruct (n <=? 4294967295); [|reflexivity].
    destruct (ParseFloat value) as [val [err|]]; reflexivity.
  - destruct Hparse as (v & e & ->). eauto.
Qed.

(** The hypotheses of C4 hold of the token ["4294967295:0.25"], whose index
    is the largest one accepted. *)
Lemma libsvm_token_witness :
  libsvm_pairs strconv.ParseFloatDecimal ["4294967295:0.25"] ∅ =
  libsvm_pairs strconv.ParseFloatDecimal [] (<[4294967295 := 0.25%float]> ∅).
Proof.
  exact (libsvm_token strconv.ParseFloatDecimal "4294967295" "0.25" [] ∅
           eq_refl eq_refl).
Defined.

(** C4, as stated, fails: the index [4294967296] is a decimal non-negative
    integer and the value ["1.0"] parses, but the reader rejects the line,
    because it parses indices as unsigned integers of 32 bits. *)
Lemma libsvm_index_counterexample :
  decimal_value "4294967296" = Some 4294967296 /\
  strconv.ParseFloatDecimal "1.0" = (1%float, None) /\
  ReadLibsvmFileToSparseMatrix strconv.ParseFloatDecimal
    (single_file "f" ("1 4294967296:1.0" ++ nl)) "f" =
  ({| SVectors := [] |}, Some (ErrParseInt "4294967296" strconv.ErrRange)).
Proof. repeat split; vm_compute; reflexivity. Qed.

(** C7 at a file whose reading fails after the first line: the sparse
    reader fails on the first line, which has no column, the dense reader
    fails with the error of the file after it has parsed the first line;
    neither returns a row. *)
Lemma readers_return_no_rows_on_failure_witness :
  fst (ReadLibsvmFileToSparseMatrix strconv.ParseFloatDecimal failing_file "f")
    = {| SVectors := [] |} /\
  fst (ReadCSVFileToDenseMatrix strconv.ParseFloatDecimal failing_file "f" "," 0%float)
    = {| Vectors := [] |}.
Proof.
  split.
  - eapply (proj1 (readers_return_no_rows_on_failure strconv.ParseFloatDecimal
                     failing_file "f" "," 0%float)).
    vm_compute. reflexivity.
  - eapply (proj2 (readers_return_no_rows_on_failure strconv.ParseFloatDecimal
                     failing_file "f" "," 0%float)).
    vm_compute. reflexivity.
Defined.

Example readers_failures :
  ReadLibsvmFileToSparseMatrix strconv.ParseFloatDecimal failing_file "f" =
    ({| SVectors := [] |}, Some ErrTooFewColumns) /\
  ReadCSVFileToDenseMatrix strconv.ParseFloatDecimal failing_file "f" "," 0%float =
    ({| Vectors := [] |}, Some (io_failure "input/output error")) /\
  ReadCSVFileToDenseMatrix strconv.ParseFloatDecimal
    (single_file "f" (join_lines ["1,2,3"; "4,x"])) "f" "," 0%float =
    ({| Vectors := [] |}, Some (ErrConvertFloat "x" strconv.ErrSyntax)) /\
  ReadLibsvmFileToSparseMatrix strconv.ParseFloatDecimal
    (single_file "f" (join_lines ["1 2:3"; "1 2:3:4"])) "f" =
    ({| SVectors := [] |}, Some (ErrWrongFormat "2:3:4")) /\
  ReadLibsvmFileToSparseMatrix strconv.ParseFloatDecimal (single_file "f" "") "g" =
    ({| SVectors := [] |},
     Some (ErrOpen "g" (io_failure "no such file or directory"))).
Proof. repeat split; vm_compute; reflexivity. Qed.

(** * Further properties

    Properties of the package beyond the statements above: the rest of the
    comparison helpers, the conversions, the readers on files that are not
    well formed, and the writer. *)

(** ** More IEEE-754 facts *)

Lemma SFabs_binary_round_aux (s s' : bool) (mx ex : Z) (lx : location) :
  SFabs (binary_round_aux prec emax s mx ex lx) =
  SFabs (binary_round_aux prec emax s' mx ex lx).
Proof.
  unfold binary_round_aux.
  destruct (shr_fexp prec emax mx ex lx) as [mrs' e'].
  destruct (shr_fexp prec emax _ e' loc_Exact) as [mrs'' e''].
  destruct (shr_m mrs''); [reflexivity| |reflexivity].
  destruct (e'' <=? emax - prec); reflexivity.
Qed.

Lemma SFabs_binary_normalize_opp (m e : Z) (szero : bool) :
  SFabs (binary_normalize prec emax (- m) e szero) =
  SFabs (binary_normalize prec emax m e szero).
Proof.
  destruct m as [|p|p]; [reflexivity|..];
    change (- Z.pos p) with (Z.neg p); change (- Z.neg p) with (Z.pos p);
    cbn [binary_normalize]; unfold binary_round;
    destruct (shl_align p e _) as [mz ez]; apply SFabs_binary_round_aux.
Qed.

Lemma SFabs_sub_comm (x y : spec_float) :
  SFabs (SF64sub x y) = SFabs (SF64sub y x).
Proof.
  unfold SF64sub, SFsub.
  destruct x as [sx|sx| |sx mx ex], y as [sy|sy| |sy my ey];
    try reflexivity;
    try (destruct sx; try destruct sy; reflexivity);
    try (destruct sy; reflexivity).
  cbv zeta. rewrite (Z.min_comm ey ex).
  rewrite <- SFabs_binary_normalize_opp. f_equal. f_equal. lia.
Qed.

Lemma float_abs_sub_comm (t x y : float) :
  (t <? math.Abs (x - y))%float = (t <? math.Abs (y - x))%float.
Proof.
  unfold math.Abs. rewrite !ltb_spec, !abs_spec, !sub_spec.
  now rewrite SFabs_sub_comm.
Qed.

Lemma SFeqb_nan (x : spec_float) : SFeqb x x = false -> x = S754_nan.
Proof. sf_order. Qed.

Lemma IsNaN_true (x : float) : math.IsNaN x = true -> Prim2SF x = S754_nan.
Proof.
  unfold math.IsNaN. rewrite FloatAxioms.eqb_spec. intros H.
  apply SFeqb_nan. now destruct (SFeqb _ _).
Qed.

Lemma SFltb_nan_r (x : spec_float) : SFltb x S754_nan = false.
Proof. destruct x as [[]|[]| |[] ? ?]; reflexivity. Qed.

Lemma SFsub_nan_l (y : spec_float) : SF64sub S754_nan y = S754_nan.
Proof. reflexivity. Qed.

Lemma SFsub_nan_r (x : spec_float) : SF64sub x S754_nan = S754_nan.
Proof. destruct x as [[]|[]| |[] ? ?]; reflexivity. Qed.

(** No threshold is exceeded when it is a NaN or one of the operands is. *)
Lemma float_abs_sub_NaN (t x y : float) :
  math.IsNaN t = true \/ math.IsNaN x = true \/ math.IsNaN y = true ->
  (t <? math.Abs (x - y))%float = false.
Proof.
  unfold math.Abs. rewrite ltb_spec, abs_spec, sub_spec.
  intros [H|[H|H]]; apply IsNaN_true in H; rewrite H.
  - reflexivity.
  - rewrite SFsub_nan_l. apply SFltb_nan_r.
  - rewrite SFsub_nan_r. apply SFltb_nan_r.
Qed.

(** ** Threshold equality of vectors *)

Lemma equal_from_Forall2 (v1 v2 : Vector) (i : Z) (threshold : float) :
  length v1 = length v2 ->
  equal_from v1 v2 i threshold = None <->
  Forall2 (fun x1 x2 => exceeds threshold x1 x2 = false) v1 v2.
Proof.
  revert v2 i; induction v1 as [|x1 v1 IH]; intros [|x2 v2] i Hlen;
    try discriminate; cbn [equal_from].
  - split; [constructor|reflexivity].
  - fold (exceeds threshold x1 x2).
    destruct (exceeds threshold x1 x2) eqn:E.
    + split; [discriminate|]. intros H. inversion H; congruence.
    + rewrite (IH v2 (i + 1)) by (simpl in Hlen; lia).
      split; [now constructor|]. intros H. now inversion H.
Qed.

Lemma IsEqualVectors_Forall2 (v1 v2 : Vector) (threshold : float) :
  IsEqualVectors v1 v2 threshold = None <->
  Forall2 (fun x1 x2 => exceeds threshold x1 x2 = false) v1 v2.
Proof.
  unfold IsEqualVectors, len.
  destruct (Z.eqb_spec (Z.of_nat (length v1)) (Z.of_nat (length v2))) as [H|H];
    cbn [negb].
  - apply equal_from_Forall2. lia.
  - split; [discriminate|]. intros HF. apply Forall2_length in HF. lia.
Qed.

Lemma equal_from_Some (v1 v2 : Vector) (i : Z) (threshold : float) (e : error) :
  equal_from v1 v2 i threshold = Some e ->
  exists (k : nat) (x1 x2 : float),
    e = ErrElementMismatch (i + Z.of_nat k) x1 x2 /\
    v1 !! k = Some x1 /\ v2 !! k = Some x2 /\
    exceeds threshold x1 x2 = true /\
    Forall2 (fun y1 y2 => exceeds threshold y1 y2 = false) (take k v1) (take k v2).
Proof.
  revert v2 i; induction v1 as [|x1 v1 IH]; intros [|x2 v2] i;
    cbn [equal_from]; try discriminate.
  fold (exceeds threshold x1 x2). destruct (exceeds threshold x1 x2) eqn:E.
  - intros [= <-]. exists 0%nat, x1, x2. rewrite Z.add_0_r.
    repeat split; [exact E|constructor].
  - intros H. apply IH in H as (k & y1 & y2 & -> & H1 & H2 & H3 & H4).
    exists (S k), y1, y2. repeat split; try assumption.
    + f_equal. lia.
    + cbn [take]. now constructor.
Qed.

(** X1.  [IsEqualVectors] returns nil exactly when the vectors have the
    same length and no two elements at the same index are further apart
    than the threshold. *)
Theorem IsEqualVectors_nil_iff (v1 v2 : Vector) (threshold : float) :
  IsEqualVectors v1 v2 threshold = None <->
  length v1 = length v2 /\
  forall (i : nat) (x1 x2 : float),
    v1 !! i = Some x1 -> v2 !! i = Some x2 -> exceeds threshold x1 x2 = false.
Proof.
  rewrite IsEqualVectors_Forall2. apply Forall2_same_length_lookup.
Qed.

(** X2.  An error of [IsEqualVectors] is either the length error, returned
    for vectors of different lengths whatever they hold, or, for vectors of
    the same length, the mismatch error of the first index at which the
    elements are further apart than the threshold: it carries that index and
    the two elements, and no earlier pair exceeds the threshold. *)
Theorem IsEqualVectors_first_mismatch
  (v1 v2 : Vector) (threshold : float) (e : error) :
  IsEqualVectors v1 v2 threshold = Some e ->
  (length v1 <> length v2 /\ e = ErrVectorLength (len v1) (len v2)) \/
  (length v1 = length v2 /\
   exists (k : nat) (x1 x2 : float),
     e = ErrElementMismatch (Z.of_nat k) x1 x2 /\
     v1 !! k = Some x1 /\ v2 !! k = Some x2 /\
     exceeds threshold x1 x2 = true /\
     forall (j : nat) (y1 y2 : float),
       (j < k)%nat -> v1 !! j = Some y1 -> v2 !! j = Some y2 ->
       exceeds threshold y1 y2 = false).
Proof.
  unfold IsEqualVectors, len.
  destruct (Z.eqb_spec (Z.of_nat (length v1)) (Z.of_nat (length v2))) as [H|H];
    cbn [negb].
  - intros He. right. split; [lia|].
    apply equal_from_Some in He as (k & x1 & x2 & -> & H1 & H2 & H3 & H4).
    exists k, x1, x2. repeat split; try assumption.
    intros j y1 y2 Hj Hy1 Hy2.
    eapply (Forall2_lookup_lr _ _ _ j y1 y2 H4); rewrite lookup_take_lt; assumption.
  - intros [= <-]. left. split; [lia|reflexivity].
Qed.

(** The hypothesis of X2 holds of two vectors that differ at indices [1]
    and [2]: the error names index [1]. *)
Lemma IsEqualVectors_first_mismatch_witness :
  IsEqualVectors [1; 2; 3]%float [1; 4; 5]%float 0.5%float
    = Some (ErrElementMismatch 1 2 4) /\
  ((length [1; 2; 3]%float <> length [1; 4; 5]%float /\
    ErrElementMismatch 1 2 4 = ErrVectorLength (len [1; 2; 3]%float) (len [1; 4; 5]%float)) \/
   (length [1; 2; 3]%float = length [1; 4; 5]%float /\
    exists (k : nat) (x1 x2 : float),
      ErrElementMismatch 1 2 4 = ErrElementMismatch (Z.of_nat k) x1 x2 /\
      [1; 2; 3]%float !! k = Some x1 /\ [1; 4; 5]%float !! k = Some x2 /\
      exceeds 0.5 x1 x2 = true /\
      forall (j : nat) (y1 y2 : float),
        (j < k)%nat -> [1; 2; 3]%float !! j = Some y1 ->
        [1; 4; 5]%float !! j = Some y2 -> exceeds 0.5 y1 y2 = false)).
Proof.
  split; [reflexivity|].
  apply (IsEqualVectors_first_mismatch [1; 2; 3]%float [1; 4; 5]%float 0.5%float).
  reflexivity.
Defined.

(** X3.  The comparison is symmetric: [IsEqualVectors] accepts [v1] and
    [v2] exactly when it accepts [v2] and [v1], since the distance of two
    [float64] does not depend on their order. *)
Theorem IsEqualVectors_symmetric (v1 v2 : Vector) (threshold : float) :
  IsEqualVectors v1 v2 threshold = None <-> IsEqualVectors v2 v1 threshold = None.
Proof.
  rewrite !IsEqualVectors_Forall2. split; intros H; apply Forall2_flip;
    eapply Forall2_impl; [exact H| |exact H|]; intros x y Hxy; cbn;
    unfold exceeds in *; [rewrite float_abs_sub_comm|rewrite float_abs_sub_comm];
    exact Hxy.
Qed.

(** X4.  A larger threshold accepts more: vectors that [IsEqualVectors]
    accepts under a threshold are accepted under every threshold that is
    greater or equal. *)
Theorem IsEqualVectors_threshold_monotone
  (v1 v2 : Vector) (threshold threshold' : float) :
  (threshold <=? threshold')%float = true ->
  IsEqualVectors v1 v2 threshold = None ->
  IsEqualVectors v1 v2 threshold' = None.
Proof.
  intros Hle. rewrite !IsEqualVectors_Forall2. intros H.
  eapply Forall2_impl; [exact H|]. intros x1 x2. unfold exceeds. intros Hx.
  destruct (threshold' <? math.Abs (x1 - x2))%float eqn:E; [|reflexivity].
  rewrite (float_leb_ltb_trans _ _ _ Hle E) in Hx. discriminate.
Qed.

(** The hypotheses of X4 hold of the thresholds [0.5] and [1] and of two
    vectors whose elements are a quarter apart. *)
Lemma IsEqualVectors_threshold_monotone_witness :
  IsEqualVectors [1; 2]%float [1.25; 2]%float 0.5%float = None /\
  IsEqualVectors [1; 2]%float [1.25; 2]%float 1%float = None.
Proof.
  split; [reflexivity|].
  apply (IsEqualVectors_threshold_monotone [1; 2]%float [1.25; 2]%float 0.5%float 1%float);
    reflexivity.
Defined.

(** X5.  A NaN is never reported: when the threshold is a NaN, or at each
    index one of the two elements is, [IsEqualVectors] accepts two vectors
    of the same length, however far apart their other elements are. *)
Theorem IsEqualVectors_NaN_accepted (v1 v2 : Vector) (threshold : float) :
  Forall2 (fun x1 x2 =>
             math.IsNaN threshold = true \/ math.IsNaN x1 = true \/ math.IsNaN x2 = true)
          v1 v2 ->
  IsEqualVectors v1 v2 threshold = None.
Proof.
  intros H. rewrite IsEqualVectors_Forall2.
  eapply Forall2_impl; [exact H|]. intros x1 x2 Hx.
  apply float_abs_sub_NaN, Hx.
Qed.

(** The hypothesis of X5 holds of two vectors that hold a NaN at
    alternating sides, under the threshold zero. *)
Lemma IsEqualVectors_NaN_accepted_witness :
  IsEqualVectors [nan; 1]%float [5; nan]%float 0%float = None.
Proof.
  apply (IsEqualVectors_NaN_accepted [nan; 1]%float [5; nan]%float 0%float).
  constructor; [right; left; reflexivity|].
  constructor; [right; right; reflexivity|constructor].
Defined.

(** ** Threshold equality of matrices *)

Lemma equal_rows_from_Forall2 (rows1 rows2 : list Vector) (i : Z) (threshold : float) :
  length rows1 = length rows2 ->
  equal_rows_from rows1 rows2 i threshold = None <->
  Forall2 (fun v1 v2 => IsEqualVectors v1 v2 threshold = None) rows1 rows2.
Proof.
  revert rows2 i; induction rows1 as [|v1 rows1 IH]; intros [|v2 rows2] i Hlen;
    try discriminate; cbn [equal_rows_from].
  - split; [constructor|reflexivity].
  - destruct (IsEqualVectors v1 v2 threshold) as [e|] eqn:E.
    + split; [discriminate|]. intros H. inversion H; congruence.
    + rewrite (IH rows2 (i + 1)) by (simpl in Hlen; lia).
      split; [now constructor|]. intros H. now inversion H.
Qed.

Lemma IsEqualMatrices_Forall2 (m1 m2 : Matrix) (threshold : float) :
  IsEqualMatrices m1 m2 threshold = None <->
  Forall2 (fun v1 v2 => IsEqualVectors v1 v2 threshold = None) (Vectors m1) (Vectors m2).
Proof.
  unfold IsEqualMatrices, len.
  destruct (Z.eqb_spec (Z.of_nat (length (Vectors m1))) (Z.of_nat (length (Vectors m2))))
    as [H|H]; cbn [negb].
  - apply equal_rows_from_Forall2. lia.
  - split; [discriminate|]. intros HF. apply Forall2_length in HF. lia.
Qed.

Lemma equal_rows_from_Some (rows1 rows2 : list Vector) (i : Z) (threshold : float)
  (e : error) :
  equal_rows_from rows1 rows2 i threshold = Some e ->
  exists (k : nat) (v1 v2 : Vector) (cause : error),
    e = ErrAtIndex (i + Z.of_nat k) cause /\
    rows1 !! k = Some v1 /\ rows2 !! k = Some v2 /\
    IsEqualVectors v1 v2 threshold = Some cause /\
    Forall2 (fun w1 w2 => IsEqualVectors w1 w2 threshold = None)
            (take k rows1) (take k rows2).
Proof.
  revert rows2 i; induction rows1 as [|v1 rows1 IH]; intros [|v2 rows2] i;
    cbn [equal_rows_from]; try discriminate.
  destruct (IsEqualVectors v1 v2 threshold) as [cause|] eqn:E.
  - intros [= <-]. exists 0%nat, v1, v2, cause. rewrite Z.add_0_r.
    repeat split; [exact E|constructor].
  - intros H. apply IH in H as (k & w1 & w2 & cause & -> & H1 & H2 & H3 & H4).
    exists (S k), w1, w2, cause. repeat split; try assumption.
    + f_equal. lia.
    + cbn [take]. now constructor.
Qed.

(** X6.  [IsEqualMatrices] returns nil exactly when the matrices have the
    same number of rows and [IsEqualVectors] accepts every pair of rows of
    the same index. *)
Theorem IsEqualMatrices_nil_iff (m1 m2 : Matrix) (threshold : float) :
  IsEqualMatrices m1 m2 threshold = None <->
  length (Vectors m1) = length (Vectors m2) /\
  forall (i : nat) (v1 v2 : Vector),
    Vectors m1 !! i = Some v1 -> Vectors m2 !! i = Some v2 ->
    IsEqualVectors v1 v2 threshold = None.
Proof.
  rewrite IsEqualMatrices_Forall2. apply Forall2_same_length_lookup.
Qed.

(** X7.  An error of [IsEqualMatrices] is either the row-count error,
    returned for matrices with different numbers of rows before any row is
    compared, or the error of [IsEqualVectors] for the first pair of rows
    that it rejects, wrapped with the index of that row; the rows before it
    are all accepted. *)
Theorem IsEqualMatrices_first_failure
  (m1 m2 : Matrix) (threshold : float) (e : error) :
  IsEqualMatrices m1 m2 threshold = Some e ->
  (length (Vectors m1) <> length (Vectors m2) /\
   e = ErrRowCount (len (Vectors m1)) (len (Vectors m2))) \/
  (length (Vectors m1) = length (Vectors m2) /\
   exists (k : nat) (v1 v2 : Vector) (cause : error),
     e = ErrAtIndex (Z.of_nat k) cause /\
     Vectors m1 !! k = Some v1 /\ Vectors m2 !! k = Some v2 /\
     IsEqualVectors v1 v2 threshold = Some cause /\
     forall (j : nat) (w1 w2 : Vector),
       (j < k)%nat -> Vectors m1 !! j = Some w1 -> Vectors m2 !! j = Some w2 ->
       IsEqualVectors w1 w2 threshold = None).
Proof.
  unfold IsEqualMatrices, len.
  destruct (Z.eqb_spec (Z.of_nat (length (Vectors m1))) (Z.of_nat (length (Vectors m2))))
    as [H|H]; cbn [negb].
  - intros He. right. split; [lia|].
    apply equal_rows_from_Some in He as (k & v1 & v2 & cause & -> & H1 & H2 & H3 & H4).
    exists k, v1, v2, cause. repeat split; try assumption.
    intros j w1 w2 Hj Hw1 Hw2.
    eapply (Forall2_lookup_lr _ _ _ j w1 w2 H4); rewrite lookup_take_lt; assumption.
  - intros [= <-]. left. split; [lia|reflexivity].
Qed.

(** The hypothesis of X7 holds of two matrices whose rows of index [1]
    have different lengths: the error wraps the length error of that row. *)
Lemma IsEqualMatrices_first_failure_witness :
  let m1 := {| Vectors := [[1; 2]; [3]]%float |} in
  let m2 := {| Vectors := [[1; 2]; [3; 4]]%float |} in
  let e := ErrAtIndex 1 (ErrVectorLength 1 2) in
  IsEqualMatrices m1 m2 0%float = Some e /\
  ((length (Vectors m1) <> length (Vectors m2) /\
    e = ErrRowCount (len (Vectors m1)) (len (Vectors m2))) \/
   (length (Vectors m1) = length (Vectors m2) /\
    exists (k : nat) (v1 v2 : Vector) (cause : error),
      e = ErrAtIndex (Z.of_nat k) cause /\
      Vectors m1 !! k = Some v1 /\ Vectors m2 !! k = Some v2 /\
      IsEqualVectors v1 v2 0%float = Some cause /\
      forall (j : nat) (w1 w2 : Vector),
        (j < k)%nat -> Vectors m1 !! j = Some w1 -> Vectors m2 !! j = Some w2 ->
        IsEqualVectors w1 w2 0%float = None)).
Proof.
  split; [reflexivity|].
  apply (IsEqualMatrices_first_failure
           {| Vectors := [[1; 2]; [3]]%float |} {| Vectors := [[1; 2]; [3; 4]]%float |}
           0%float).
  reflexivity.
Defined.

(** X8.  [IsEqualMatrices] inherits the laws of [IsEqualVectors]: under
    the threshold zero every matrix is accepted against itself, whatever it
    holds; two matrices are accepted in one order exactly when they are in
    the other; and what is accepted under a threshold is accepted under a
    greater or equal one. *)
Theorem IsEqualMatrices_laws (m1 m2 : Matrix) (threshold threshold' : float) :
  IsEqualMatrices m1 m1 0%float = None /\
  (IsEqualMatrices m1 m2 threshold = None <-> IsEqualMatrices m2 m1 threshold = None) /\
  ((threshold <=? threshold')%float = true ->
   IsEqualMatrices m1 m2 threshold = None -> IsEqualMatrices m1 m2 threshold' = None).
Proof.
  rewrite !IsEqualMatrices_Forall2. split; [|split].
  - apply Forall_Forall2_diag, Forall_forall. intros v _.
    unfold IsEqualVectors. rewrite Z.eqb_refl. apply equal_from_diag.
  - split; intros H; apply Forall2_flip; eapply Forall2_impl; try exact H;
      intros v1 v2; cbn; rewrite !IsEqualVectors_Forall2; intros Hv;
      apply Forall2_flip; eapply Forall2_impl; try exact Hv;
      intros x y; cbn; unfold exceeds; rewrite float_abs_sub_comm; tauto.
  - intros Hle H. eapply Forall2_impl; [exact H|].
    intros v1 v2. rewrite !IsEqualVectors_Forall2. intros Hv.
    eapply Forall2_impl; [exact Hv|]. intros x1 x2. unfold exceeds. intros Hx.
    destruct (threshold' <? math.Abs (x1 - x2))%float eqn:E; [|reflexivity].
    rewrite (float_leb_ltb_trans _ _ _ Hle E) in Hx. discriminate.
Qed.

(** ** Where the root-mean-square error is defined *)

Lemma rmse_sum_from_inl Pow (rows1 rows2 : list Vector) (i : Z) (sum s : float) :
  length rows1 = length rows2 ->
  rmse_sum_from Pow rows1 rows2 i sum = inl s ->
  Forall2 (fun v1 v2 : Vector => length v1 = length v2) rows1 rows2.
Proof.
  revert rows2 i sum; induction rows1 as [|v1 rows1 IH]; intros [|v2 rows2] i sum Hlen;
    try discriminate; cbn [rmse_sum_from]; [constructor|].
  destruct (GetVectorRMSE Pow v1 v2) as [rmse [err|]] eqn:E; [discriminate|].
  intros H. constructor.
  - unfold GetVectorRMSE, len in E.
    destruct (Z.eqb_spec (Z.of_nat (length v1)) (Z.of_nat (length v2)));
      [lia|discriminate].
  - eapply IH; [simpl in Hlen; lia|exact H].
Qed.

Lemma rmse_sum_from_inr Pow (rows1 rows2 : list Vector) (i : Z) (sum : float) (e : error) :
  rmse_sum_from Pow rows1 rows2 i sum = inr e ->
  exists (k : nat) (v1 v2 : Vector),
    e = ErrAtIndex (i + Z.of_nat k) (ErrVectorLength (len v1) (len v2)) /\
    rows1 !! k = Some v1 /\ rows2 !! k = Some v2 /\ length v1 <> length v2 /\
    Forall2 (fun w1 w2 : Vector => length w1 = length w2) (take k rows1) (take k rows2).
Proof.
  revert rows2 i sum; induction rows1 as [|v1 rows1 IH]; intros [|v2 rows2] i sum;
    cbn [rmse_sum_from]; try discriminate.
  destruct (GetVectorRMSE Pow v1 v2) as [rmse [err|]] eqn:E.
  - intros [= <-]. apply GetVectorRMSE_error in E as (_ & Hne & ->).
    exists 0%nat, v1, v2. rewrite Z.add_0_r. repeat split; [exact Hne|constructor].
  - intros H. apply IH in H as (k & w1 & w2 & -> & H1 & H2 & H3 & H4).
    exists (S k), w1, w2. repeat split; try assumption.
    + f_equal. lia.
    + cbn [take]. constructor; [|exact H4].
      unfold GetVectorRMSE, len in E.
      destruct (Z.eqb_spec (Z.of_nat (length v1)) (Z.of_nat (length v2)));
        [lia|discriminate].
Qed.

Lemma IsEqualVectors_same_length (v1 v2 : Vector) (threshold : float) :
  IsEqualVectors v1 v2 threshold = None -> length v1 = length v2.
Proof. rewrite IsEqualVectors_Forall2. apply Forall2_length. Qed.

(** X9.  [GetMatrixRMSE] returns a nil error exactly for matrices of the
    same shape, whatever the elements are; in particular it returns a nil
    error for every pair of matrices that [IsEqualMatrices] accepts under
    some threshold. *)
Theorem GetMatrixRMSE_nil_iff
  (Pow : float -> float -> float) (m1 m2 : Matrix) (threshold : float) :
  (snd (GetMatrixRMSE Pow m1 m2) = None <-> same_shape m1 m2) /\
  (IsEqualMatrices m1 m2 threshold = None -> snd (GetMatrixRMSE Pow m1 m2) = None).
Proof.
  assert (Hiff : snd (GetMatrixRMSE Pow m1 m2) = None <-> same_shape m1 m2).
  { unfold same_shape. split.
    - unfold GetMatrixRMSE, len.
      destruct (Z.eqb_spec (Z.of_nat (length (Vectors m1))) (Z.of_nat (length (Vectors m2))))
        as [H|H]; cbn [negb]; [|discriminate].
      destruct (rmse_sum_from Pow _ _ 0 0%float) as [s|e] eqn:E; [|discriminate].
      intros _. eapply rmse_sum_from_inl; [lia|exact E].
    - intros H. unfold GetMatrixRMSE, len.
      rewrite (Forall2_length _ _ _ H), Z.eqb_refl. cbn [negb].
      now rewrite (rmse_sum_from_same_shape Pow _ _ 0 0%float H). }
  split; [exact Hiff|].
  intros H. apply Hiff. apply IsEqualMatrices_Forall2 in H.
  eapply Forall2_impl; [exact H|]. intros v1 v2. apply IsEqualVectors_same_length.
Qed.

(** X10.  An error of [GetMatrixRMSE] comes with the value [0] and is
    either the row-count error, or the length error of the first pair of
    rows of different lengths, wrapped with the index of that row. *)
Theorem GetMatrixRMSE_first_failure
  (Pow : float -> float -> float) (m1 m2 : Matrix) (x : float) (e : error) :
  GetMatrixRMSE Pow m1 m2 = (x, Some e) ->
  x = 0%float /\
  ((length (Vectors m1) <> length (Vectors m2) /\
    e = ErrRowCount (len (Vectors m1)) (len (Vectors m2))) \/
   (length (Vectors m1) = length (Vectors m2) /\
    exists (k : nat) (v1 v2 : Vector),
      e = ErrAtIndex (Z.of_nat k) (ErrVectorLength (len v1) (len v2)) /\
      Vectors m1 !! k = Some v1 /\ Vectors m2 !! k = Some v2 /\
      length v1 <> length v2 /\
      forall (j : nat) (w1 w2 : Vector),
        (j < k)%nat -> Vectors m1 !! j = Some w1 -> Vectors m2 !! j = Some w2 ->
        length w1 = length w2)).
Proof.
  unfold GetMatrixRMSE, len.
  destruct (Z.eqb_spec (Z.of_nat (length (Vectors m1))) (Z.of_nat (length (Vectors m2))))
    as [H|H]; cbn [negb].
  - destruct (rmse_sum_from Pow _ _ 0 0%float) as [s|e'] eqn:E; [discriminate|].
    intros [= <- <-]. split; [reflexivity|]. right. split; [lia|].
    apply rmse_sum_from_inr in E as (k & v1 & v2 & -> & H1 & H2 & H3 & H4).
    exists k, v1, v2. repeat split; try assumption.
    intros j w1 w2 Hj Hw1 Hw2.
    eapply (Forall2_lookup_lr _ _ _ j w1 w2 H4); rewrite lookup_take_lt; assumption.
  - intros [= <- <-]. split; [reflexivity|]. left. split; [lia|reflexivity].
Qed.

(** The hypothesis of X10 holds of two matrices whose rows of index [1]
    have different lengths. *)
Lemma GetMatrixRMSE_first_failure_witness :
  let m1 := {| Vectors := [[1; 2]; [3]]%float |} in
  let m2 := {| Vectors := [[1; 2]; [3; 4]]%float |} in
  let e := ErrAtIndex 1 (ErrVectorLength 1 2) in
  GetMatrixRMSE square_pow m1 m2 = (0%float, Some e) /\
  0%float = 0%float /\
  ((length (Vectors m1) <> length (Vectors m2) /\
    e = ErrRowCount (len (Vectors m1)) (len (Vectors m2))) \/
   (length (Vectors m1) = length (Vectors m2) /\
    exists (k : nat) (v1 v2 : Vector),
      e = ErrAtIndex (Z.of_nat k) (ErrVectorLength (len v1) (len v2)) /\
      Vectors m1 !! k = Some v1 /\ Vectors m2 !! k = Some v2 /\
      length v1 <> length v2 /\
      forall (j : nat) (w1 w2 : Vector),
        (j < k)%nat -> Vectors m1 !! j = Some w1 -> Vectors m2 !! j = Some w2 ->
        length w1 = length w2)).
Proof.
  split; [reflexivity|].
  apply (GetMatrixRMSE_first_failure square_pow
           {| Vectors := [[1; 2]; [3]]%float |} {| Vectors := [[1; 2]; [3; 4]]%float |}).
  reflexivity.
Defined.

(** ** Arg-max of vectors that hold NaN *)

Lemma SFltb_not_nan (x y : spec_float) :
  SFltb x y = true -> x <> S754_nan /\ y <> S754_nan.
Proof.
  destruct x as [[]|[]| |[] ? ?], y as [[]|[]| |[] ? ?];
    try (intros H; vm_compute in H; discriminate); intros _; split; discriminate.
Qed.

Lemma SFleb_not_ltb (x y : spec_float) : SFleb x y = true -> SFltb y x = false.
Proof. sf_order. Qed.

Lemma not_nan_IsNaN (x : float) : Prim2SF x <> S754_nan -> math.IsNaN x = false.
Proof.
  intros H. unfold math.IsNaN. rewrite FloatAxioms.eqb_spec.
  now rewrite SFeqb_refl.
Qed.

Lemma float_ltb_not_NaN (x y : float) :
  (x <? y)%float = true -> math.IsNaN x = false /\ math.IsNaN y = false.
Proof.
  rewrite ltb_spec. intros [Hx Hy]%SFltb_not_nan.
  split; now apply not_nan_IsNaN.
Qed.

Lemma float_leb_not_ltb (x y : float) :
  (x <=? y)%float = true -> (y <? x)%float = false.
Proof. rewrite leb_spec, ltb_spec. apply SFleb_not_ltb. Qed.

Lemma max_from_range (v : Vector) (idx : Z) (maxVal : float) (r : Z) :
  max_from v idx maxVal r = r \/ idx <= max_from v idx maxVal r < idx + len v.
Proof.
  revert idx maxVal r; induction v as [|i v IH]; intros idx maxVal r;
    cbn [max_from]; [now left|].
  assert (Hlen : len (i :: v) = len v + 1) by (unfold len; simpl length; lia).
  assert (0 <= len v) by (unfold len; lia).
  destruct (maxVal <? i)%float.
  - right. destruct (IH (idx + 1) i idx) as [-> | ?]; lia.
  - destruct (IH (idx + 1) maxVal r) as [-> | ?]; [now left|right; lia].
Qed.

Lemma max_from_invariant_NaN (rest p : Vector) (maxVal : float) (r : Z) :
  max_invariant_NaN p maxVal r ->
  exists maxVal',
    max_invariant_NaN (p ++ rest) maxVal' (max_from rest (len p) maxVal r).
Proof.
  revert p maxVal r; induction rest as [|x rest IH]; intros p maxVal r Hinv.
  - exists maxVal. rewrite app_nil_r. exact Hinv.
  - destruct Hinv as (Hm & Hle & Hr). cbn [max_from].
    replace (len p + 1) with (len (p ++ [x]))
      by (unfold len; rewrite length_app; simpl; lia).
    replace (p ++ x :: rest) with ((p ++ [x]) ++ rest)
      by (now rewrite <- app_assoc).
    destruct (maxVal <? x)%float eqn:Hlt.
    + destruct (float_ltb_not_NaN _ _ Hlt) as [_ Hx].
      apply IH. split; [exact Hx|]. split.
      * intros y [Hy| ->%list_elem_of_singleton]%elem_of_app Hnan.
        -- apply float_ltb_leb. eapply float_leb_ltb_trans; [now apply Hle|exact Hlt].
        -- now apply float_leb_refl.
      * right. split; [unfold len; lia|]. split; [|split].
        -- unfold len. rewrite Nat2Z.id. rewrite lookup_app_r by lia.
           now rewrite Nat.sub_diag.
        -- eapply float_leb_ltb_trans; [|exact Hlt]. now apply float_NegInf_leb.
        -- intros j y Hj Hy. unfold len in Hj.
           rewrite lookup_app_l in Hy by lia.
           destruct (math.IsNaN y) eqn:Hy'; [now left|right].
           eapply float_leb_ltb_trans; [|exact Hlt].
           apply Hle; [eapply list_elem_of_lookup_2; exact Hy|exact Hy'].
    + apply IH. split; [exact Hm|]. split.
      * intros y [Hy| ->%list_elem_of_singleton]%elem_of_app Hnan.
        -- now apply Hle.
        -- now apply float_not_ltb_leb.
      * destruct Hr as [Hr|(Hr0 & Hr1 & Hr2 & Hr3)]; [left; exact Hr|right].
        assert (Z.to_nat r < length p)%nat by (eapply lookup_lt_Some; exact Hr1).
        split; [exact Hr0|]. split; [|split; [exact Hr2|]].
        -- rewrite lookup_app_l by lia. exact Hr1.
        -- intros j y Hj Hy. rewrite lookup_app_l in Hy by lia. eauto.
Qed.

(** X11.  [GetVectorMaxIdx] fails exactly on the empty vector, with the
    index [-1]; on every other vector, NaN or not, the index it returns is
    an index of the vector. *)
Theorem GetVectorMaxIdx_index_in_range (v : Vector) :
  match GetVectorMaxIdx v with
  | (r, None) => v <> [] /\ 0 <= r < len v
  | (r, Some e) => v = [] /\ r = -1 /\ e = ErrEmptyVector
  end.
Proof.
  unfold GetVectorMaxIdx. destruct v as [|x v]; [easy|].
  assert (Hlen : 0 < len (x :: v)) by (unfold len; simpl length; lia).
  destruct (Z.eqb_spec (len (x :: v)) 0); [lia|].
  split; [discriminate|].
  destruct (max_from_range (x :: v) 0 math.NegInf 0) as [-> | ?]; lia.
Qed.

(** X12.  [GetVectorMaxIdx] passes over NaN.  On a non-empty vector it
    succeeds, and the index it returns is [0] when no element exceeds
    negative infinity (every element is a NaN or negative infinity).  When
    some element exceeds negative infinity, the element at the index it
    returns exceeds negative infinity, so that it is no NaN, is greater
    than or equal to every element that is no NaN, and every element before
    it is a NaN or is smaller: the index is that of the first maximum of
    the elements that are no NaN. *)
Theorem GetVectorMaxIdx_ignores_NaN (v : Vector) :
  v <> [] ->
  exists r, GetVectorMaxIdx v = (r, None) /\
    ((forall x, x ∈ v -> (math.NegInf <? x)%float = false) -> r = 0) /\
    ((exists x, x ∈ v /\ (math.NegInf <? x)%float = true) ->
     0 <= r /\ exists m,
       v !! Z.to_nat r = Some m /\
       (math.NegInf <? m)%float = true /\ math.IsNaN m = false /\
       (forall x, x ∈ v -> math.IsNaN x = false -> (x <=? m)%float = true) /\
       (forall j y, 0 <= j < r -> v !! Z.to_nat j = Some y ->
                    math.IsNaN y = true \/ (y <? m)%float = true)).
Proof.
  intros Hne. unfold GetVectorMaxIdx.
  destruct (Z.eqb_spec (len v) 0) as [H0|H0].
  { destruct v; [congruence|]. unfold len in H0. simpl in H0. lia. }
  eexists. split; [reflexivity|].
  destruct (max_from_invariant_NaN v [] math.NegInf 0) as (maxVal' & Hm & Hle & Hr).
  { split; [reflexivity|]. split; [intros x Hx; inversion Hx|]. left. auto. }
  cbn [app] in *. change (len []) with 0 in *.
  destruct Hr as [[-> ->]|(Hr0 & Hr1 & Hr2 & Hr3)].
  - split; [reflexivity|]. intros (x & Hx & E).
    destruct (float_ltb_not_NaN _ _ E) as [_ Hnan].
    rewrite (float_leb_not_ltb _ _ (Hle x Hx Hnan)) in E. discriminate.
  - split.
    + intros Hnone. apply list_elem_of_lookup_2 in Hr1.
      rewrite (Hnone _ Hr1) in Hr2. discriminate.
    + intros _. split; [exact Hr0|]. exists maxVal'. auto.
Qed.

(** The hypothesis of X12 holds of a vector that starts with a NaN and
    holds its maximum twice, where the index is that of the first maximum,
    and of a vector of a NaN and negative infinity, where the index is
    [0]. *)
Lemma GetVectorMaxIdx_ignores_NaN_witness :
  GetVectorMaxIdx [nan; 2; nan; 7; 7]%float = (3, None) /\
  GetVectorMaxIdx [nan; neg_infinity]%float = (0, None) /\
  (exists r, GetVectorMaxIdx [nan; 2; nan; 7; 7]%float = (r, None) /\
     ((forall x, x ∈ [nan; 2; nan; 7; 7]%float -> (math.NegInf <? x)%float = false) ->
      r = 0) /\
     ((exists x, x ∈ [nan; 2; nan; 7; 7]%float /\ (math.NegInf <? x)%float = true) ->
      0 <= r /\ exists m,
        [nan; 2; nan; 7; 7]%float !! Z.to_nat r = Some m /\
        (math.NegInf <? m)%float = true /\ math.IsNaN m = false /\
        (forall x, x ∈ [nan; 2; nan; 7; 7]%float -> math.IsNaN x = false ->
                   (x <=? m)%float = true) /\
        (forall j y, 0 <= j < r -> [nan; 2; nan; 7; 7]%float !! Z.to_nat j = Some y ->
                     math.IsNaN y = true \/ (y <? m)%float = true))) /\
  (exists r, GetVectorMaxIdx [nan; neg_infinity]%float = (r, None) /\
     ((forall x, x ∈ [nan; neg_infinity]%float -> (math.NegInf <? x)%float = false) ->
      r = 0) /\
     ((exists x, x ∈ [nan; neg_infinity]%float /\ (math.NegInf <? x)%float = true) ->
      0 <= r /\ exists m,
        [nan; neg_infinity]%float !! Z.to_nat r = Some m /\
        (math.NegInf <? m)%float = true /\ math.IsNaN m = false /\
        (forall x, x ∈ [nan; neg_infinity]%float -> math.IsNaN x = false ->
                   (x <=? m)%float = true) /\
        (forall j y, 0 <= j < r -> [nan; neg_infinity]%float !! Z.to_nat j = Some y ->
                     math.IsNaN y = true \/ (y <? m)%float = true))).
Proof.
  split; [reflexivity|]. split; [reflexivity|]. split.
  - apply (GetVectorMaxIdx_ignores_NaN [nan; 2; nan; 7; 7]%float). discriminate.
  - apply (GetVectorMaxIdx_ignores_NaN [nan; neg_infinity]%float). discriminate.
Defined.

(** ** Conversions to slices *)

Lemma flatten_rows (rows : list Vector) (result : list float) :
  fold_left (fun result v => result ++ v) rows result = result ++ concat rows.
Proof.
  revert result; induction rows as [|v rows IH]; intros result; simpl.
  - now rewrite app_nil_r.
  - rewrite IH. now rewrite <- app_assoc.
Qed.

(** X13.  [Matrix.ToFloat64] returns the rows of the matrix, element for
    element, and [Matrix.Flatten] returns these rows one after the other:
    the elements in row-major order, as many as the rows hold together. *)
Theorem Matrix_Flatten_ToFloat64 (m : Matrix) :
  Matrix_ToFloat64 m = Vectors m /\
  Matrix_Flatten m = concat (Matrix_ToFloat64 m) /\
  length (Matrix_Flatten m) = sum_list (length <$> Vectors m).
Proof.
  assert (H : Matrix_ToFloat64 m = Vectors m).
  { unfold Matrix_ToFloat64. rewrite <- (map_id (Vectors m)) at 2.
    apply map_ext. intros v. apply map_id. }
  unfold Matrix_Flatten. rewrite H, flatten_rows. cbn [app].
  split; [reflexivity|split; [reflexivity|]]. clear H.
  induction (Vectors m) as [|v rows IH]; [reflexivity|].
  rewrite fmap_cons. cbn [concat sum_list sum_list_with]. rewrite length_app, IH.
  reflexivity.
Qed.

Lemma sparse_flatten_rows (range : SparseVector -> list (Z * float))
  (vecs : list SparseVector) (result : list float) :
  fold_left
    (fun result v => fold_left (fun result kv => result ++ [snd kv]) (range v) result)
    vecs result =
  result ++ concat (map (fun v => (range v).*2) vecs).
Proof.
  revert result; induction vecs as [|v vecs IH]; intros result; simpl.
  - now rewrite app_nil_r.
  - rewrite IH, range_values. now rewrite <- app_assoc.
Qed.

Lemma SparseMatrix_ToFloat64_rows (range : SparseVector -> list (Z * float))
  (m : SparseMatrix) :
  SparseMatrix_ToFloat64 range m = map (fun v => (range v).*2) (SVectors m).
Proof.
  unfold SparseMatrix_ToFloat64. apply map_ext. intros v. now rewrite range_values.
Qed.

Lemma SparseMatrix_Flatten_rows (range : SparseVector -> list (Z * float))
  (m : SparseMatrix) :
  SparseMatrix_Flatten range m = concat (map (fun v => (range v).*2) (SVectors m)).
Proof. unfold SparseMatrix_Flatten. now rewrite sparse_flatten_rows. Qed.

Lemma concat_Permutation {A : Type} (xss yss : list (list A)) :
  Forall2 Permutation xss yss -> concat xss ≡ₚ concat yss.
Proof.
  induction 1 as [|xs ys xss yss Hxy _ IH]; [reflexivity|].
  simpl. now rewrite Hxy, IH.
Qed.

(** X14.  Whatever orders the [range] statements of [SparseMatrix.Flatten]
    and [SparseMatrix.ToFloat64] visit the maps in, [ToFloat64] returns one
    row per sparse vector, with as many values as the vector stores
    entries, rows that a second call returns rearranged at most, and
    [Flatten] returns a rearrangement of the values of these rows: as many
    values as the matrix stores entries. *)
Theorem SparseMatrix_Flatten_ToFloat64
  (range1 range2 : SparseVector -> list (Z * float)) (m : SparseMatrix)
  (Hrange1 : forall v, range1 v ≡ₚ map_to_list v)
  (Hrange2 : forall v, range2 v ≡ₚ map_to_list v) :
  Forall2 (fun (v : SparseVector) (row : list float) => length row = size v)
          (SVectors m) (SparseMatrix_ToFloat64 range1 m) /\
  Forall2 Permutation (SparseMatrix_ToFloat64 range1 m) (SparseMatrix_ToFloat64 range2 m) /\
  SparseMatrix_Flatten range2 m ≡ₚ concat (SparseMatrix_ToFloat64 range1 m) /\
  length (SparseMatrix_Flatten range2 m) = sum_list (size <$> SVectors m).
Proof.
  rewrite !SparseMatrix_ToFloat64_rows, SparseMatrix_Flatten_rows.
  assert (Hrows : Forall2 Permutation
                    (map (fun v => (range1 v).*2) (SVectors m))
                    (map (fun v => (range2 v).*2) (SVectors m))).
  { induction (SVectors m) as [|v vecs IH]; constructor; [|exact IH].
    now rewrite Hrange1, Hrange2. }
  split; [|split; [exact Hrows|split]].
  - induction (SVectors m) as [|v vecs IH]; constructor.
    + rewrite length_fmap, Hrange1. apply length_map_to_list.
    + inversion Hrows; subst. now apply IH.
  - symmetry. now apply concat_Permutation.
  - induction (SVectors m) as [|v vecs IH]; [reflexivity|].
    cbn. rewrite length_app, length_fmap, Hrange2.
    inversion Hrows; subst. rewrite IH by assumption. f_equal.
    apply length_map_to_list.
Qed.

(** The hypotheses of X14 hold of the order in which [map_to_list] lists a
    map, here for a matrix of a vector of two entries and an empty one. *)
Lemma SparseMatrix_Flatten_ToFloat64_witness :
  let m := {| SVectors := [ {[ 3 := 0.5%float; 7 := 2%float ]}; ∅ ] |} in
  Forall2 (fun (v : SparseVector) (row : list float) => length row = size v)
          (SVectors m) (SparseMatrix_ToFloat64 map_to_list m) /\
  Forall2 Permutation (SparseMatrix_ToFloat64 map_to_list m)
          (SparseMatrix_ToFloat64 map_to_list m) /\
  SparseMatrix_Flatten map_to_list m ≡ₚ concat (SparseMatrix_ToFloat64 map_to_list m) /\
  length (SparseMatrix_Flatten map_to_list m) = sum_list (size <$> SVectors m).
Proof.
  exact (SparseMatrix_Flatten_ToFloat64 map_to_list map_to_list
           {| SVectors := [ {[ 3 := 0.5%float; 7 := 2%float ]}; ∅ ] |}
           (fun v => Permutation_refl (map_to_list v))
           (fun v => Permutation_refl (map_to_list v))).
Defined.

Lemma filter_concat {A : Type} (f : A -> bool) (xss : list (list A)) :
  List.filter f (concat xss) = concat (map (List.filter f) xss).
Proof.
  induction xss as [|xs xss IH]; [reflexivity|].
  simpl. now rewrite List.filter_app, IH.
Qed.

(** X15.  A dense slice turned into a sparse matrix and flattened yields a
    rearrangement of the non-zero values of the slice in row-major order:
    the zeros are gone, and with them the positions of the values.  The
    values of a row stay together, before those of the rows after it. *)
Theorem sparse_from_slice_Flatten
  (range : SparseVector -> list (Z * float)) (data : list (list float))
  (Hrange : forall v, range v ≡ₚ map_to_list v) :
  let flat := SparseMatrix_Flatten range (fst (GetSparseMatrixFromSlice data)) in
  flat ≡ₚ List.filter nonzero (Matrix_Flatten {| Vectors := data |}) /\
  exists rows : list (list float),
    flat = concat rows /\
    Forall2 (fun row values => values ≡ₚ List.filter nonzero row) data rows.
Proof.
  cbv zeta. rewrite SparseMatrix_Flatten_rows. cbn [GetSparseMatrixFromSlice fst].
  rewrite sparse_of_rows_spec. cbn [SVectors app]. rewrite map_map.
  assert (Hrows : Forall2 (fun row values => values ≡ₚ List.filter nonzero row) data
                    (map (fun row => (range (sparse_of_row row 0 ∅)).*2) data)).
  { induction data as [|row data IH]; simpl; constructor; [|exact IH].
    rewrite (Hrange _), sparse_of_row_values by (intros; apply lookup_empty).
    rewrite map_to_list_empty. simpl. now rewrite app_nil_r. }
  split; [|eexists; split; [reflexivity|exact Hrows]].
  unfold Matrix_Flatten. cbn [Vectors]. rewrite flatten_rows. cbn [app].
  rewrite filter_concat. apply concat_Permutation.
  clear -Hrows. induction Hrows as [|row values data rows Hv _ IH]; simpl; constructor;
    [exact Hv|exact IH].
Qed.

(** The hypothesis of X15 holds of the order in which [map_to_list] lists
    a map. *)
Lemma sparse_from_slice_Flatten_witness :
  let data := [[0; 1.5; -0; 2]; []; [0]; [nan; 0; 3]]%float in
  let flat := SparseMatrix_Flatten map_to_list (fst (GetSparseMatrixFromSlice data)) in
  flat ≡ₚ List.filter nonzero (Matrix_Flatten {| Vectors := data |}) /\
  exists rows : list (list float),
    flat = concat rows /\
    Forall2 (fun row values => values ≡ₚ List.filter nonzero row) data rows.
Proof.
  exact (sparse_from_slice_Flatten map_to_list
           [[0; 1.5; -0; 2]; []; [0]; [nan; 0; 3]]%float
           (fun v => Permutation_refl (map_to_list v))).
Defined.

Lemma sparse_of_row_app (row zs : list float) (j : Z) (vec : SparseVector) :
  sparse_of_row (row ++ zs) j vec = sparse_of_row zs (j + len row) (sparse_of_row row j vec).
Proof.
  revert j vec; induction row as [|x row IH]; intros j vec.
  - cbn [app sparse_of_row]. change (len []) with 0. now rewrite Z.add_0_r.
  - cbn [app sparse_of_row]. rewrite IH. f_equal. unfold len. simpl length. lia.
Qed.

Lemma sparse_of_row_zeros (zs : list float) (j : Z) (vec : SparseVector) :
  Forall (fun z => nonzero z = false) zs -> sparse_of_row zs j vec = vec.
Proof.
  intros H; revert j; induction H as [|z zs Hz _ IH]; intros j; [reflexivity|].
  cbn [sparse_of_row]. fold (nonzero z). rewrite Hz. apply IH.
Qed.

(** X16.  The sparse matrix does not record the width of the dense rows:
    rows that differ only by zeros at their ends, of either sign, give the
    same sparse matrix. *)
Theorem GetSparseMatrixFromSlice_trailing_zeros (data data' : list (list float)) :
  Forall2 (fun row row' =>
             exists zs, row' = row ++ zs /\ Forall (fun z => nonzero z = false) zs)
          data data' ->
  GetSparseMatrixFromSlice data' = GetSparseMatrixFromSlice data.
Proof.
  intros H. unfold GetSparseMatrixFromSlice. f_equal.
  generalize {| SVectors := [] |}.
  induction H as [|row row' data data' (zs & -> & Hzs) _ IH]; intros sm; [reflexivity|].
  cbn [sparse_of_rows]. rewrite sparse_of_row_app, (sparse_of_row_zeros zs _ _ Hzs).
  apply IH.
Qed.

(** The hypothesis of X16 holds of a slice of two rows, the first of which
    is extended by a zero of each sign. *)
Lemma GetSparseMatrixFromSlice_trailing_zeros_witness :
  GetSparseMatrixFromSlice [[1; 0; 2; 0; -0]; [3]]%float =
  GetSparseMatrixFromSlice [[1; 0; 2]; [3]]%float.
Proof.
  apply (GetSparseMatrixFromSlice_trailing_zeros [[1; 0; 2]; [3]]%float
           [[1; 0; 2; 0; -0]; [3]]%float).
  constructor; [exists [0; -0]%float; split; [reflexivity|now repeat constructor]|].
  constructor; [exists []; split; [reflexivity|constructor]|constructor].
Defined.

(** ** Entries of a sparse row *)

Lemma fold_insert_lookup (entries : list (Z * float)) (vec : SparseVector) (k : Z) :
  fold_left (fun vec e => <[fst e := snd e]> vec) entries vec !! k =
  match entry_at entries k with
  | Some x => Some x
  | None => vec !! k
  end.
Proof.
  unfold entry_at. revert vec; induction entries as [|[i x] entries IH]; intros vec.
  - reflexivity.
  - cbn [fold_left List.filter fst snd]. rewrite IH.
    destruct (Z.eqb_spec i k) as [->|Hne].
    + destruct (List.filter _ entries) as [|e es] eqn:E.
      * cbn. apply lookup_insert_eq.
      * rewrite last_cons_cons.
        destruct (last (e :: es)) eqn:El; [reflexivity|].
        apply last_None in El. discriminate.
    + destruct (last (List.filter _ entries)); cbn; [reflexivity|].
      now apply lookup_insert_ne.
Qed.

(** X17.  In a line of the sparse format a later token overrides an
    earlier one of the same index: when every token after the label is an
    entry, the row stores, at each index, the value of the last token of
    that index, and nothing at an index that no token names. *)
Theorem libsvm_last_token_wins
  (ParseFloat : string -> float * option strconv.NumError)
  (tokens : list string) (entries : list (Z * float)) :
  mapM (sparse_pair ParseFloat) tokens = Some entries ->
  exists vec : SparseVector,
    libsvm_pairs ParseFloat tokens ∅ = inl vec /\
    (forall k, vec !! k = entry_at entries k) /\
    (size vec <= length tokens)%nat.
Proof.
  intros H. rewrite (libsvm_pairs_entries _ _ _ _ H). eexists. split; [reflexivity|].
  split.
  - intros k. rewrite fold_insert_lookup, lookup_empty.
    now destruct (entry_at entries k).
  - apply length_mapM in H. rewrite H. clear H.
    assert (Hsize : forall (vec : SparseVector),
               (size (fold_left (fun vec e => <[fst e := snd e]> vec) entries vec)
                <= size vec + length entries)%nat).
    { induction entries as [|e es IH]; intros vec; cbn [fold_left length]; [lia|].
      etransitivity; [apply IH|].
      pose proof (map_size_insert (fst e) (snd e) vec) as Hs.
      rewrite Hs. destruct (vec !! fst e); unfold id; lia. }
    specialize (Hsize ∅). now rewrite map_size_empty in Hsize.
Qed.

(** The hypothesis of X17 holds of the tokens of a line that names the
    index [3] twice: the row stores the second value. *)
Lemma libsvm_last_token_wins_witness :
  libsvm_pairs strconv.ParseFloatDecimal ["3:0.5"; "7:2.0"; "3:4"] ∅ =
    inl ({[ 3 := 4%float; 7 := 2%float ]} : SparseVector) /\
  exists vec : SparseVector,
    libsvm_pairs strconv.ParseFloatDecimal ["3:0.5"; "7:2.0"; "3:4"] ∅ = inl vec /\
    (forall k, vec !! k = entry_at [(3, 0.5%float); (7, 2%float); (3, 4%float)] k) /\
    (size vec <= length ["3:0.5"; "7:2.0"; "3:4"])%nat.
Proof.
  split.
  - vm_compute. reflexivity.
  - apply (libsvm_last_token_wins strconv.ParseFloatDecimal ["3:0.5"; "7:2.0"; "3:4"]
             [(3, 0.5%float); (7, 2%float); (3, 4%float)]).
    vm_compute. reflexivity.
Defined.

(** ** Where the readers stop *)

Lemma join_lines_cons (l : string) (lines : list string) (text : string) :
  (join_lines (l :: lines) ++ text = l ++ String newline (join_lines lines ++ text))%string.
Proof.
  cbn [join_lines]. unfold nl. now rewrite !sapp_assoc, sapp_cons, sapp_nil_l.
Qed.

Lemma libsvm_loop_blank ParseFloat (lines : list string) (blank rest : string)
  (sm : SparseMatrix) :
  Forall (fun l => has_newline l = false) lines ->
  has_newline blank = false -> is_empty (strings.TrimSpace blank) = true ->
  libsvm_loop ParseFloat
    {| bufio.unread := join_lines lines ++ blank ++ nl ++ rest; bufio.final := io_EOF |} sm =
  libsvm_loop ParseFloat
    {| bufio.unread := join_lines lines; bufio.final := io_EOF |} sm.
Proof.
  intros Hlines Hnl Hblank; revert sm.
  induction Hlines as [|l lines Hl _ IH]; intros sm.
  - cbn [join_lines]. rewrite sapp_nil_l. unfold nl. rewrite sapp_cons, sapp_nil_l.
    rewrite libsvm_loop_line by exact Hnl. rewrite Hblank.
    now rewrite libsvm_loop_end.
  - rewrite join_lines_cons. rewrite <- (sapp_nil_r (join_lines (l :: lines))).
    rewrite join_lines_cons. rewrite sapp_nil_r.
    rewrite !libsvm_loop_line by exact Hl.
    destruct (is_empty (strings.TrimSpace l)); [reflexivity|].
    destruct (libsvm_line _ _); [apply IH|reflexivity].
Qed.

Lemma csv_loop_blank ParseFloat delimiter defaultVal (lines : list string)
  (blank rest : string) (m : Matrix) (c r : Z) :
  Forall (fun l => has_newline l = false) lines ->
  has_newline blank = false -> is_empty (strings.TrimSpace blank) = true ->
  csv_loop ParseFloat delimiter defaultVal
    {| st_reader := {| bufio.unread := join_lines lines ++ blank ++ nl ++ rest;
                       bufio.final := io_EOF |};
       st_matrix := m; st_colDim := c; st_row := r |} =
  csv_loop ParseFloat delimiter defaultVal
    {| st_reader := {| bufio.unread := join_lines lines; bufio.final := io_EOF |};
       st_matrix := m; st_colDim := c; st_row := r |}.
Proof.
  intros Hlines Hnl Hblank; revert m c r.
  induction Hlines as [|l lines Hl _ IH]; intros m c r.
  - cbn [join_lines]. rewrite sapp_nil_l. unfold nl. rewrite sapp_cons, sapp_nil_l.
    rewrite csv_loop_line by exact Hnl. rewrite Hblank.
    now rewrite csv_loop_eof.
  - rewrite join_lines_cons. rewrite <- (sapp_nil_r (join_lines (l :: lines))).
    rewrite join_lines_cons. rewrite sapp_nil_r.
    rewrite !csv_loop_line by exact Hl.
    destruct (is_empty (strings.TrimSpace l)); [reflexivity|].
    unfold csv_row. cbn [st_matrix st_colDim st_row].
    destruct (csv_fields _ _ _ _); [|reflexivity].
    destruct (c =? -1); [apply IH|].
    destruct (negb _); [reflexivity|apply IH].
Qed.

(** X18.  Both readers stop at the first blank line, a line that holds
    nothing but white space, and report no error: whatever follows it, text
    that would not parse included, is not read, and the result is that of
    the lines before it. *)
Theorem blank_line_ends_reading
  (ParseFloat : string -> float * option strconv.NumError)
  (fileName delimiter : string) (defaultVal : float)
  (lines : list string) (blank rest : string) :
  Forall (fun l => has_newline l = false) lines ->
  has_newline blank = false -> is_empty (strings.TrimSpace blank) = true ->
  ReadLibsvmFileToSparseMatrix ParseFloat
    (single_file fileName (join_lines lines ++ blank ++ nl ++ rest)) fileName =
  ReadLibsvmFileToSparseMatrix ParseFloat
    (single_file fileName (join_lines lines)) fileName /\
  ReadCSVFileToDenseMatrix ParseFloat
    (single_file fileName (join_lines lines ++ blank ++ nl ++ rest))
    fileName delimiter defaultVal =
  ReadCSVFileToDenseMatrix ParseFloat
    (single_file fileName (join_lines lines)) fileName delimiter defaultVal.
Proof.
  intros Hlines Hnl Hblank.
  unfold ReadLibsvmFileToSparseMatrix, ReadCSVFileToDenseMatrix.
  rewrite !single_file_open. unfold bufio.NewReader. cbn [os.contents os.read_error].
  split; [now apply libsvm_loop_blank|now apply csv_loop_blank].
Qed.

(** The hypotheses of X18 hold of a file whose second line holds a space
    and a tab and whose third line is no row of either format. *)
Lemma blank_line_ends_reading_witness :
  let blank := String " " (String (ascii_of_N 9) EmptyString) in
  ReadLibsvmFileToSparseMatrix strconv.ParseFloatDecimal
    (single_file "f" (join_lines ["1 0:2"] ++ blank ++ nl ++ "x")) "f" =
  ReadLibsvmFileToSparseMatrix strconv.ParseFloatDecimal
    (single_file "f" (join_lines ["1 0:2"])) "f" /\
  ReadCSVFileToDenseMatrix strconv.ParseFloatDecimal
    (single_file "f" (join_lines ["1 0:2"] ++ blank ++ nl ++ "x")) "f" " 0:" 0%float =
  ReadCSVFileToDenseMatrix strconv.ParseFloatDecimal
    (single_file "f" (join_lines ["1 0:2"])) "f" " 0:" 0%float.
Proof.
  apply (blank_line_ends_reading strconv.ParseFloatDecimal "f" " 0:" 0%float
           ["1 0:2"] (String " " (String (ascii_of_N 9) EmptyString)) "x").
  - repeat constructor.
  - reflexivity.
  - reflexivity.
Defined.

Lemma libsvm_loop_rows_then ParseFloat (text : string) (fin : error) :
  forall (lines : list string) (rows : list SparseVector) (sm : SparseMatrix),
    Forall2 (fun l row => sparse_row ParseFloat l = Some row) lines rows ->
    libsvm_loop ParseFloat
      {| bufio.unread := join_lines lines ++ text; bufio.final := fin |} sm =
    libsvm_loop ParseFloat
      {| bufio.unread := text; bufio.final := fin |} {| SVectors := SVectors sm ++ rows |}.
Proof.
  intros lines rows sm H; revert sm;
    induction H as [|l row lines rows Hl Hrest IH]; intros sm.
  - cbn [join_lines]. rewrite sapp_nil_l, app_nil_r. destruct sm; reflexivity.
  - apply sparse_row_Some in Hl as (Hnl & Hblank & Hline).
    rewrite join_lines_cons.
    rewrite libsvm_loop_line by exact Hnl. rewrite Hblank, Hline.
    rewrite IH. cbn [SVectors]. now rewrite <- app_assoc.
Qed.

Lemma csv_loop_read_error ParseFloat delimiter defaultVal (s : string) (fin : error)
  (m : Matrix) (c r : Z) :
  has_newline s = false -> is_EOF fin = false ->
  csv_loop ParseFloat delimiter defaultVal
    {| st_reader := {| bufio.unread := s; bufio.final := fin |};
       st_matrix := m; st_colDim := c; st_row := r |} =
  ({| Vectors := [] |}, Some fin).
Proof.
  intros Hs Hfin. rewrite csv_loop_step. unfold csv_step, bufio.ReadString.
  cbn [st_reader bufio.unread bufio.final].
  rewrite (cut_no_newline s Hs), Hfin. reflexivity.
Qed.

(** X19.  A failure of reading is returned as it is, with no row: when the
    file delivers lines that are rows, then a last piece of text, and then
    fails with an error other than the end of the file, each reader returns
    that very error, not wrapped, and the empty matrix; the rows read
    before the failure are given up. *)
Theorem read_error_is_returned
  (ParseFloat : string -> float * option strconv.NumError)
  (fs : os.FileSystem) (fileName delimiter : string) (defaultVal : float)
  (lines : list string) (tail : string) (e : error) :
  os.Open fs fileName =
    inl {| os.contents := join_lines lines ++ tail; os.read_error := Some e |} ->
  is_EOF e = false -> has_newline tail = false ->
  (forall rows : list SparseVector,
     Forall2 (fun l row => sparse_row ParseFloat l = Some row) lines rows ->
     ReadLibsvmFileToSparseMatrix ParseFloat fs fileName =
     ({| SVectors := [] |}, Some e)) /\
  (forall w : nat,
     Forall (fun l => row_width ParseFloat delimiter defaultVal l = Some w) lines ->
     ReadCSVFileToDenseMatrix ParseFloat fs fileName delimiter defaultVal =
     ({| Vectors := [] |}, Some e)).
Proof.
  intros Hopen He Htail.
  unfold ReadLibsvmFileToSparseMatrix, ReadCSVFileToDenseMatrix.
  rewrite Hopen. unfold bufio.NewReader. cbn [os.contents os.read_error].
  split.
  - intros rows Hrows. rewrite (libsvm_loop_rows_then _ _ _ _ _ _ Hrows).
    rewrite libsvm_loop_end by exact Htail. now rewrite He.
  - intros w Hlines.
    destruct (csv_loop_rows ParseFloat delimiter defaultVal w tail e lines
                {| Vectors := [] |} (-1) 0 Hlines) as (vs & _ & ->); [now left|].
    now apply csv_loop_read_error.
Qed.

(** The hypotheses of X19 hold of a file that delivers one line and half
    of a second one before its reading fails. *)
Lemma read_error_is_returned_witness :
  let fs := broken_file "f" (join_lines ["1 0:2"] ++ "3 0") (io_failure "input/output error") in
  ReadLibsvmFileToSparseMatrix strconv.ParseFloatDecimal fs "f" =
    ({| SVectors := [] |}, Some (io_failure "input/output error")) /\
  ReadCSVFileToDenseMatrix strconv.ParseFloatDecimal fs "f" " 0:" 0%float =
    ({| Vectors := [] |}, Some (io_failure "input/output error")).
Proof.
  pose proof (read_error_is_returned strconv.ParseFloatDecimal
                (broken_file "f" (join_lines ["1 0:2"] ++ "3 0")
                             (io_failure "input/output error"))
                "f" " 0:" 0%float ["1 0:2"] "3 0" (io_failure "input/output error")
                eq_refl eq_refl eq_refl) as [Hsparse Hdense].
  split.
  - apply (Hsparse [ {[ 0 := 2%float ]} ]). repeat constructor.
  - apply (Hdense 2%nat). repeat constructor.
Defined.

(** ** Line ends of DOS *)

Lemma space2_ascii_space (c0 c : ascii) :
  unicode.ascii_space c = true -> unicode.space2 c0 c = false.
Proof.
  unfold unicode.ascii_space, unicode.space2. intros H.
  assert (Hc : (byte_of c <= 32)%N).
  { apply orb_true_iff in H as [[_ H]%andb_true_iff|H].
    - apply N.leb_le in H. lia.
    - apply N.eqb_eq in H. lia. }
  destruct (N.eqb_spec (byte_of c) 0x85); [lia|].
  destruct (N.eqb_spec (byte_of c) 0xA0); [lia|].
  now rewrite andb_false_r.
Qed.

Lemma space3_ascii_space (c0 c1 c : ascii) :
  unicode.ascii_space c = true -> unicode.space3 c0 c1 c = false.
Proof.
  unfold unicode.ascii_space, unicode.space3. intros H.
  assert (Hc : (byte_of c <= 32)%N).
  { apply orb_true_iff in H as [[_ H]%andb_true_iff|H].
    - apply N.leb_le in H. lia.
    - apply N.eqb_eq in H. lia. }
  cbv zeta.
  destruct (N.eqb_spec (byte_of c) 0x80); [lia|].
  destruct (N.leb_spec 0x80 (byte_of c)); [lia|].
  destruct (N.eqb_spec (byte_of c) 0xA8); [lia|].
  destruct (N.eqb_spec (byte_of c) 0xA9); [lia|].
  destruct (N.eqb_spec (byte_of c) 0xAF); [lia|].
  destruct (N.eqb_spec (byte_of c) 0x9F); [lia|].
  cbn [andb orb]. now rewrite !andb_false_r.
Qed.

Lemma TrimLeftSpace_app_space (c : ascii) (s : string) :
  unicode.ascii_space c = true ->
  strings.TrimLeftSpace (s ++ String c EmptyString) =
  if is_empty (strings.TrimLeftSpace s) then EmptyString
  else (strings.TrimLeftSpace s ++ String c EmptyString)%string.
Proof.
  intros Hc. remember (slen s) as n eqn:Hn. revert s Hn.
  induction n as [n IH] using lt_wf_ind; intros s Hn.
  assert (IH' : forall s' : string, (slen s' < n)%nat ->
            strings.TrimLeftSpace (s' ++ String c EmptyString) =
            if is_empty (strings.TrimLeftSpace s') then EmptyString
            else (strings.TrimLeftSpace s' ++ String c EmptyString)%string)
    by (intros s' Hs'; exact (IH _ Hs' s' eq_refl)).
  clear IH.
  destruct s as [|c0 t1].
  { rewrite sapp_nil_l, TrimLeftSpace_cons, Hc. reflexivity. }
  rewrite sapp_cons, (TrimLeftSpace_cons c0 t1), (TrimLeftSpace_cons c0 (t1 ++ _)).
  destruct (unicode.ascii_space c0) eqn:E0;
    [apply IH'; subst n; unfold slen; simpl; lia|].
  destruct t1 as [|c1 t2].
  { rewrite sapp_nil_l. cbv beta iota. now rewrite space2_ascii_space. }
  rewrite sapp_cons. cbv beta iota.
  destruct (unicode.space2 c0 c1) eqn:E1;
    [apply IH'; subst n; unfold slen; simpl; lia|].
  destruct t2 as [|c2 t3].
  { rewrite sapp_nil_l. cbv beta iota. now rewrite space3_ascii_space. }
  rewrite sapp_cons. cbv beta iota.
  destruct (unicode.space3 c0 c1 c2) eqn:E2; [|reflexivity].
  apply IH'; subst n; unfold slen; simpl; lia.
Qed.

Lemma TrimLeftSpaceRev_cons_space (c : ascii) (s : string) :
  unicode.ascii_space c = true ->
  strings.TrimLeftSpaceRev (String c s) = strings.TrimLeftSpaceRev s.
Proof. intros Hc. cbn [strings.TrimLeftSpaceRev]. now rewrite Hc. Qed.

Lemma TrimSpace_app_space (c : ascii) (s : string) :
  unicode.ascii_space c = true ->
  strings.TrimSpace (s ++ String c EmptyString) = strings.TrimSpace s.
Proof.
  intros Hc. unfold strings.TrimSpace. rewrite (TrimLeftSpace_app_space c s Hc).
  destruct (strings.TrimLeftSpace s) as [|x t] eqn:E; [reflexivity|].
  cbn [is_empty]. unfold strings.TrimRightSpace, srev.
  rewrite srev_append_app. cbn [srev_append].
  now rewrite (TrimLeftSpaceRev_cons_space c _ Hc).
Qed.

Lemma libsvm_loop_same_trimmed ParseFloat (lines lines' : list string) (sm : SparseMatrix) :
  Forall2 (fun l l' => has_newline l = false /\ has_newline l' = false /\
                       strings.TrimSpace l' = strings.TrimSpace l) lines lines' ->
  libsvm_loop ParseFloat {| bufio.unread := join_lines lines'; bufio.final := io_EOF |} sm =
  libsvm_loop ParseFloat {| bufio.unread := join_lines lines; bufio.final := io_EOF |} sm.
Proof.
  intros H; revert sm; induction H as [|l l' lines lines' (Hl & Hl' & Ht) _ IH]; intros sm;
    [reflexivity|].
  rewrite <- (sapp_nil_r (join_lines (l' :: lines'))), <- (sapp_nil_r (join_lines (l :: lines))).
  rewrite !join_lines_cons, !sapp_nil_r.
  rewrite (libsvm_loop_line _ l') by exact Hl'. rewrite (libsvm_loop_line _ l) by exact Hl.
  rewrite Ht. destruct (is_empty (strings.TrimSpace l)); [reflexivity|].
  destruct (libsvm_line _ _); [apply IH|reflexivity].
Qed.

Lemma csv_loop_same_trimmed ParseFloat delimiter defaultVal (lines lines' : list string)
  (m : Matrix) (c r : Z) :
  Forall2 (fun l l' => has_newline l = false /\ has_newline l' = false /\
                       strings.TrimSpace l' = strings.TrimSpace l) lines lines' ->
  csv_loop ParseFloat delimiter defaultVal
    {| st_reader := {| bufio.unread := join_lines lines'; bufio.final := io_EOF |};
       st_matrix := m; st_colDim := c; st_row := r |} =
  csv_loop ParseFloat delimiter defaultVal
    {| st_reader := {| bufio.unread := join_lines lines; bufio.final := io_EOF |};
       st_matrix := m; st_colDim := c; st_row := r |}.
Proof.
  intros H; revert m c r;
    induction H as [|l l' lines lines' (Hl & Hl' & Ht) _ IH]; intros m c r; [reflexivity|].
  rewrite <- (sapp_nil_r (join_lines (l' :: lines'))), <- (sapp_nil_r (join_lines (l :: lines))).
  rewrite !join_lines_cons, !sapp_nil_r.
  rewrite (csv_loop_line _ _ _ l') by exact Hl'. rewrite (csv_loop_line _ _ _ l) by exact Hl.
  rewrite Ht. destruct (is_empty (strings.TrimSpace l)); [reflexivity|].
  unfold csv_row. cbn [st_matrix st_colDim st_row].
  destruct (csv_fields _ _ _ _); [|reflexivity].
  destruct (c =? -1); [apply IH|].
  destruct (negb _); [reflexivity|apply IH].
Qed.

Lemma has_newline_app_cr (l : string) :
  has_newline (l ++ String carriage_return EmptyString) = has_newline l.
Proof. rewrite has_newline_app. cbn. now rewrite orb_false_r. Qed.

(** X20.  Line ends of DOS are read like line ends of Unix: a file whose
    lines end with a carriage return and a line break gives, in each
    reader, the result and the errors of the file whose lines end with the
    line break alone. *)
Theorem carriage_returns_are_ignored
  (ParseFloat : string -> float * option strconv.NumError)
  (fileName delimiter : string) (defaultVal : float) (lines : list string) :
  Forall (fun l => has_newline l = false) lines ->
  let dos := map (fun l => (l ++ String carriage_return EmptyString)%string) lines in
  ReadLibsvmFileToSparseMatrix ParseFloat (single_file fileName (join_lines dos)) fileName =
  ReadLibsvmFileToSparseMatrix ParseFloat (single_file fileName (join_lines lines)) fileName /\
  ReadCSVFileToDenseMatrix ParseFloat (single_file fileName (join_lines dos))
                           fileName delimiter defaultVal =
  ReadCSVFileToDenseMatrix ParseFloat (single_file fileName (join_lines lines))
                           fileName delimiter defaultVal.
Proof.
  intros Hlines dos.
  assert (H : Forall2 (fun l l' => has_newline l = false /\ has_newline l' = false /\
                                   strings.TrimSpace l' = strings.TrimSpace l) lines dos).
  { subst dos. induction Hlines as [|l lines Hl _ IH]; cbn [map]; constructor; [|exact IH].
    split; [exact Hl|]. split; [now rewrite has_newline_app_cr|].
    now apply TrimSpace_app_space. }
  unfold ReadLibsvmFileToSparseMatrix, ReadCSVFileToDenseMatrix.
  rewrite !single_file_open. unfold bufio.NewReader. cbn [os.contents os.read_error].
  split; [now apply libsvm_loop_same_trimmed|now apply csv_loop_same_trimmed].
Qed.

(** The hypothesis of X20 holds of the two lines of a file that both
    readers accept, the dense one with the delimiter [" 0:"]. *)
Lemma carriage_returns_are_ignored_witness :
  let dos := map (fun l => (l ++ String carriage_return EmptyString)%string)
                 ["1 0:2"; "3 0:4"] in
  ReadLibsvmFileToSparseMatrix strconv.ParseFloatDecimal
    (single_file "f" (join_lines dos)) "f" =
  ReadLibsvmFileToSparseMatrix strconv.ParseFloatDecimal
    (single_file "f" (join_lines ["1 0:2"; "3 0:4"])) "f" /\
  ReadCSVFileToDenseMatrix strconv.ParseFloatDecimal
    (single_file "f" (join_lines dos)) "f" " 0:" 0%float =
  ReadCSVFileToDenseMatrix strconv.ParseFloatDecimal
    (single_file "f" (join_lines ["1 0:2"; "3 0:4"])) "f" " 0:" 0%float.
Proof.
  apply (carriage_returns_are_ignored strconv.ParseFloatDecimal "f" " 0:" 0%float
           ["1 0:2"; "3 0:4"]).
  repeat constructor.
Defined.

(** ** Lines of the sparse format without columns *)

Lemma split_from_byte_length (c : ascii) (s cur : string) :
  length (strings.split_from (String c EmptyString) s 0 cur) = S (count_byte c s).
Proof.
  revert cur; induction s as [|x s IH]; intros cur; [reflexivity|].
  cbn [strings.split_from has_prefix count_byte slen String.length Nat.pred].
  destruct (Ascii.eqb c x); cbn [andb]; [destruct s|]; cbn [length]; rewrite ?IH;
    reflexivity.
Qed.

Lemma libsvm_pairs_columns ParseFloat (tokens : list string) (vec : SparseVector) :
  libsvm_pairs ParseFloat tokens vec <> inr ErrTooFewColumns.
Proof.
  revert vec; induction tokens as [|token tokens IH]; intros vec; cbn [libsvm_pairs];
    [discriminate|].
  destruct (slen token =? 0)%nat; [discriminate|].
  destruct (strings.Split token ":") as [|index [|value [|]]]; try discriminate.
  destruct (strconv.ParseUint index 32) as [colIdx [err|]]; [discriminate|].
  destruct (ParseFloat value) as [val [err|]]; [discriminate|apply IH].
Qed.

Lemma libsvm_line_columns ParseFloat (line : string) :
  libsvm_line ParseFloat line = inr ErrTooFewColumns <-> count_byte " " line = 0%nat.
Proof.
  unfold libsvm_line, strings.Split. cbn [is_empty]. unfold len.
  rewrite split_from_byte_length.
  destruct (count_byte " " line) as [|n].
  - split; reflexivity.
  - destruct (Z.ltb_spec (Z.of_nat (S (S n))) 2); [lia|].
    split; [|discriminate]. intros Hx. now apply libsvm_pairs_columns in Hx.
Qed.

(** X21.  A line of the sparse format needs a column after its label:
    after lines that are rows, a last line that is not blank makes the read
    fail with "too few columns" exactly when, trimmed of white space, it
    holds no space, whatever else it holds.  A line of a label alone is an
    error, not a row without entries. *)
Theorem libsvm_label_alone
  (ParseFloat : string -> float * option strconv.NumError) (fileName : string)
  (lines : list string) (rows : list SparseVector) (l : string) :
  Forall2 (fun l row => sparse_row ParseFloat l = Some row) lines rows ->
  has_newline l = false -> is_empty (strings.TrimSpace l) = false ->
  ReadLibsvmFileToSparseMatrix ParseFloat
    (single_file fileName (join_lines (lines ++ [l]))) fileName =
    ({| SVectors := [] |}, Some ErrTooFewColumns) <->
  count_byte " " (strings.TrimSpace l) = 0%nat.
Proof.
  intros Hrows Hnl Hblank.
  unfold ReadLibsvmFileToSparseMatrix.
  rewrite single_file_open. unfold bufio.NewReader. cbn [os.contents os.read_error].
  replace (join_lines (lines ++ [l])) with (join_lines lines ++ join_lines [l])%string.
  2:{ clear. induction lines as [|x lines IH]; [now rewrite sapp_nil_l|].
      cbn [app join_lines]. now rewrite <- IH, !sapp_assoc. }
  rewrite (libsvm_loop_rows_then _ _ _ _ _ _ Hrows).
  rewrite <- (sapp_nil_r (join_lines [l])), join_lines_cons. cbn [join_lines].
  rewrite sapp_nil_l, libsvm_loop_line by exact Hnl. rewrite Hblank.
  rewrite <- (libsvm_line_columns ParseFloat).
  destruct (libsvm_line ParseFloat (strings.TrimSpace l)) as [vec|e].
  - rewrite libsvm_loop_end by reflexivity. cbn [is_EOF]. split; intros Hx; discriminate Hx.
  - split; [now intros [= ->]|now intros [= ->]].
Qed.

(** The hypotheses of X21 hold of a file whose second line is a label
    between spaces. *)
Lemma libsvm_label_alone_witness :
  ReadLibsvmFileToSparseMatrix strconv.ParseFloatDecimal
    (single_file "f" (join_lines (["1 0:2"] ++ [" 1 "]))) "f" =
    ({| SVectors := [] |}, Some ErrTooFewColumns) <->
  count_byte " " (strings.TrimSpace " 1 ") = 0%nat.
Proof.
  apply (libsvm_label_alone strconv.ParseFloatDecimal "f" ["1 0:2"] [ {[ 0 := 2%float ]} ]
           " 1 ").
  - repeat constructor.
  - reflexivity.
  - reflexivity.
Defined.

(** ** Rows of the dense reader *)

Lemma csv_fields_values ParseFloat defaultVal (tokens : list string) (values acc : Vector) :
  mapM (field_value ParseFloat defaultVal) tokens = Some values ->
  csv_fields ParseFloat defaultVal tokens acc = inl (acc ++ values).
Proof.
  revert values acc; induction tokens as [|token tokens IH]; intros values acc.
  - intros [= <-]. cbn [csv_fields]. now rewrite app_nil_r.
  - rewrite mapM_Some. intros H. inversion H as [|? v ? vs Hv Hrest]; subst.
    apply mapM_Some in Hrest. cbn [csv_fields]. rewrite slen_zero.
    unfold field_value in Hv. destruct (is_empty token).
    + injection Hv as <-. rewrite (IH _ _ Hrest). now rewrite <- app_assoc.
    + destruct (ParseFloat token) as [v' [e|]]; [discriminate|].
      injection Hv as <-. rewrite (IH _ _ Hrest). now rewrite <- app_assoc.
Qed.

Lemma csv_fields_error ParseFloat defaultVal (tokens : list string) (acc : Vector)
  (e : error) :
  csv_fields ParseFloat defaultVal tokens acc = inr e ->
  exists (k : nat) (token : string) (cause : strconv.NumError),
    e = ErrConvertFloat token cause /\
    tokens !! k = Some token /\ is_empty token = false /\
    snd (ParseFloat token) = Some cause /\
    exists values, mapM (field_value ParseFloat defaultVal) (take k tokens) = Some values.
Proof.
  revert acc; induction tokens as [|token tokens IH]; intros acc; cbn [csv_fields];
    [discriminate|].
  rewrite slen_zero. destruct (is_empty token) eqn:Eempty.
  - intros H. apply IH in H as (k & t & cause & -> & H1 & H2 & H3 & values & H4).
    exists (S k), t, cause. repeat split; try assumption.
    exists (defaultVal :: values). cbn [take]. apply mapM_Some. constructor.
    + unfold field_value. now rewrite Eempty.
    + now apply mapM_Some.
  - destruct (ParseFloat token) as [v [err|]] eqn:E.
    + intros [= <-]. exists 0%nat, token, err. rewrite E. repeat split; [exact Eempty|].
      exists []. reflexivity.
    + intros H. apply IH in H as (k & t & cause & -> & H1 & H2 & H3 & values & H4).
      exists (S k), t, cause. repeat split; try assumption.
      exists (v :: values). cbn [take]. apply mapM_Some. constructor.
      * unfold field_value. now rewrite Eempty, E.
      * now apply mapM_Some.
Qed.

Lemma dense_row_Some ParseFloat delimiter defaultVal (l : string) (row : Vector) :
  dense_row ParseFloat delimiter defaultVal l = Some row ->
  has_newline l = false /\ is_empty (strings.TrimSpace l) = false /\
  csv_fields ParseFloat defaultVal (strings.Split (strings.TrimSpace l) delimiter) [] =
    inl row.
Proof.
  unfold dense_row. destruct (has_newline l); [discriminate|].
  destruct (is_empty _); [discriminate|]. cbn [orb].
  intros H. repeat split. now rewrite (csv_fields_values _ _ _ _ [] H).
Qed.

Lemma csv_loop_rows_values ParseFloat delimiter defaultVal (w : nat) (text : string)
  (fin : error) :
  forall (lines : list string) (rows : list Vector) (m : Matrix) (c r : Z),
    Forall2 (fun l row => dense_row ParseFloat delimiter defaultVal l = Some row)
            lines rows ->
    Forall (fun row : Vector => length row = w) rows ->
    c = -1 \/ c = Z.of_nat w ->
    csv_loop ParseFloat delimiter defaultVal
      {| st_reader := {| bufio.unread := join_lines lines ++ text; bufio.final := fin |};
         st_matrix := m; st_colDim := c; st_row := r |} =
    csv_loop ParseFloat delimiter defaultVal
      {| st_reader := {| bufio.unread := text; bufio.final := fin |};
         st_matrix := {| Vectors := Vectors m ++ rows |};
         st_colDim := match lines with [] => c | _ => Z.of_nat w end;
         st_row := r + len lines |}.
Proof.
  intros lines rows m c r H; revert m c r.
  induction H as [|l row lines rows Hl Hrest IH]; intros m c r Hw Hc.
  - cbn [join_lines]. rewrite sapp_nil_l, app_nil_r. change (len []) with 0.
    rewrite Z.add_0_r. destruct m; reflexivity.
  - inversion Hw as [|? ? Hlen Hws]; subst.
    apply dense_row_Some in Hl as (Hnl & Hblank & Hvec).
    rewrite join_lines_cons, csv_loop_line by exact Hnl. rewrite Hblank.
    unfold csv_row. rewrite Hvec. cbn [st_colDim st_matrix st_row].
    replace (r + len (l :: lines)) with (r + 1 + len lines)
      by (unfold len; simpl length; lia).
    change (len row) with (Z.of_nat (length row)).
    destruct Hc as [-> | ->].
    + change (-1 =? -1) with true. cbv iota.
      rewrite (IH _ (Z.of_nat (length row)) (r + 1) Hws) by (right; reflexivity).
      cbn [Vectors]. rewrite <- app_assoc. cbn [app].
      destruct lines; reflexivity.
    + destruct (Z.eqb_spec (Z.of_nat (length row)) (-1)); [lia|].
      rewrite Z.eqb_refl. cbn [negb].
      rewrite (IH _ (Z.of_nat (length row)) (r + 1) Hws) by (right; reflexivity).
      cbn [Vectors]. rewrite <- app_assoc. cbn [app].
      destruct lines; reflexivity.
Qed.

(** X22.  A file whose lines each denote a row, all of one width, is read
    by [ReadCSVFileToDenseMatrix] into the matrix of these rows, in order
    and with no error.  The row of a line has one value per field: the
    default value for an empty field and for any other field the number
    that [strconv.ParseFloat] reads, a field of white space included. *)
Theorem csv_rows
  (ParseFloat : string -> float * option strconv.NumError)
  (fileName delimiter : string) (defaultVal : float)
  (lines : list string) (rows : list Vector) (w : nat) :
  Forall2 (fun l row => dense_row ParseFloat delimiter defaultVal l = Some row)
          lines rows ->
  Forall (fun row : Vector => length row = w) rows ->
  ReadCSVFileToDenseMatrix ParseFloat (single_file fileName (join_lines lines))
                           fileName delimiter defaultVal =
  ({| Vectors := rows |}, None).
Proof.
  intros Hrows Hw. unfold ReadCSVFileToDenseMatrix.
  rewrite single_file_open. unfold bufio.NewReader. cbn [os.contents os.read_error].
  rewrite <- (sapp_nil_r (join_lines lines)).
  rewrite (csv_loop_rows_values ParseFloat delimiter defaultVal w EmptyString io_EOF
             lines rows _ (-1) 0 Hrows Hw) by (now left).
  apply csv_loop_eof.
Qed.

(** The hypotheses of X22 hold of a file of two lines of three fields,
    one of which is empty. *)
Lemma csv_rows_witness :
  ReadCSVFileToDenseMatrix strconv.ParseFloatDecimal
    (single_file "f" (join_lines ["1,2,3"; "4,,6"])) "f" "," 9%float =
  ({| Vectors := [[1; 2; 3]; [4; 9; 6]]%float |}, None).
Proof.
  apply (csv_rows strconv.ParseFloatDecimal "f" "," 9%float ["1,2,3"; "4,,6"]
           [[1; 2; 3]; [4; 9; 6]]%float 3%nat).
  - repeat constructor.
  - repeat constructor.
Defined.



(** ** The writer *)

Lemma write_elements_app {File : Type} (Fprintln : File -> float -> File * option error)
  (f : File) (v1 v2 : Vector) :
  write_elements File Fprintln f (v1 ++ v2) =
  match write_elements File Fprintln f v1 with
  | (f', Some err) => (f', Some err)
  | (f', None) => write_elements File Fprintln f' v2
  end.
Proof.
  revert f; induction v1 as [|i v1 IH]; intros f; cbn [app write_elements];
    [reflexivity|].
  destruct (Fprintln f i) as [f' [err|]]; [reflexivity|apply IH].
Qed.

Lemma write_rows_concat {File : Type} (Fprintln : File -> float -> File * option error)
  (f : File) (rows : list Vector) :
  write_rows File Fprintln f rows = write_elements File Fprintln f (concat rows).
Proof.
  revert f; induction rows as [|v rows IH]; intros f; cbn [write_rows concat];
    [reflexivity|].
  rewrite write_elements_app.
  destruct (write_elements File Fprintln f v) as [f' [err|]]; [reflexivity|apply IH].
Qed.

Lemma Matrix_Flatten_concat (m : Matrix) : Matrix_Flatten m = concat (Vectors m).
Proof. unfold Matrix_Flatten. now rewrite flatten_rows. Qed.

(** X24.  [WriteMatrixToFile] returns the error of [os.Create] when the
    file cannot be created, and otherwise writes the elements of the matrix
    in the order of [Matrix.Flatten], one call of [fmt.Fprintln] for each:
    what it writes depends on the flattened matrix only, so that matrices
    that flatten to the same slice leave the same file and the division
    into rows is not recorded. *)
Theorem WriteMatrixToFile_writes_flattened
  (File : Type) (Create : string -> File + error)
  (Fprintln : File -> float -> File * option error)
  (m : Matrix) (fileName : string) :
  WriteMatrixToFile File Create Fprintln m fileName =
    match Create fileName with
    | inr err => (None, Some err)
    | inl f =>
      let '(f', err) := write_elements File Fprintln f (Matrix_Flatten m) in
      (Some f', err)
    end /\
  forall m' : Matrix,
    Matrix_Flatten m' = Matrix_Flatten m ->
    WriteMatrixToFile File Create Fprintln m' fileName =
    WriteMatrixToFile File Create Fprintln m fileName.
Proof.
  unfold WriteMatrixToFile. destruct (Create fileName) as [f|err]; [|easy]. split.
  - now rewrite write_rows_concat, Matrix_Flatten_concat.
  - intros m' H. rewrite !write_rows_concat, <- !Matrix_Flatten_concat. now rewrite H.
Qed.

(** X25.  [WriteMatrixToFile] stops at the first write that fails and
    returns its error: the elements before it have been written, none
    after it is, and the file is left as that write left it. *)
Theorem WriteMatrixToFile_first_failure
  (File : Type) (Create : string -> File + error)
  (Fprintln : File -> float -> File * option error)
  (m : Matrix) (fileName : string)
  (f f1 f2 : File) (before after : Vector) (i : float) (err : error) :
  Create fileName = inl f ->
  Matrix_Flatten m = before ++ i :: after ->
  write_elements File Fprintln f before = (f1, None) ->
  Fprintln f1 i = (f2, Some err) ->
  WriteMatrixToFile File Create Fprintln m fileName = (Some f2, Some err).
Proof.
  intros Hcreate Hflat Hbefore Hi. unfold WriteMatrixToFile.
  rewrite Hcreate, write_rows_concat, <- Matrix_Flatten_concat, Hflat.
  rewrite write_elements_app, Hbefore. cbn [write_elements]. now rewrite Hi.
Qed.

(** The hypotheses of X25 hold of a file with room for three lines and a
    matrix of five elements: the fourth write fails, and the file holds the
    first three elements. *)
Lemma WriteMatrixToFile_first_failure_witness :
  WriteMatrixToFile (nat * list float) (fun _ => inl (3%nat, [])) bounded_Fprintln
    {| Vectors := [[1; 2]; [3; 4; 5]]%float |} "f" =
  (Some (0%nat, [1; 2; 3]%float), Some (io_failure "no space left on device")).
Proof.
  apply (WriteMatrixToFile_first_failure (nat * list float) (fun _ => inl (3%nat, []))
           bounded_Fprintln {| Vectors := [[1; 2]; [3; 4; 5]]%float |} "f"
           (3%nat, []) (0%nat, [1; 2; 3]%float) (0%nat, [1; 2; 3]%float)
           [1; 2; 3]%float [5]%float 4%float (io_failure "no space left on device"));
    reflexivity.
Defined.

Lemma text_write_elements (FormatFloat : float -> string) (f : string) (v : Vector) :
  write_elements string (text_Fprintln FormatFloat) f v =
  ((f ++ join_lines (map FormatFloat v))%string, None).
Proof.
  revert f; induction v as [|i v IH]; intros f; cbn [write_elements map join_lines].
  - now rewrite sapp_nil_r.
  - unfold text_Fprintln at 1. rewrite IH. now rewrite !sapp_assoc.
Qed.

(** X26.  What [WriteMatrixToFile] writes, [ReadCSVFileToDenseMatrix] reads
    as a matrix of one column: when the format of every element of the
    matrix is a line that the dense reader reads as the row of that element
    alone, the file written holds one such line per element, and reading it
    gives, with no error, one row of width one for each element, in the
    order of [Matrix.Flatten].  The rows of the matrix written are not
    recovered. *)
Theorem WriteMatrixToFile_read_back
  (FormatFloat : float -> string)
  (ParseFloat : string -> float * option strconv.NumError)
  (m : Matrix) (fileName delimiter : string) (defaultVal : float) :
  (forall x, x ∈ Matrix_Flatten m ->
             dense_row ParseFloat delimiter defaultVal (FormatFloat x) = Some [x]) ->
  let text := join_lines (map FormatFloat (Matrix_Flatten m)) in
  WriteMatrixToFile string text_Create (text_Fprintln FormatFloat) m fileName =
    (Some text, None) /\
  ReadCSVFileToDenseMatrix ParseFloat (single_file fileName text)
                           fileName delimiter defaultVal =
    ({| Vectors := map (fun x => [x]) (Matrix_Flatten m) |}, None).
Proof.
  intros Hformat text. split.
  - unfold WriteMatrixToFile, text_Create.
    rewrite write_rows_concat, <- Matrix_Flatten_concat, text_write_elements.
    now rewrite sapp_nil_l.
  - unfold ReadCSVFileToDenseMatrix.
    rewrite single_file_open. unfold bufio.NewReader. cbn [os.contents os.read_error].
    subst text. rewrite <- (sapp_nil_r (join_lines _)).
    rewrite (csv_loop_rows_values ParseFloat delimiter defaultVal 1 EmptyString io_EOF
               (map FormatFloat (Matrix_Flatten m))
               (map (fun x => [x]) (Matrix_Flatten m)) _ (-1) 0).
    + apply csv_loop_eof.
    + induction (Matrix_Flatten m) as [|x xs IH]; cbn [map]; [constructor|].
      constructor.
      * apply Hformat. left.
      * apply IH. intros y Hy. apply Hformat. now right.
    + clear Hformat. induction (Matrix_Flatten m) as [|x xs IH]; cbn [map];
        [constructor|constructor; [reflexivity|exact IH]].
    + now left.
Qed.

(** The hypothesis of X26 holds of a matrix of two rows of two elements,
    written with the decimal texts of its elements and read with the
    decimal instance of [strconv.ParseFloat]: the matrix read has four rows
    of one element. *)
Lemma WriteMatrixToFile_read_back_witness :
  let format := format_table [(1, "1"); (2.5, "2.5"); (3, "3"); (1000000, "1e+06")]%float in
  let m := {| Vectors := [[1; 2.5]; [3; 1000000]]%float |} in
  WriteMatrixToFile string text_Create (text_Fprintln format) m "f" =
    (Some (join_lines ["1"; "2.5"; "3"; "1e+06"]), None) /\
  ReadCSVFileToDenseMatrix strconv.ParseFloatDecimal
    (single_file "f" (join_lines ["1"; "2.5"; "3"; "1e+06"])) "f" "," 0%float =
    ({| Vectors := [[1]; [2.5]; [3]; [1000000]]%float |}, None).
Proof.
  apply (WriteMatrixToFile_read_back
           (format_table [(1, "1"); (2.5, "2.5"); (3, "3"); (1000000, "1e+06")]%float)
           strconv.ParseFloatDecimal {| Vectors := [[1; 2.5]; [3; 1000000]]%float |}
           "f" "," 0%float).
  intros x Hx. change (Matrix_Flatten _) with [1; 2.5; 3; 1000000]%float in Hx.
  repeat (apply elem_of_cons in Hx as [-> | Hx]; [vm_compute; reflexivity|]).
  inversion Hx.
Defined.

(** ** What the readers never return *)

Lemma libsvm_pairs_error ParseFloat (tokens : list string) (vec : SparseVector) (e : error) :
  libsvm_pairs ParseFloat tokens vec = inr e -> sparse_format_error e = true.
Proof.
  revert vec; induction tokens as [|token tokens IH]; intros vec; cbn [libsvm_pairs];
    [discriminate|].
  destruct (slen token =? 0)%nat; [now intros [= <-]|].
  destruct (strings.Split token ":") as [|index [|value [|]]]; try (now intros [= <-]).
  destruct (strconv.ParseUint index 32) as [colIdx [err|]]; [now intros [= <-]|].
  destruct (ParseFloat value) as [val [err|]]; [now intros [= <-]|apply IH].
Qed.

Lemma libsvm_pairs_nonempty ParseFloat (tokens : list string) (vec vec' : SparseVector) :
  libsvm_pairs ParseFloat tokens vec = inl vec' ->
  tokens <> [] \/ vec <> ∅ -> vec' <> ∅.
Proof.
  revert vec; induction tokens as [|token tokens IH]; intros vec; cbn [libsvm_pairs].
  - intros [= <-] [H|H]; [congruence|exact H].
  - destruct (slen token =? 0)%nat; [discriminate|].
    destruct (strings.Split token ":") as [|index [|value [|]]]; try discriminate.
    destruct (strconv.ParseUint index 32) as [colIdx [err|]]; [discriminate|].
    destruct (ParseFloat value) as [val [err|]]; [discriminate|].
    intros H _. apply (IH _ H). right. apply insert_non_empty.
Qed.

Lemma libsvm_step_cases ParseFloat (reader : bufio.Reader) (sm : SparseMatrix) :
  match libsvm_step ParseFloat reader sm with
  | Return (m, err) =>
    m = {| SVectors := [] |} /\
    exists e, err = Some e /\
      ((e = bufio.final reader /\ is_EOF e = false) \/ sparse_format_error e = true)
  | Break (reader', sm') => sm' = sm /\ bufio.final reader' = bufio.final reader
  | Continue (reader', sm') =>
    bufio.final reader' = bufio.final reader /\
    exists vec : SparseVector, vec <> ∅ /\ SVectors sm' = SVectors sm ++ [vec]
  end.
Proof.
  unfold libsvm_step, bufio.ReadString.
  destruct (bufio.cut newline (bufio.unread reader)) as [[line rest]|].
  - destruct (is_empty (strings.TrimSpace line)); [easy|].
    unfold libsvm_line. destruct (len _ <? 2) eqn:Hlen.
    { split; [reflexivity|]. eexists. split; [reflexivity|]. now right. }
    destruct (libsvm_pairs _ _ _) as [vec|e] eqn:E.
    + split; [reflexivity|]. exists vec. split; [|reflexivity].
      apply (libsvm_pairs_nonempty _ _ _ _ E). left.
      apply Z.ltb_ge in Hlen. unfold len in Hlen.
      destruct (strings.Split _ _) as [|label [|token tokens]]; simpl in Hlen; try lia.
      discriminate.
    + split; [reflexivity|]. eexists. split; [reflexivity|]. right.
      apply (libsvm_pairs_error _ _ _ _ E).
  - destruct (is_EOF (bufio.final reader)) eqn:E; cbn [negb]; [easy|].
    split; [reflexivity|]. eexists. split; [reflexivity|]. now left.
Qed.

Lemma csv_fields_error_kind ParseFloat defaultVal (tokens : list string) (acc : Vector)
  (e : error) :
  csv_fields ParseFloat defaultVal tokens acc = inr e -> dense_format_error e = true.
Proof.
  intros H. apply csv_fields_error in H as (k & token & cause & -> & _). reflexivity.
Qed.

Lemma explode_from_nonempty (s : string) (need : nat) (cur : string) :
  (is_empty s = false /\ need = 0%nat) \/ is_empty cur = false ->
  strings.explode_from s need cur <> [].
Proof.
  revert need cur; induction s as [|c s IH]; intros need cur H.
  - cbn [strings.explode_from]. destruct H as [[H _]|H]; [discriminate|].
    now rewrite H.
  - cbn [strings.explode_from]. destruct need as [|[|k]].
    + destruct (utf8.rune_size (String c s)) as [|[|k]]; try discriminate.
      apply IH. now right.
    + discriminate.
    + apply IH. now right.
Qed.

Lemma split_from_nonempty (sep s : string) (skip : nat) (cur : string) :
  strings.split_from sep s skip cur <> [].
Proof.
  revert skip cur; induction s as [|c s IH]; intros skip cur; cbn [strings.split_from].
  - discriminate.
  - destruct skip; [|apply IH]. destruct (has_prefix sep _); [discriminate|apply IH].
Qed.

Lemma Split_nonempty (s sep : string) :
  is_empty s = false -> strings.Split s sep <> [].
Proof.
  intros Hs. unfold strings.Split. destruct (is_empty sep).
  - apply explode_from_nonempty. now left.
  - apply split_from_nonempty.
Qed.

Lemma csv_step_cases ParseFloat delimiter defaultVal (st : csv_state) :
  match csv_step ParseFloat delimiter defaultVal st with
  | Return (m, err) =>
    m = {| Vectors := [] |} /\
    exists e, err = Some e /\
      ((e = bufio.final (st_reader st) /\ is_EOF e = false) \/ dense_format_error e = true)
  | Break st' => st' = st
  | Continue st' =>
    bufio.final (st_reader st') = bufio.final (st_reader st) /\
    exists vec : Vector, vec <> [] /\
      Vectors (st_matrix st') = Vectors (st_matrix st) ++ [vec]
  end.
Proof.
  unfold csv_step, bufio.ReadString.
  assert (Hrow : forall line reader',
    is_empty (strings.TrimSpace line) = false ->
    bufio.final reader' = bufio.final (st_reader st) ->
    match csv_row ParseFloat delimiter defaultVal (strings.TrimSpace line) reader' st with
    | Return (m, err) =>
      m = {| Vectors := [] |} /\
      exists e, err = Some e /\
        ((e = bufio.final (st_reader st) /\ is_EOF e = false) \/ dense_format_error e = true)
    | Break st' => st' = st
    | Continue st' =>
      bufio.final (st_reader st') = bufio.final (st_reader st) /\
      exists vec : Vector, vec <> [] /\
        Vectors (st_matrix st') = Vectors (st_matrix st) ++ [vec]
    end).
  { intros line reader' Hline Hfinal. unfold csv_row.
    destruct (csv_fields _ _ _ _) as [vec|e] eqn:E.
    - assert (Hvec : vec <> []).
      { apply csv_fields_length in E. pose proof (Split_nonempty _ delimiter Hline) as Hs.
        destruct (strings.Split _ _); [congruence|]. destruct vec; [discriminate|easy]. }
      destruct (st_colDim st =? -1); [split; [exact Hfinal|eauto]|].
      destruct (negb _).
      + split; [reflexivity|]. eexists. split; [reflexivity|]. now right.
      + split; [exact Hfinal|eauto].
    - split; [reflexivity|]. eexists. split; [reflexivity|]. right.
      apply (csv_fields_error_kind _ _ _ _ _ E). }
  destruct (bufio.cut newline (bufio.unread (st_reader st))) as [[line rest]|].
  - destruct (is_empty (strings.TrimSpace line)) eqn:Hline; [reflexivity|].
    now apply Hrow.
  - destruct (is_EOF (bufio.final (st_reader st))) eqn:E; cbn [negb].
    + destruct (is_empty (strings.TrimSpace _)) eqn:Hline; [reflexivity|].
      now apply Hrow.
    + split; [reflexivity|]. eexists. split; [reflexivity|]. now left.
Qed.

Lemma libsvm_loop_cases ParseFloat (fin : error) :
  forall (reader : bufio.Reader) (sm : SparseMatrix),
    bufio.final reader = fin /\ (forall vec, vec ∈ SVectors sm -> vec <> ∅) ->
    match libsvm_loop ParseFloat reader sm with
    | (m, None) => forall vec, vec ∈ SVectors m -> vec <> ∅
    | (m, Some e) => (e = fin /\ is_EOF e = false) \/ sparse_format_error e = true
    end.
Proof.
  apply (libsvm_loop_invariant ParseFloat
           (fun reader sm =>
              bufio.final reader = fin /\ (forall vec, vec ∈ SVectors sm -> vec <> ∅))
           (fun r => match r with
                     | (m, None) => forall vec, vec ∈ SVectors m -> vec <> ∅
                     | (m, Some e) =>
                       (e = fin /\ is_EOF e = false) \/ sparse_format_error e = true
                     end)).
  intros reader sm [Hfin Hrows].
  pose proof (libsvm_step_cases ParseFloat reader sm) as H.
  destruct (libsvm_step ParseFloat reader sm) as [[reader' sm']|[reader' sm']|[m err]].
  - destruct H as (Hfin' & vec & Hvec & Hsm). split; [congruence|].
    rewrite Hsm. intros v [Hv| ->%list_elem_of_singleton]%elem_of_app; auto.
  - destruct H as [-> _]. exact Hrows.
  - destruct H as (_ & e & -> & He). rewrite Hfin in He. exact He.
Qed.

Lemma csv_loop_cases ParseFloat delimiter defaultVal (fin : error) :
  forall st : csv_state,
    bufio.final (st_reader st) = fin /\
    (forall v : Vector, v ∈ Vectors (st_matrix st) -> v <> []) ->
    match csv_loop ParseFloat delimiter defaultVal st with
    | (m, None) => forall v : Vector, v ∈ Vectors m -> v <> []
    | (m, Some e) => (e = fin /\ is_EOF e = false) \/ dense_format_error e = true
    end.
Proof.
  apply (csv_loop_invariant ParseFloat delimiter defaultVal
           (fun st =>
              bufio.final (st_reader st) = fin /\
              (forall v : Vector, v ∈ Vectors (st_matrix st) -> v <> []))
           (fun r => match r with
                     | (m, None) => forall v : Vector, v ∈ Vectors m -> v <> []
                     | (m, Some e) =>
                       (e = fin /\ is_EOF e = false) \/ dense_format_error e = true
                     end)).
  intros st [Hfin Hrows].
  pose proof (csv_step_cases ParseFloat delimiter defaultVal st) as H.
  destruct (csv_step ParseFloat delimiter defaultVal st) as [st'|st'|[m err]].
  - destruct H as (Hfin' & vec & Hvec & Hm). split; [congruence|].
    rewrite Hm. intros v [Hv| ->%list_elem_of_singleton]%elem_of_app; auto.
  - subst st'. exact Hrows.
  - destruct H as (_ & e & -> & He). rewrite Hfin in He. exact He.
Qed.

Lemma final_read_failure (format_error : error -> bool) (file : os.File) (e : error) :
  (e = bufio.final (bufio.NewReader file) /\ is_EOF e = false) \/ format_error e = true ->
  read_failure format_error file e.
Proof.
  unfold read_failure, bufio.NewReader. cbn [bufio.final].
  intros [[-> He]|H]; [left|now right].
  destruct (os.read_error file); [now split|discriminate].
Qed.

(** X27.  A matrix that a reader returns with no error has no empty row:
    every sparse vector that [ReadLibsvmFileToSparseMatrix] returns stores
    at least one entry, and every row that [ReadCSVFileToDenseMatrix]
    returns holds at least one value, whatever the delimiter is. *)
Theorem readers_return_no_empty_row
  (ParseFloat : string -> float * option strconv.NumError)
  (fs : os.FileSystem) (fileName delimiter : string) (defaultVal : float) :
  (forall m,
     ReadLibsvmFileToSparseMatrix ParseFloat fs fileName = (m, None) ->
     forall vec : SparseVector, vec ∈ SVectors m -> vec <> ∅) /\
  (forall m,
     ReadCSVFileToDenseMatrix ParseFloat fs fileName delimiter defaultVal = (m, None) ->
     forall v : Vector, v ∈ Vectors m -> v <> []).
Proof.
  split; intros m.
  - unfold ReadLibsvmFileToSparseMatrix.
    destruct (os.Open fs fileName) as [file|err]; [|discriminate].
    pose proof (libsvm_loop_cases ParseFloat (bufio.final (bufio.NewReader file))
                  (bufio.NewReader file) {| SVectors := [] |}) as H.
    intros Hm. rewrite Hm in H. apply H. split; [reflexivity|].
    intros vec Hvec. inversion Hvec.
  - unfold ReadCSVFileToDenseMatrix.
    destruct (os.Open fs fileName) as [file|err]; [|discriminate].
    pose proof (csv_loop_cases ParseFloat delimiter defaultVal
                  (bufio.final (bufio.NewReader file))
                  {| st_reader := bufio.NewReader file; st_matrix := {| Vectors := [] |};
                     st_colDim := -1; st_row := 0 |}) as H.
    intros Hm. rewrite Hm in H. apply H. split; [reflexivity|].
    intros v Hv. inversion Hv.
Qed.

(** X28.  The errors of the readers.  A reader that fails returns the
    error of [os.Open] wrapped with the name of the file, or, when the file
    opens, the error that ended the reading of the file, as it is, or one
    of the errors that the reader makes of a line.  The end of the file is
    never returned as an error. *)
Theorem readers_errors
  (ParseFloat : string -> float * option strconv.NumError)
  (fs : os.FileSystem) (fileName delimiter : string) (defaultVal : float) :
  (forall m e,
     ReadLibsvmFileToSparseMatrix ParseFloat fs fileName = (m, Some e) ->
     is_EOF e = false /\
     match os.Open fs fileName with
     | inr cause => e = ErrOpen fileName cause
     | inl file => read_failure sparse_format_error file e
     end) /\
  (forall m e,
     ReadCSVFileToDenseMatrix ParseFloat fs fileName delimiter defaultVal = (m, Some e) ->
     is_EOF e = false /\
     match os.Open fs fileName with
     | inr cause => e = ErrOpen fileName cause
     | inl file => read_failure dense_format_error file e
     end).
Proof.
  split; intros m e.
  - unfold ReadLibsvmFileToSparseMatrix.
    destruct (os.Open fs fileName) as [file|err]; [|now intros [= <- <-]].
    pose proof (libsvm_loop_cases ParseFloat (bufio.final (bufio.NewReader file))
                  (bufio.NewReader file) {| SVectors := [] |}) as H.
    intros Hm. rewrite Hm in H.
    assert (He : (e = bufio.final (bufio.NewReader file) /\ is_EOF e = false) \/
                 sparse_format_error e = true).
    { apply H. split; [reflexivity|]. intros vec Hvec. inversion Hvec. }
    split; [|now apply final_read_failure].
    destruct He as [[_ He]|He]; [exact He|]. now destruct e.
  - unfold ReadCSVFileToDenseMatrix.
    destruct (os.Open fs fileName) as [file|err]; [|now intros [= <- <-]].
    pose proof (csv_loop_cases ParseFloat delimiter defaultVal
                  (bufio.final (bufio.NewReader file))
                  {| st_reader := bufio.NewReader file; st_matrix := {| Vectors := [] |};
                     st_colDim := -1; st_row := 0 |}) as H.
    intros Hm. rewrite Hm in H.
    assert (He : (e = bufio.final (bufio.NewReader file) /\ is_EOF e = false) \/
                 dense_format_error e = true).
    { apply H. split; [reflexivity|]. intros v Hv. inversion Hv. }
    split; [|now apply final_read_failure].
    destruct He as [[_ He]|He]; [exact He|]. now destruct e.
Qed.

(** ** The sign of the root-mean-square error *)

Lemma binary_round_aux_plus (mx ex : Z) (lx : location) :
  SF_plus_sign (binary_round_aux prec emax false mx ex lx).
Proof.
  unfold binary_round_aux.
  destruct (shr_fexp prec emax mx ex lx) as [mrs' e'].
  destruct (shr_fexp prec emax _ e' loc_Exact) as [mrs'' e''].
  destruct (shr_m mrs''); [exact I| |exact I].
  destruct (e'' <=? emax - prec); exact I.
Qed.

Lemma SF_plus_not_negative (x : spec_float) : SF_plus_sign x -> SF_not_negative x.
Proof. destruct x as [[]|[]| |[] ? ?]; easy. Qed.

Lemma binary_normalize_plus (n e : Z) :
  0 <= n -> SF_plus_sign (binary_normalize prec emax n e false).
Proof.
  intros Hn. destruct n as [|p|p]; [exact I| |lia].
  cbn [binary_normalize]. unfold binary_round.
  destruct (shl_align p e _) as [mz ez]. apply binary_round_aux_plus.
Qed.

Lemma SFsqrt_not_negative (x : spec_float) : SF_not_negative (SF64sqrt x).
Proof.
  unfold SF64sqrt, SFsqrt. destruct x as [[]|[]| |[] m e]; try exact I.
  destruct (SFsqrt_core_binary prec emax (Z.pos m) e) as [[mz ez] lz].
  apply SF_plus_not_negative, binary_round_aux_plus.
Qed.

Lemma SFadd_not_negative (x y : spec_float) :
  SF_not_negative x -> SF_not_negative y -> SF_not_negative (SF64add x y).
Proof.
  unfold SF64add, SFadd.
  destruct x as [[]|[]| |[] mx ex], y as [[]|[]| |[] my ey]; try easy.
  intros _ _. cbv zeta. cbn [cond_Zopp].
  apply SF_plus_not_negative, binary_normalize_plus. lia.
Qed.

Lemma SFdiv_not_negative (x y : spec_float) :
  SF_not_negative x -> SF_plus_sign y -> SF_not_negative (SF64div x y).
Proof.
  unfold SF64div, SFdiv.
  destruct x as [[]|[]| |[] mx ex], y as [[]|[]| |[] my ey]; try easy.
  intros _ _. cbn [xorb].
  destruct (SFdiv_core_binary prec emax (Z.pos mx) ex (Z.pos my) ey) as [[mz ez] lz].
  apply SF_plus_not_negative, binary_round_aux_plus.
Qed.

Lemma SF_not_negative_ltb (x : spec_float) :
  SF_not_negative x -> SFltb x (S754_zero false) = false.
Proof. destruct x as [[]|[]| |[] ? ?]; easy. Qed.

Lemma float64_of_int_spec (n : Z) :
  0 <= n < 2 ^ 63 ->
  Prim2SF (math.float64_of_int n) = binary_normalize prec emax n 0 false.
Proof.
  intros Hn. unfold math.float64_of_int.
  assert (Hz : Uint63Axioms.to_Z (Uint63.of_Z n) = n).
  { change Uint63Axioms.to_Z with Uint63.to_Z.
    rewrite Uint63.of_Z_spec. apply Z.mod_small. exact Hn. }
  rewrite <- Hz, <- of_uint63_spec.
  now rewrite SF2Prim_Prim2SF.
Qed.

Lemma GetVectorRMSE_sign Pow (v1 v2 : Vector) :
  SF_not_negative (Prim2SF (fst (GetVectorRMSE Pow v1 v2))).
Proof.
  unfold GetVectorRMSE. destruct (negb _); cbn [fst]; [exact I|].
  unfold math.Sqrt. rewrite sqrt_spec. apply SFsqrt_not_negative.
Qed.

Lemma rmse_sum_from_sign Pow (rows1 rows2 : list Vector) (i : Z) (sum s : float) :
  SF_not_negative (Prim2SF sum) ->
  rmse_sum_from Pow rows1 rows2 i sum = inl s ->
  SF_not_negative (Prim2SF s).
Proof.
  revert rows2 i sum; induction rows1 as [|v1 rows1 IH]; intros rows2 i sum Hsum;
    cbn [rmse_sum_from]; [now intros [= <-]|].
  destruct rows2 as [|v2 rows2]; [now intros [= <-]|].
  pose proof (GetVectorRMSE_sign Pow v1 v2) as Hv.
  destruct (GetVectorRMSE Pow v1 v2) as [rmse [err|]]; [discriminate|].
  apply IH. rewrite add_spec. now apply SFadd_not_negative.
Qed.

Lemma float_not_negative (x : float) :
  SF_not_negative (Prim2SF x) -> (x <? 0)%float = false.
Proof. intros H. rewrite ltb_spec. now apply SF_not_negative_ltb. Qed.

(** X29.  The root-mean-square error is never negative.  Whatever the
    vectors hold and whatever [math.Pow] returns, the number that
    [GetVectorRMSE] returns is not below zero: it is a square root, or the
    [0] beside an error.  So is the number that [GetMatrixRMSE] returns for
    matrices of a number of rows that an [int] can hold.  Either one may be
    a NaN. *)
Theorem RMSE_not_negative
  (Pow : float -> float -> float) (v1 v2 : Vector) (m1 m2 : Matrix) :
  len (Vectors m1) < 2 ^ 63 ->
  (fst (GetVectorRMSE Pow v1 v2) <? 0)%float = false /\
  (fst (GetMatrixRMSE Pow m1 m2) <? 0)%float = false.
Proof.
  intros Hlen. split; apply float_not_negative; [apply GetVectorRMSE_sign|].
  unfold GetMatrixRMSE. destruct (negb _); cbn [fst]; [exact I|].
  destruct (rmse_sum_from Pow _ _ 0 0%float) as [s|e] eqn:E; cbn [fst]; [|exact I].
  rewrite div_spec. apply SFdiv_not_negative.
  - apply (rmse_sum_from_sign Pow (Vectors m1) (Vectors m2) 0 0%float s);
      [exact I|exact E].
  - rewrite float64_of_int_spec by (unfold len in *; lia).
    apply binary_normalize_plus. unfold len. lia.
Qed.

(** The hypothesis of X29 holds of every matrix that is written out. *)
Lemma RMSE_not_negative_witness :
  (fst (GetVectorRMSE square_pow [1; 2]%float [3; 5]%float) <? 0)%float = false /\
  (fst (GetMatrixRMSE square_pow {| Vectors := [[1; 2]; [3; 4]]%float |}
                                 {| Vectors := [[1; 4]; [3; 4]]%float |}) <? 0)%float = false.
Proof.
  apply (RMSE_not_negative square_pow [1; 2]%float [3; 5]%float
           {| Vectors := [[1; 2]; [3; 4]]%float |} {| Vectors := [[1; 4]; [3; 4]]%float |}).
  reflexivity.
Defined.

(** ** Thresholds at the ends of the scale *)

Lemma SFltb_infinity_l (y : spec_float) : SFltb (S754_infinity false) y = false.
Proof. destruct y as [[]|[]| |[] ? ?]; reflexivity. Qed.

Lemma SFltb_negative_abs (t y : spec_float) :
  SFltb t (S754_zero false) = true -> y <> S754_nan -> SFltb t (SFabs y) = true.
Proof.
  destruct t as [[]|[]| |[] mt et], y as [[]|[]| |[] my ey];
    try discriminate; try reflexivity; try congruence.
Qed.

(** X30.  The threshold at the ends of the scale.  Under the threshold
    positive infinity [IsEqualVectors] accepts all vectors of the same
    length.  Under a threshold below zero it accepts no two vectors that
    have a first element each, unless the difference of these is a NaN: it
    reports a mismatch at index [0], also when the two vectors are the
    same. *)
Theorem IsEqualVectors_extreme_thresholds (v1 v2 : Vector) (threshold : float) :
  length v1 = length v2 ->
  (threshold = infinity -> IsEqualVectors v1 v2 threshold = None) /\
  ((threshold <? 0)%float = true ->
   forall (x1 x2 : float) (rest1 rest2 : Vector),
     v1 = x1 :: rest1 -> v2 = x2 :: rest2 -> math.IsNaN (x1 - x2) = false ->
     IsEqualVectors v1 v2 threshold = Some (ErrElementMismatch 0 x1 x2)).
Proof.
  intros Hlen. unfold IsEqualVectors, len. rewrite Hlen, Z.eqb_refl. cbn [negb]. split.
  - intros ->. apply equal_from_Forall2; [exact Hlen|].
    apply Forall2_same_length_lookup. split; [exact Hlen|].
    intros i x1 x2 _ _. unfold exceeds, math.Abs. rewrite ltb_spec.
    apply SFltb_infinity_l.
  - intros Ht x1 x2 rest1 rest2 -> -> Hnan. cbn [equal_from].
    replace (threshold <? math.Abs (x1 - x2))%float with true; [reflexivity|].
    symmetry. unfold math.Abs. rewrite ltb_spec, abs_spec.
    rewrite ltb_spec in Ht. apply SFltb_negative_abs; [exact Ht|].
    now apply IsNaN_false.
Qed.

(** The hypothesis of X30 holds of a vector compared with itself: it is
    accepted under positive infinity and rejected under [-1]. *)
Lemma IsEqualVectors_extreme_thresholds_witness :
  IsEqualVectors [1; 2]%float [1; 2]%float infinity = None /\
  IsEqualVectors [1; 2]%float [1; 2]%float (-1)%float = Some (ErrElementMismatch 0 1 1).
Proof.
  split.
  - apply (IsEqualVectors_extreme_thresholds [1; 2]%float [1; 2]%float infinity eq_refl).
    reflexivity.
  - apply (proj2 (IsEqualVectors_extreme_thresholds [1; 2]%float [1; 2]%float (-1)%float
                    eq_refl) eq_refl 1%float 1%float [2]%float [2]%float eq_refl eq_refl).
    reflexivity.
Defined.
